(** * Magma: worker pool, unit protocol and grid buffers

    A shallow embedding of the TypeScript sources

      - [src/worker/buffer.ts]        (module [Buffer])
      - [src/capabilities/heightmap.ts] (module [Heightmap])
      - [src/worker/helpers.ts]       (module [Helpers])
      - [src/worker/worker.ts]        (module [Worker])
      - [src/pool/helpers.ts]         (modules [Controller], [Target], [Ready])
      - [src/pool/pool.ts], [src/pool/Deferred.ts] (module [Pool])
      - [src/capabilities/noise.ts], [src/capabilities/erosion/helpers.ts]
                                      (module [Grid])
      - [src/capabilities/erosion/thermal.ts] (module [Erosion])

    JavaScript numbers that the code uses as integers (sizes, coordinates,
    indices, ids) are [Z]; strings are [string]; arrays are lists; a [Map]
    keyed by strings is a [gmap string].  Code that throws returns a
    [Result]; code that mutates passes its state explicitly. *)

From Stdlib Require Import ZArith QArith Qround Ascii String List Lia Lqa.
From stdpp Require Import base gmap list strings pretty.

Set Warnings "-register-all".
Open Scope Z_scope.

(** ** Thrown values and results *)

(** What a [throw] can carry: an [Error] instance (with its [name] and
    [message]), the [AggregateError] class of [pool.ts] (an [Error] that also
    holds the list of wrapped errors), or any value that is not an [Error]. *)
Inductive Thrown : Type :=
| JsError (name message : string)
| JsAggregate (errors : list Thrown) (message : string)
| JsValue (v : string).

(** [error instanceof Error] *)
Definition instanceofError (e : Thrown) : bool :=
  match e with
  | JsError _ _ | JsAggregate _ _ => true
  | JsValue _ => false
  end.

(** [error.message] of an [Error] instance *)
Definition message (e : Thrown) : string :=
  match e with
  | JsError _ m | JsAggregate _ m => m
  | JsValue _ => ""
  end.

Inductive Result (A : Type) : Type :=
| Ok (a : A)
| Throw (e : Thrown).
Arguments Ok {A} a.
Arguments Throw {A} e.

Definition isThrow {A} (r : Result A) : bool :=
  match r with Ok _ => false | Throw _ => true end.

(** Sequencing of code that may throw: [x ← r; k] runs [k] on the value of
    [r] and passes a throw of [r] on. *)
#[global] Instance Result_bind : MBind Result := λ A B k r,
  match r with
  | Ok a => k a
  | Throw e => Throw e
  end.

(** ** Typed arrays *)

(** A typed array is a list of elements.  Reading outside it gives
    [undefined] ([None]), writing outside it does nothing, and a write stores
    the value converted to the element type ([conv]). *)
Module TypedArray.

Definition read {V} (a : list V) (i : Z) : option V :=
  if 0 <=? i then a !! Z.to_nat i else None.

Definition write {N V} (conv : N → V) (a : list V) (i : Z) (v : N) : list V :=
  if 0 <=? i then <[Z.to_nat i := conv v]> a else a.

(** Element conversion of a [Uint8Array] on integer-valued numbers. *)
Definition toUint8 (v : Z) : Z := v mod 256.

End TypedArray.

(** ** src/worker/buffer.ts *)

Module Buffer.

(** [Size = [width, height]] *)
Definition Size : Type := Z * Z.

Section Buffer2D.
Context {V : Type}.
(** conversion applied by the buffer's element type on a write *)
Variable conv : V → V.

Record Buffer2D : Type := mkBuffer2D {
  size : Size;
  buffer : list V;
}.

Definition lengthMismatch (len length : Z) : string :=
  "Buffer length (" +:+ pretty len +:+ ") does not match size ("
    +:+ pretty length +:+ ")".

Definition wrapBuffer (buf : list V) (sz : Size) : Result Buffer2D :=
  let length_ := sz.1 * sz.2 in
  if negb (Z.of_nat (length buf) =? length_) then
    Throw (JsError "RangeError"
             (lengthMismatch (Z.of_nat (length buf)) length_))
  else Ok (mkBuffer2D sz buf).

Definition isInBounds (b : Buffer2D) (x y : Z) : bool :=
  (x >=? 0) && (x <? (size b).1) && (y >=? 0) && (y <? (size b).2).

Definition outOfBounds (x y : Z) : string :=
  "Index out of bounds: (" +:+ pretty x +:+ ", " +:+ pretty y +:+ ")".

Definition getIndex (b : Buffer2D) (x y : Z) (noCheck : bool) : Result Z :=
  if negb noCheck && negb (isInBounds b x y) then
    Throw (JsError "RangeError" (outOfBounds x y))
  else Ok (x + y * (size b).1).

Definition get (b : Buffer2D) (x y : Z) (noCheck : bool)
  : Result (option V) :=
  i ← getIndex b x y noCheck ;
  Ok (TypedArray.read (buffer b) i).

Definition set (b : Buffer2D) (x y : Z) (value : V) (noCheck : bool)
  : Result Buffer2D :=
  i ← getIndex b x y noCheck ;
  Ok (mkBuffer2D (size b) (TypedArray.write conv (buffer b) i value)).

(** The round trip in the specification's words: what [get] reads
    after [set] is the value that was passed to [set], unchanged. *)
Definition roundTripUnchanged : Prop :=
  ∀ buf W H b x y v,
    wrapBuffer buf (W, H) = Ok b →
    0 ≤ x < W → 0 ≤ y < H →
    ∃ b', set b x y v false = Ok b' ∧
          get b' x y false = Ok (Some v).

End Buffer2D.

Arguments Buffer2D V : clear implicits.

End Buffer.

(** ** src/capabilities/heightmap.ts *)

Module Heightmap.
Import Buffer.

(** The numbers a [Float32Array] holds: NaN, the two infinities, or a finite
    value, kept as the rational it denotes.  A finite [float32] times 255
    needs at most 32 significant bits, so the double-precision product
    [buffer.buffer[i] * 255] is exact and is the product in [Q]. *)
Inductive Num : Type :=
| NaN
| Inf (negative : bool)
| Fin (q : Q).

(** [buffer.buffer[i] * 255]; reading outside the array gives [undefined],
    and [undefined * 255] is NaN *)
Definition mul255 (v : option Num) : Num :=
  match v with
  | None | Some NaN => NaN
  | Some (Inf s) => Inf s
  | Some (Fin q) => Fin (q * 255)
  end.

Definition Qlt_bool (a b : Q) : bool := negb (Qle_bool b a).

(** [min(max(number, 0), 255)] of a number that is not NaN *)
Definition clamp (n : Num) : Q :=
  match n with
  | NaN => 0
  | Inf true => 0
  | Inf false => 255
  | Fin q => if Qle_bool q 0 then 0 else if Qle_bool 255 q then 255 else q
  end.

(** The conversion a [Uint8ClampedArray] applies on a write (ToUint8Clamp):
    NaN is 0, the number is clamped to [0, 255] and rounded to the nearest
    integer, a tie going to the even one. *)
Definition toUint8Clamp (n : Num) : Z :=
  match n with
  | NaN => 0
  | _ =>
    let clamped := clamp n in
    let f := Qfloor clamped in
    if Qlt_bool clamped (inject_Z f + (1 # 2)) then f
    else if Qlt_bool (inject_Z f + (1 # 2)) clamped then f + 1
    else if Z.even f then f else f + 1
  end.

(** [new Uint8ClampedArray(length)]: zero-filled *)
Definition newUint8ClampedArray (len : Z) : Result (list Z) :=
  if len <? 0 then Throw (JsError "RangeError" "Invalid typed array length")
  else Ok (replicate (Z.to_nat len) 0).

Record ImageData : Type := mkImageData {
  data : list Z;
  width : Z;
  height : Z;
}.

(** [new ImageData(data, sw, sh)] of the platform: the data must hold a
    nonzero multiple of four bytes, making up rows of [sw] pixels, [sh] of
    them.  (The platform reads [sw] and [sh] as unsigned 32-bit integers;
    no array it can allocate has a side of 2^32 or more, so they are taken
    as they are.)  The text of the exception's message is the browser's;
    its name is kept as the message. *)
Definition newImageData (d : list Z) (sw sh : Z) : Result ImageData :=
  let len := Z.of_nat (length d) in
  if (len =? 0) || negb (len mod 4 =? 0) then
    Throw (JsError "InvalidStateError" "InvalidStateError")
  else if (sw <=? 0) || negb ((len / 4) mod sw =? 0)
          || negb ((len / 4) / sw =? sh) then
    Throw (JsError "IndexSizeError" "IndexSizeError")
  else Ok (mkImageData d sw sh).

(** The body of the [for] loop of [makeHeightmap], at index [i] *)
Definition pixelStep (src : list Num) (d : list Z) (i : Z) : list Z :=
  let value := mul255 (TypedArray.read src i) in
  let index := i * 4 in
  let d := TypedArray.write toUint8Clamp d index value in
  let d := TypedArray.write toUint8Clamp d (index + 1) value in
  let d := TypedArray.write toUint8Clamp d (index + 2) value in
  TypedArray.write toUint8Clamp d (index + 3) (Fin 255).

Definition makeHeightmap (b : Buffer2D Num) : Result ImageData :=
  d ← newUint8ClampedArray ((size b).1 * (size b).2 * 4);
  let d := foldl (pixelStep (buffer b)) d (seqZ 0 (Z.of_nat (length d))) in
  newImageData d (size b).1 (size b).2.

(** The four bytes the loop writes for a cell holding [v] *)
Definition pixel (v : Num) : list Z :=
  let c := toUint8Clamp (mul255 (Some v)) in [c; c; c; 255].

(** The channel value the specification gives:
    [floor(clamp(value * 255, 0, 255))] *)
Definition floorChannel (v : Num) : Z := Qfloor (clamp (mul255 (Some v))).

End Heightmap.

(** ** src/worker/helpers.ts *)

Module Helpers.

(** [Number.MAX_SAFE_INTEGER] *)
Definition MAX_SAFE_INTEGER : Z := 2 ^ 53 - 1.

(** [idGen()]: the closure's variable [id] is the state; a call of the
    returned function gives the id and the new state. *)
Definition idGen : Z := 0.

Definition getID (id : Z) : Z * Z :=
  let id := if id =? MAX_SAFE_INTEGER then 0 else id in
  (id, id + 1).

(** [s.split("/")]: the pieces of [s] between the slashes, at least one *)
Fixpoint split (s : string) : list string :=
  match s with
  | EmptyString => [EmptyString]
  | String c rest =>
    if Ascii.eqb c "/"%char then EmptyString :: split rest
    else match split rest with
         | piece :: pieces => String c piece :: pieces
         | [] => [String c EmptyString]
         end
  end.

Section Tasks.
(** The values a task returns or reports, the payload of a request, and
    the references to buffers a task marks for transfer. *)
Context {Value Payload Buf : Type} `{EqDecision Buf}.
(** [(t as BufferTypes).buffer ?? t]: the [ArrayBuffer] under a view, an
    [ArrayBuffer] itself *)
Variable bufferOf : Buf → Buf.

(** The fields of a [Context] that are data. *)
Record Context : Type := mkContext {
  id : Z;
  config : Payload;
  start : Z;
}.

(** A task body, [(context) => Return], as what it does with its context:
    it calls [context.progress] and [context.transfer], time passes while
    it computes, and it ends by returning or by throwing.  It does not
    catch what [progress] throws. *)
Inductive TaskScript : Type :=
| Return (result : Value)
| Raise (e : Thrown)
| Progress (detail : Value) (k : TaskScript)
| Transfer (buffers : list Buf) (k : TaskScript)
| Elapse (dt : Z) (k : TaskScript).

Definition Task : Type := Context → TaskScript.

(** [makeTypeHandler(type)]: the object's [type] and the closure's map
    [tasks]. *)
Record TypeHandler : Type := mkTypeHandler {
  type : string;
  tasks : gmap string Task;
}.

Definition makeTypeHandler (t : string) : TypeHandler := mkTypeHandler t ∅.

(** [is(type)]: the parameter hides the handler's [type], so both
    occurrences in [type.startsWith(`${type}/`)] are the argument. *)
Definition is_ (h : TypeHandler) (type : string) : bool :=
  String.prefix (type +:+ "/") type.

Definition add (h : TypeHandler) (t : string) (task : Task) : TypeHandler :=
  mkTypeHandler (type h) (<[t := task]> (tasks h)).

Definition has (h : TypeHandler) (t : string) : bool :=
  bool_decide (is_Some (tasks h !! t)).

(** [get(type)]; the argument is [undefined] ([None]) when the caller's
    destructuring found no second piece, and no key is [undefined]. *)
Definition get (h : TypeHandler) (t : option string) : option Task :=
  t ≫= λ t, tasks h !! t.

(** [makeHandler()]: the map [handlers] and [getHandler] *)
Definition getHandler (handlers : gmap string TypeHandler) (t : string)
  : option TypeHandler :=
  handlers !! default EmptyString (head (split t)).

(** What the unit posts to the controller. *)
Inductive Message : Type :=
| MReady
| MStart
| MProgress (progress : Value) (duration : Z)
| MError (message : string) (duration : option Z)
| MResultDetail (result : Value) (duration : Z).

(** [createError]: [{ type: "error", payload: { message, duration } }] *)
Definition createError (message : string) (duration : option Z) : Message :=
  MError message duration.

(** [createResult]: [{ result, duration }] *)
Definition createResult (result : Value) (duration : Z) : Message :=
  MResultDetail result duration.

(** The global scope of the unit, as far as the helpers use it: the
    messages [postMessage] has taken so far, each with its transfer list,
    and the clock [performance.now()], in milliseconds. *)
Record Env : Type := mkEnv {
  outbox : list (Message * option (list Buf));
  now : Z;
}.

(** The options [dispatch] gives to [postMessage]:
    [transfer?.length ? { transfer: transfer.map(…) } : undefined] *)
Definition transferOptions (transfer : option (list Buf))
  : option (list Buf) :=
  match transfer with
  | Some ((_ :: _) as l) => Some (bufferOf <$> l)
  | _ => None
  end.

(** The platform's [postMessage(message, options)] on a message that holds
    a value of a task (a progress detail or a result): [None] when it takes
    the message, and the text of the [DataCloneError] it throws when it
    does not, because the value cannot be cloned (it holds a function, as an
    object with methods does) or the list cannot be transferred (it repeats
    an [ArrayBuffer], or names one that is detached).  The verdict is the
    platform's and may depend on what was posted before. *)
Variable dataCloneError : Env → Message → option (list Buf) → option string.

(** What [postMessage] throws, if it throws.  The messages "ready", "start"
    and "error" hold strings and numbers only and go without a transfer
    list: they are always taken.  A [DataCloneError] is a [DOMException],
    which is an [Error]. *)
Definition refused (action : Message) (options : option (list Buf))
  (env : Env) : option Thrown :=
  match action with
  | MReady | MStart | MError _ _ => None
  | MProgress _ _ | MResultDetail _ _ =>
    JsError "DataCloneError" <$> dataCloneError env action options
  end.

(** [dispatch(action, transfer)] when [postMessage] takes the message: the
    message joins the outbox.  Where the message holds a value of a task the
    callers ask [refused] first: [postMessage] throws there and nothing is
    posted. *)
Definition dispatch (action : Message) (transfer : option (list Buf))
  (env : Env) : Env :=
  mkEnv (outbox env ++ [(action, transferOptions transfer)]) (now env).

(** [transferables.add(buffer)] for each buffer, on a [Set] kept in
    insertion order *)
Definition transfer (buffers : list Buf) (transferables : list Buf)
  : list Buf :=
  foldl (λ acc b, if decide (b ∈ acc) then acc else acc ++ [b])
        transferables buffers.

(** [context.progress(detail)]; [busy] is the value of the [busy()]
    callback, [None] for [false].  What [postMessage] throws leaves
    [progress] as it is. *)
Definition progress (ctx : Context) (busy : option Z) (detail : Value)
  (env : Env) : Result Env :=
  if negb (bool_decide (busy = Some (id ctx))) then
    Throw (JsError "Error" "Task is not active")
  else
    let duration := if start ctx =? 0 then 0 else now env - start ctx in
    match refused (MProgress detail duration) (transferOptions None) env with
    | Some e => Throw e
    | None => Ok (dispatch (MProgress detail duration) None env)
    end.

(** [buildContext(id, config, busy)] reads the clock for [start]. *)
Definition buildContext (id : Z) (config : Payload) (env : Env) : Context :=
  mkContext id config (now env).

(** Running a task body that was given [ctx]: the environment and the set
    of marked buffers after it, and how it ended. *)
Fixpoint runTask (ctx : Context) (busy : option Z) (script : TaskScript)
  (transferables : list Buf) (env : Env)
  : Env * list Buf * Result Value :=
  match script with
  | Return r => (env, transferables, Ok r)
  | Raise e => (env, transferables, Throw e)
  | Progress detail k =>
    match progress ctx busy detail env with
    | Ok env => runTask ctx busy k transferables env
    | Throw e => (env, transferables, Throw e)
    end
  | Transfer buffers k =>
    runTask ctx busy k (transfer buffers transferables) env
  | Elapse dt k =>
    runTask ctx busy k transferables
      (mkEnv (outbox env) (now env + Z.max 0 dt))
  end.

End Tasks.

Arguments Context Payload : clear implicits.
Arguments TaskScript Value Buf : clear implicits.
Arguments Task Value Payload Buf : clear implicits.
Arguments TypeHandler Value Payload Buf : clear implicits.
Arguments Message Value : clear implicits.
Arguments Env Value Buf : clear implicits.

End Helpers.

(** ** src/worker/worker.ts *)

Module Worker.
Import Helpers.

Section Unit.
Context {Value Payload Buf : Type} `{EqDecision Buf}.
Variable bufferOf : Buf → Buf.
(** the platform's verdict on a message that holds a value of a task *)
Variable dataCloneError :
  Env Value Buf → Message Value → option (list Buf) → option string.
(** the map [handlers], filled when the module is loaded *)
Variable handlers : gmap string (TypeHandler Value Payload Buf).

(** [IncomingMessage]: [event.data] *)
Record IncomingMessage : Type := mkIncoming {
  msgType : string;
  payload : Payload;
}.

(** The module's variables: [busy] ([false], here [None], or the id of
    the task that runs), the counter inside [getID], and the global
    scope. *)
Record State : Type := mkState {
  busy : option Z;
  nextID : Z;
  env : Env Value Buf;
}.

(** [if (busy)]: [false] and [0] are falsy *)
Definition truthy (b : option Z) : bool :=
  match b with
  | None => false
  | Some n => negb (n =? 0)
  end.

(** The outer [try] block of [onMessage]: the state it leaves, the local
    [duration], and the value it threw, if it threw. *)
Definition tryBlock (event : IncomingMessage) (st : State)
  : State * option Z * option Thrown :=
  if truthy (busy st) then
    (st, None, Some (JsError "Error" "Worker is busy"))
  else
    let '(id, next) := getID (nextID st) in
    let st := mkState (Some id) next (env st) in
    match getHandler handlers (msgType event) with
    | None =>
      (st, None,
       Some (JsError "Error"
               ("Missing handler for type: " +:+ msgType event)))
    | Some handler =>
      let subType := split (msgType event) !! 1%nat in
      match get handler subType with
      | None =>
        (st, None,
         Some (JsError "Error"
                 ("Missing task for type: " +:+ msgType event)))
      | Some task =>
        let env1 := dispatch bufferOf MStart None (env st) in
        let context := buildContext id (payload event) env1 in
        let '(env2, transferables, outcome) :=
          runTask bufferOf dataCloneError context (busy st) (task context)
            [] env1 in
        let duration := now env2 - start context in
        match outcome with
        | Throw e => (mkState (busy st) next env2, Some duration, Some e)
        | Ok result =>
          match refused dataCloneError (createResult result duration)
                  (transferOptions bufferOf (Some transferables)) env2 with
          | Some e => (mkState (busy st) next env2, Some duration, Some e)
          | None =>
            (mkState (busy st) next
               (dispatch bufferOf (createResult result duration)
                  (Some transferables) env2),
             Some duration, None)
          end
        end
      end
    end.

(** The [catch] block *)
Definition catchBlock (error : Thrown) (duration : option Z) (st : State)
  : State :=
  let message :=
    if instanceofError error then message error
    else "An unknown error occurred" in
  mkState (busy st) (nextID st)
    (dispatch bufferOf (createError message duration) None (env st)).

Definition onMessage (event : IncomingMessage) (st : State) : State :=
  let '(st, duration, thrown) := tryBlock event st in
  let st :=
    match thrown with
    | Some error => catchBlock error duration st
    | None => st
    end in
  (* finally *)
  mkState None (nextID st) (env st).

(** Module load: [busy = false], [getID = idGen()], and the unit posts
    [{ type: "ready" }]. *)
Definition init : State :=
  mkState None idGen
    (dispatch bufferOf MReady None (mkEnv [] 0)).

(** The messages a state has posted since an earlier one had posted [n]. *)
Definition postedSince (n : nat) (st : State) : list (Message Value) :=
  fst <$> drop n (outbox (env st)).

(** A message of the controller, with the time on the unit's clock at
    which the platform put it in the unit's queue. *)
Record Queued : Type := mkQueued {
  arrival : Z;
  request : IncomingMessage;
}.

(** [self.addEventListener("message", onMessage)]: the event loop calls the
    listener with the next message of the queue when the call before has
    returned, at once when the message is already there, and when it
    arrives otherwise. *)
Definition deliver (st : State) (q : Queued) : State :=
  onMessage (request q)
    (mkState (busy st) (nextID st)
       (mkEnv (outbox (env st)) (Z.max (now (env st)) (arrival q)))).

Definition serve (queue : list Queued) (st : State) : State :=
  foldl deliver st queue.

End Unit.

Arguments IncomingMessage Payload : clear implicits.
Arguments State Value Buf : clear implicits.
Arguments Queued Payload : clear implicits.

(** *** The tasks the module registers *)

(** What the tasks of this worker return or report: the progress text and
    the typed array of "terrain/generate", the image of "terrain/heightmap",
    and the object [wrapBuffer] built that the two erosion tasks return. *)
Inductive Value : Type :=
| VString (s : string)
| VFloat32Array (a : list Heightmap.Num)
| VImageData (img : Heightmap.ImageData)
| VBuffer2D (b : Buffer.Buffer2D Heightmap.Num).

(** The buffers they mark for transfer; a buffer stands for the object
    that holds it. *)
Inductive Buf : Type :=
| Float32Array (a : list Heightmap.Num)
| Uint8ClampedArray (d : list Z)
| ArrayBuffer (view : Buf).

#[global] Instance Q_eq_dec : EqDecision Q.
Proof. solve_decision. Defined.
#[global] Instance Num_eq_dec : EqDecision Heightmap.Num.
Proof. solve_decision. Defined.
#[global] Instance Buf_eq_dec : EqDecision Buf.
Proof. solve_decision. Defined.

Definition bufferOf (b : Buf) : Buf :=
  match b with
  | ArrayBuffer _ => b
  | view => ArrayBuffer view
  end.

(** Whether the structured clone takes a value: strings, typed arrays and
    [ImageData] are cloned, an object that holds functions is not. *)
Definition cloneable (v : Value) : bool :=
  match v with
  | VString _ | VFloat32Array _ | VImageData _ => true
  | VBuffer2D _ => false
  end.

(** The platform's verdict on what this worker posts, for buffers that are
    fresh in every request (none is detached): a value that cannot be cloned
    is refused, and so is a transfer list that repeats an [ArrayBuffer].
    The text of the exception is the browser's; its name stands for it. *)
Definition dataCloneError (env : Env Value Buf) (message : Message Value)
  (options : option (list Buf)) : option string :=
  let value :=
    match message with
    | MProgress v _ | MResultDetail v _ => Some v
    | MReady | MStart | MError _ _ => None
    end in
  if bool_decide (NoDup (default [] options))
     && default true (cloneable <$> value)
  then None
  else Some "DataCloneError".

(** The payload of a request: [size], [buffer], and the task's other
    options. *)
Record Config (Options : Type) : Type := mkConfig {
  size : Buffer.Size;
  buffer : list Heightmap.Num;
  options : Options;
}.
Arguments mkConfig {Options} size buffer options.
Arguments size {Options} c.
Arguments buffer {Options} c.
Arguments options {Options} c.

Section Registry.
Context {Options : Type}.
(** The bodies of "terrain/generate", "erosion/thermal" and
    "erosion/hydraulic": noise and erosion, of which nothing is used
    here. *)
Variables generate thermal hydraulic : Task Value (Config Options) Buf.

(** The body of "terrain/heightmap" *)
Definition heightmap : Task Value (Config Options) Buf := λ context,
  let result :=
    buf ← Buffer.wrapBuffer (buffer (config context))
            (size (config context));
    Heightmap.makeHeightmap buf in
  match result with
  | Throw e => Raise e
  | Ok resultBuf =>
    Transfer [Uint8ClampedArray (Heightmap.data resultBuf)]
      (Return (VImageData resultBuf))
  end.

Definition terrainHandler : TypeHandler Value (Config Options) Buf :=
  add (add (makeTypeHandler "terrain") "generate" generate)
      "heightmap" heightmap.

Definition erosionHandler : TypeHandler Value (Config Options) Buf :=
  add (add (makeTypeHandler "erosion") "thermal" thermal)
      "hydraulic" hydraulic.

Definition handlers : gmap string (TypeHandler Value (Config Options) Buf) :=
  <[type erosionHandler := erosionHandler]>
    (<[type terrainHandler := terrainHandler]> ∅).

End Registry.

End Worker.

(** ** src/pool/helpers.ts: how the controller reads a unit's messages *)

Module Controller.
Import Helpers.

Section ExecuteTask.
Context {Value : Type}.

(** [event.data.type]; the object [createResult] builds has none. *)
Definition typeOf (m : Message Value) : option string :=
  match m with
  | MReady => Some "ready"
  | MStart => Some "start"
  | MProgress _ _ => Some "progress"
  | MError _ _ => Some "error"
  | MResultDetail _ _ => None
  end.

(** The events [executeTask] dispatches on its target. *)
Inductive TargetEvent : Type :=
| EvStart
| EvProgress
| EvResult
| EvError (message : string).

(** The [switch] of the listener [onMessage] in [executeTask]. *)
Definition targetEvent (m : Message Value) : TargetEvent :=
  match typeOf m with
  | Some "start" => EvStart
  | Some "progress" => EvProgress
  | Some "result" => EvResult
  | _ =>
    match m with
    | MError message _ => EvError message
    | _ => EvError "Invalid message received"
    end
  end.

(** The branches that set [finished = true] and remove the listeners:
    the message ends the exchange. *)
Definition terminal (m : Message Value) : bool :=
  match targetEvent m with
  | EvStart | EvProgress => false
  | EvResult | EvError _ => true
  end.

End ExecuteTask.
End Controller.

(** ** src/pool/Deferred.ts and src/pool/pool.ts *)

Module Pool.

(** A worker object is known by its identity: the number of workers that
    had joined the pool before it.  A worker joins when it has reported
    ready ([#createWorker] pushes it after [await waitForReady(…)]), so the
    numbers follow the order in which the workers became ready, which need
    not be the order in which the factory made them. *)
Definition Worker : Type := nat.

(** A [Deferred] is known by the place of its promise in the store of
    promises. *)
Definition Deferred : Type := nat.

Inductive Promise : Type :=
| Pending
| Fulfilled (w : Worker)
| Rejected (e : Thrown).

(** The private fields of a [WorkerPool] ([maxPending] is [None] for
    [Infinity]) and what the pool acts on outside itself: the promises of
    the deferreds it created, the callbacks it handed to [setTimeout], the
    workers it terminated, the workers that carry its [once] listener for
    "error", and, in [created], the number of workers that have joined it
    (each made by its factory, and ready). *)
Record State : Type := mkState {
  workers : list Worker;
  available : list Worker;
  pending : list Deferred;
  maxPending : option Z;
  promises : list Promise;
  timers : list (Deferred * Worker);
  terminated : list Worker;
  listeners : list Worker;
  created : nat;
}.

(** [deferred.resolve] and [deferred.reject]: a promise settles once, later
    attempts do nothing. *)
Definition settle (d : Deferred) (outcome : Promise) (ps : list Promise)
  : list Promise :=
  match ps !! d with
  | Some Pending => <[d := outcome]> ps
  | _ => ps
  end.

(** The constructor's check of [size]; the workers join as they report
    ready ([createWorker]). *)
Definition new (size : Z) : Result State :=
  if size <=? 0 then
    Throw (JsError "RangeError" "Size must be a positive integer")
  else Ok (mkState [] [] [] None [] [] [] [] 0).

(** [set maxPending(value)] *)
Definition setMaxPending (value : Z) (p : State) : Result State :=
  if value <? 0 then
    Throw (JsError "RangeError" "Max pending must be a non-negative integer")
  else
    Ok (mkState (workers p) (available p) (pending p) (Some value)
          (promises p) (timers p) (terminated p) (listeners p) (created p)).

(** [#createWorker(busy)], from the point where the new worker has
    reported ready: there it joins the pool and gets its number. *)
Definition createWorker (busy : bool) (p : State) : State * Worker :=
  let worker := created p in
  (mkState (workers p ++ [worker])
     (if negb busy then available p ++ [worker] else available p)
     (pending p) (maxPending p) (promises p) (timers p) (terminated p)
     (listeners p ++ [worker]) (S (created p)),
   worker).

(** The listener [#createWorker] adds for the worker's "error" event; it
    is added with [once], so it runs for the first such event only. *)
Definition onWorkerError (worker : Worker) (p : State) : State :=
  if decide (worker ∈ listeners p) then
    mkState (filter (λ w, w ≠ worker) (workers p))
      (filter (λ w, w ≠ worker) (available p))
      (pending p) (maxPending p) (promises p) (timers p) (terminated p)
      (filter (λ w, w ≠ worker) (listeners p)) (created p)
  else p.

(** What the promise of [acquire()] is: resolved with a worker at once, or
    the promise of a new deferred. *)
Inductive Acquired : Type :=
| Now (w : Worker)
| Later (d : Deferred).

(** [pending.length >= maxPending] *)
Definition atCapacity (p : State) : bool :=
  match maxPending p with
  | None => false
  | Some m => Z.of_nat (length (pending p)) >=? m
  end.

Definition acquire (p : State) : Result Acquired * State :=
  match workers p with
  | [] => (Throw (JsError "Error" "No workers in pool"), p)
  | _ :: _ =>
    match available p with
    | next :: rest =>
      (Ok (Now next),
       mkState (workers p) rest (pending p) (maxPending p) (promises p)
         (timers p) (terminated p) (listeners p) (created p))
    | [] =>
      if atCapacity p then
        (Throw (JsError "Error" "Max pending requests reached"), p)
      else
        let deferred := length (promises p) in
        (Ok (Later deferred),
         mkState (workers p) (available p) (pending p ++ [deferred])
           (maxPending p) (promises p ++ [Pending]) (timers p)
           (terminated p) (listeners p) (created p))
    end
  end.

Definition release (worker : Worker) (p : State) : Result State :=
  if negb (bool_decide (worker ∈ workers p)) then
    Throw (JsError "Error" "Worker is not in pool")
  else
    match pending p with
    | deferred :: rest =>
      Ok (mkState (workers p) (available p) rest (maxPending p)
            (promises p) (timers p ++ [(deferred, worker)]) (terminated p)
            (listeners p) (created p))
    | [] =>
      Ok (mkState (workers p) (available p ++ [worker]) (pending p)
            (maxPending p) (promises p) (timers p) (terminated p)
            (listeners p) (created p))
    end.

(** The scheduler runs the oldest callback given to [setTimeout(…, 0)]:
    [deferred.resolve(worker)]. *)
Definition runTimer (p : State) : State :=
  match timers p with
  | [] => p
  | (deferred, worker) :: rest =>
    mkState (workers p) (available p) (pending p) (maxPending p)
      (settle deferred (Fulfilled worker) (promises p)) rest
      (terminated p) (listeners p) (created p)
  end.

Definition poolClosed : Thrown := JsError "Error" "Worker pool closed".

Definition close (p : State) : State :=
  match workers p with
  | [] => p
  | _ :: _ =>
    mkState [] [] [] (maxPending p)
      (foldl (λ ps deferred, settle deferred (Rejected poolClosed) ps)
             (promises p) (pending p))
      (timers p) (terminated p ++ workers p) (listeners p) (created p)
  end.

(** [await this.acquire()].  The call is suspended while the promise is
    not settled, and other callers and the workers' events change the pool
    meanwhile: [await_ d] is what happens to the pool until the promise of
    the deferred [d] settles, and how it settles. *)
Definition acquirePhase
  (await_ : Deferred → State → State * Result Worker)
  (p : State) : State * Result Worker :=
  let '(promise, p) := acquire p in
  match promise with
  | Throw e => (p, Throw e)
  | Ok (Now w) => (p, Ok w)
  | Ok (Later d) => await_ d p
  end.

(** [with(task)].  [task w] is what happens to the pool until [task(w)]
    settles, and how it settles.  The last component lists the workers
    [release] was called on. *)
Definition with_ {Return : Type}
  (await_ : Deferred → State → State * Result Worker)
  (task : Worker → State → State * Result Return)
  (p : State) : State * Result Return * list Worker :=
  let '(p, acquired) := acquirePhase await_ p in
  match acquired with
  | Throw error =>
    (p, Throw (JsAggregate [error] "Failed to acquire worker"), [])
  | Ok worker =>
    let '(p, outcome) := task worker p in
    let body :=
      match outcome with
      | Ok result => Ok result
      | Throw error => Throw (JsAggregate [error] "Worker task failed")
      end in
    (* finally *)
    match release worker p with
    | Throw error =>
      (p, Throw (JsAggregate [error] "Failed to release worker"), [worker])
    | Ok p => (p, body, [worker])
    end
  end.

(** What can happen to a pool, one after the other: a worker reports
    ready, a caller acquires or releases, the pool is closed, a worker
    reports a fault, a timer runs, [maxPending] is set. *)
Inductive Op : Type :=
| Spawn (busy : bool)
| Acquire
| Release (w : Worker)
| Close
| Fault (w : Worker)
| Timer
| SetMaxPending (value : Z).

Definition step (p : State) (op : Op) : State :=
  match op with
  | Spawn busy => (createWorker busy p).1
  | Acquire => (acquire p).2
  | Release w =>
    match release w p with Ok p' => p' | Throw _ => p end
  | Close => close p
  | Fault w => onWorkerError w p
  | Timer => runTimer p
  | SetMaxPending v =>
    match setMaxPending v p with Ok p' => p' | Throw _ => p end
  end.

Definition run (ops : list Op) (p : State) : State := foldl step p ops.

(** What the promises are after the callbacks [ts] given to [setTimeout]
    have run, in their order. *)
Definition fire (ts : list (Deferred * Worker)) (ps : list Promise)
  : list Promise :=
  foldl (λ ps t, settle t.1 (Fulfilled t.2) ps) ps ts.

(** What holds of every pool that operations have made: the pool's
    workers carry its "error" listener and were created by its factory;
    the deferreds in the queue and in the timers have their promise in the
    store; a deferred is in the queue once, its promise is not settled, and
    no timer is set for it. *)
Definition wellFormed (p : State) : Prop :=
  (∀ w, w ∈ workers p → w ∈ listeners p)
  ∧ (∀ w, w ∈ listeners p → (w < created p)%nat)
  ∧ (∀ d, d ∈ pending p → (d < length (promises p))%nat)
  ∧ (∀ t, t ∈ timers p → (t.1 < length (promises p))%nat)
  ∧ NoDup (pending p)
  ∧ (∀ d, d ∈ pending p → promises p !! d = Some Pending)
  ∧ (∀ d, d ∈ pending p → d ∉ (timers p).*1).

(** The worker [w] is gone from the pool, and only deferreds older than
    the [n]-th can still bring it to a caller. *)
Definition evicted (w : Worker) (n : nat) (p : State) : Prop :=
  (w < created p)%nat
  ∧ (w ∉ workers p) ∧ (w ∉ available p)
  ∧ (n ≤ length (promises p))%nat
  ∧ (∀ d, (d, w) ∈ timers p → (d < n)%nat)
  ∧ (∀ d, promises p !! d = Some (Fulfilled w) → (d < n)%nat).

(** The pool right after a successful construction. *)
Definition empty : State := mkState [] [] [] None [] [] [] [] 0.

End Pool.

(** ** src/worker/buffer.ts: the iterator; src/capabilities/noise.ts: the
    fill; src/capabilities/erosion/helpers.ts: the neighbours *)

Module Grid.
Import Buffer.

Section Grid.
Context {V : Type}.
Variable conv : V → V.

(** What [values()] yields: [{ x, y, value, index }] *)
Record Cell : Type := mkCell {
  cellX : Z;
  cellY : Z;
  cellValue : option V;
  cellIndex : Z;
}.

(** [values()], all of what the generator yields when the buffer is not
    written meanwhile: the outer loop runs over [x], the inner loop over
    [y]. *)
Definition values (b : Buffer2D V) : list Cell :=
  x ← seqZ 0 (size b).1;
  y ← seqZ 0 (size b).2;
  match getIndex b x y true with
  | Ok index => [mkCell x y (TypedArray.read (buffer b) index) index]
  | Throw _ => []
  end.

(** [fillBuffer2D(buffer, noiseFn)]: the two loops call [buffer.set]; a
    throw of [set] ends them. *)
Definition fillBuffer2D (b : Buffer2D V) (noiseFn : Z → Z → V)
  : Result (Buffer2D V) :=
  foldl (λ r x,
           foldl (λ r y, b ← r; set conv b x y (noiseFn x y) false)
                 r (seqZ 0 (size b).2))
        (Ok b) (seqZ 0 (size b).1).

(** The constant [neighbors]: left, right, top, bottom. *)
Definition neighbors : list (Z * Z) := [(-1, 0); (1, 0); (0, -1); (0, 1)].

(** [{ x, y, value }] *)
Record Neighbor : Type := mkNeighbor {
  neighborX : Z;
  neighborY : Z;
  neighborValue : option V;
}.

(** The body both neighbour loops share: the cell at [(nx, ny)] is yielded
    when it is in bounds, with the value read without a second check. *)
Definition yieldInBounds (b : Buffer2D V) (nx ny : Z) : list Neighbor :=
  if isInBounds b nx ny then
    match get b nx ny true with
    | Ok value => [mkNeighbor nx ny value]
    | Throw _ => []
    end
  else [].

(** [getNeighbors(buffer, point)] *)
Definition getNeighbors (b : Buffer2D V) (point : Z * Z) : list Neighbor :=
  d ← neighbors;
  yieldInBounds b (point.1 + d.1) (point.2 + d.2).

(** [getNeighborsInRange(buffer, point, range)] *)
Definition getNeighborsInRange (b : Buffer2D V) (point : Z * Z) (range : Z)
  : list Neighbor :=
  dx ← seqZ (- range) (2 * range + 1);
  dy ← seqZ (- range) (2 * range + 1);
  if (dx =? 0) && (dy =? 0) then []
  else yieldInBounds b (point.1 + dx) (point.2 + dy).

End Grid.

Arguments Cell V : clear implicits.
Arguments Neighbor V : clear implicits.

End Grid.

(** ** src/worker/helpers.ts and src/worker/worker.ts: ids, lookup of a task,
    what a task body asks of its context *)

Module Protocol.
Import Helpers.

(** The ids [n] calls of the function [idGen()] returned give, the first
    call made when the closure's variable is [id]. *)
Fixpoint callIDs (id : Z) (n : nat) : list Z :=
  match n with
  | O => []
  | S n => let '(i, id) := getID id in i :: callIDs id n
  end.

(** Whether a string holds a slash. *)
Fixpoint hasSlash (s : string) : bool :=
  match s with
  | EmptyString => false
  | String c rest => Ascii.eqb c "/"%char || hasSlash rest
  end.

Section Protocol.
Context {Value Payload Buf : Type} `{EqDecision Buf}.

(** The two lookups [onMessage] makes for a request of type [t]:
    [getHandler(type)], then [handler.get(subType)] with the second piece of
    [type.split("/")]. *)
Definition taskFor (handlers : gmap string (TypeHandler Value Payload Buf))
  (t : string) : option (Task Value Payload Buf) :=
  handler ← getHandler handlers t;
  get handler (split t !! 1%nat).

(** How a task body ends. *)
Fixpoint scriptEnd (script : TaskScript Value Buf) : Result Value :=
  match script with
  | Return r => Ok r
  | Raise e => Throw e
  | Progress _ k | Transfer _ k | Elapse _ k => scriptEnd k
  end.

(** The details it passes to [context.progress], in order. *)
Fixpoint progressDetails (script : TaskScript Value Buf) : list Value :=
  match script with
  | Return _ | Raise _ => []
  | Progress detail k => detail :: progressDetails k
  | Transfer _ k | Elapse _ k => progressDetails k
  end.

(** The buffers it passes to [context.transfer], in order. *)
Fixpoint transferred (script : TaskScript Value Buf) : list Buf :=
  match script with
  | Return _ | Raise _ => []
  | Transfer buffers k => buffers ++ transferred k
  | Progress _ k | Elapse _ k => transferred k
  end.

(** [payload.progress] of a progress message *)
Definition progressOf (m : Message Value) : option Value :=
  match m with
  | MProgress detail _ => Some detail
  | _ => None
  end.

(** The platform takes every progress message of a task body, whenever it
    is posted. *)
Definition progressTaken
  (dataCloneError :
     Env Value Buf → Message Value → option (list Buf) → option string)
  (script : TaskScript Value Buf) : Prop :=
  ∀ env duration detail,
    detail ∈ progressDetails script →
    dataCloneError env (MProgress detail duration) None = None.

End Protocol.
End Protocol.

(** ** src/pool/helpers.ts: [executeTask] and [waitForReady] *)

Module Target.
Import Helpers Controller.

Section Target.
Context {Value : Type}.

(** What reaches the listeners [executeTask] puts on the worker: a message,
    or the worker's "error" event with its [error]. *)
Inductive WorkerEvent : Type :=
| OnMessage (data : Message Value)
| OnError (error : Thrown).

(** [event.data.payload]: the object a progress or an error message
    carries; the other messages of the unit have none. *)
Inductive Detail : Type :=
| PProgress (progress : Value) (duration : Z)
| PError (message : string) (duration : option Z).

Definition payloadOf (data : Message Value) : option Detail :=
  match data with
  | MProgress progress duration => Some (PProgress progress duration)
  | MError message duration => Some (PError message duration)
  | MReady | MStart | MResultDetail _ _ => None
  end.

(** What [executeTask] dispatches on its target; "progress" and "result"
    carry the payload as their [detail]. *)
Inductive Dispatched : Type :=
| DStart
| DProgress (detail : option Detail)
| DResult (detail : option Detail)
| DErrorEvent (error : Thrown).

(** The properties [finished], [error] and [result] of the object
    [executeTask] returns.  [Object.assign] reads the three getters of its
    source once, when [executeTask] returns, and stores what they gave as
    plain properties of the target; the listeners write the closure's
    variables, not these. *)
Record Returned : Type := mkReturned {
  finishedProperty : bool;
  errorProperty : option Thrown;
  resultProperty : option Detail;
}.

(** One [executeTask] call: whether its two listeners are still on the
    worker, the closure's variables [finished], [result] and [error], the
    events dispatched on the target so far, and the properties of the
    returned object, which is what a caller reads. *)
Record State : Type := mkState {
  listening : bool;
  finished : bool;
  result : option Detail;
  error : option Thrown;
  events : list Dispatched;
  returned : Returned;
}.

(** Right after [executeTask] returns: [Object.assign] has copied the
    variables as they are then. *)
Definition init : State :=
  let finished := false in
  let result := None in
  let error := None in
  mkState true finished result error [] (mkReturned finished error result).

(** The listener [onMessage] of [executeTask]: the [switch] on
    [event.data.type].  In [default] the type is "error" exactly when the
    message is the one [createError] builds. *)
Definition onMessage (data : Message Value) (st : State) : State :=
  let payload := payloadOf data in
  match typeOf data with
  | Some "start" =>
    mkState (listening st) (finished st) (result st) (error st)
      (events st ++ [DStart]) (returned st)
  | Some "progress" =>
    mkState (listening st) (finished st) (result st) (error st)
      (events st ++ [DProgress payload]) (returned st)
  | Some "result" =>
    mkState false true payload (error st) (events st ++ [DResult payload])
      (returned st)
  | _ =>
    let error :=
      match data with
      | MError message _ => JsError "Error" message
      | _ => JsError "Error" "Invalid message received"
      end in
    mkState false true (result st) (Some error)
      (events st ++ [DErrorEvent error]) (returned st)
  end.

(** The listener [onError] of [executeTask] *)
Definition onError (e : Thrown) (st : State) : State :=
  mkState false (finished st) (result st) (error st)
    (events st ++ [DErrorEvent e]) (returned st).

(** An event of the worker reaches the listeners that are still there. *)
Definition deliver (st : State) (ev : WorkerEvent) : State :=
  if listening st then
    match ev with
    | OnMessage data => onMessage data st
    | OnError e => onError e st
    end
  else st.

Definition run (evs : list WorkerEvent) (st : State) : State :=
  foldl deliver st evs.

(** The events that end the exchange. *)
Definition isTerminal (d : Dispatched) : bool :=
  match d with
  | DStart | DProgress _ => false
  | DResult _ | DErrorEvent _ => true
  end.

End Target.

Arguments WorkerEvent Value : clear implicits.
Arguments Detail Value : clear implicits.
Arguments Dispatched Value : clear implicits.
Arguments Returned Value : clear implicits.
Arguments State Value : clear implicits.

End Target.

Module Ready.

(** What reaches [waitForReady]: a message with its [data.type] ([None]
    when the data has none), the worker's "error" event, or the timer's
    callback. *)
Inductive Event : Type :=
| Message (type : option string)
| Error (error : Thrown)
| Timeout.

(** [event.data.type === "ready"] *)
Definition isReady (type : option string) : bool :=
  match type with
  | Some t => String.eqb t "ready"
  | None => false
  end.

(** The promise of [waitForReady] ([None] while it is not settled; it
    resolves with the worker it was given), whether the two listeners are on
    the worker, and whether the timer is set. *)
Record State : Type := mkState {
  settled : option (Result unit);
  listening : bool;
  timer : bool;
}.

(** [waitForReady(worker, timeout)]; [timeout] is [None] when it is not
    given. *)
Definition waitForReady (timeout : option Z) : State :=
  mkState None true
    match timeout with
    | Some t => negb (t =? 0) && (t >? 0)
    | None => false
    end.

(** [removeListeners()], then [resolve] or [reject]; a settled promise
    stays as it is. *)
Definition settle (outcome : Result unit) (st : State) : State :=
  mkState (match settled st with None => Some outcome | s => s end)
    false false.

Definition step (st : State) (ev : Event) : State :=
  match ev with
  | Message type =>
    if listening st then
      if isReady type then settle (Ok tt) st else st
    else st
  | Error e => if listening st then settle (Throw e) st else st
  | Timeout =>
    if timer st then settle (Throw (JsError "Error" "Worker timed out")) st
    else st
  end.

Definition run (evs : list Event) (st : State) : State := foldl step st evs.

(** The events that can settle the promise. *)
Definition decides (withTimer : bool) (ev : Event) : option (Result unit) :=
  match ev with
  | Message type => if isReady type then Some (Ok tt) else None
  | Error e => Some (Throw e)
  | Timeout =>
    if withTimer then Some (Throw (JsError "Error" "Worker timed out"))
    else None
  end.

End Ready.

(** ** src/capabilities/erosion/thermal.ts *)

Module Erosion.
Import Buffer Grid.

(** The two functions are read for any arithmetic of numbers: the
    operations of JavaScript numbers they use are the section's variables,
    [conv] is the conversion of the buffer's element type on a write and
    [fround] the one of a [Float32Array]. *)
Section Erosion.
Context {V : Type}.
Variable conv : V → V.
Variable fround : V → V.
Variables sub add mul min_ : V → V → V.
Variable neg : V → V.
Variable lt : V → V → bool.
Variables zero one infinity nan : V.

(** A read outside a typed array gives [undefined], which is NaN in
    arithmetic. *)
Definition num (o : option V) : V := default nan o.

(** [a[i] op= v] on a [Float32Array], with [f] for [op v] *)
Definition update (a : list V) (i : Z) (f : V → V) : list V :=
  TypedArray.write fround a i (f (num (TypedArray.read a i))).

(** The coordinates [values()] runs over; [size] does not change. *)
Definition cells (b : Buffer2D V) : list (Z * Z) :=
  x ← seqZ 0 (size b).1; y ← seqZ 0 (size b).2; [(x, y)].

(** The loop over [getNeighbors] that keeps [minSlope] and [minNeighbor] *)
Definition steepest (value : V) (ns : list (Neighbor V))
  : V * option (Neighbor V) :=
  foldl (λ acc neighbor,
           let slope := sub value (num (neighborValue neighbor)) in
           if lt slope acc.1 then (slope, Some neighbor) else acc)
        (infinity, None) ns.

Record ThermalErosionOptions : Type := mkThermalErosionOptions {
  iterations : Z;
  sedimentationRate : V;
  evaporationRate : V;
}.

(** The body of the first loop of [applyThermalErosion], at the cell the
    iterator yields for [point]; the value is read when the cell is yielded. *)
Definition thermalMove (options : ThermalErosionOptions)
  (st : Buffer2D V * list V) (point : Z * Z) : Result (Buffer2D V * list V) :=
  let '(b, sediment) := st in
  let '(x, y) := point in
  index ← getIndex b x y true;
  let value := num (TypedArray.read (buffer b) index) in
  let '(minSlope, minNeighbor) := steepest value (getNeighbors b (x, y)) in
  match minNeighbor with
  | Some n =>
    if lt minSlope zero then
      let deposit := min_ (neg minSlope) (sedimentationRate options) in
      neighborIndex ← getIndex b (neighborX n) (neighborY n) false;
      b ← set conv b x y (add value deposit) false;
      b ← set conv b (neighborX n) (neighborY n)
            (sub (num (neighborValue n)) deposit) false;
      let sediment := update sediment index (λ s, add s deposit) in
      let sediment := update sediment neighborIndex (λ s, sub s deposit) in
      Ok (b, sediment)
    else Ok (b, sediment)
  | None => Ok (b, sediment)
  end.

(** The body of its second loop *)
Definition thermalSettle (options : ThermalErosionOptions)
  (st : Buffer2D V * list V) (point : Z * Z) : Result (Buffer2D V * list V) :=
  let '(b, sediment) := st in
  let '(x, y) := point in
  index ← getIndex b x y false;
  let sediment :=
    update sediment index (λ s, mul s (evaporationRate options)) in
  value ← get b x y true;
  b ← set conv b x y (add (num value) (num (TypedArray.read sediment index)))
        false;
  Ok (b, sediment).

(** The shape of a grid: its size and the length of its storage. *)
Definition shape (sz : Size) (len : nat) (b : Buffer2D V) : Prop :=
  size b = sz ∧ length (buffer b) = len.

(** A [for … of] loop whose body can throw *)
Definition forEach {S A} (body : S → A → Result S) (l : list A) (s : S)
  : Result S :=
  foldl (λ r a, s ← r; body s a) (Ok s) l.

(** [applyThermalErosion(buffer, options)], [iterations] an integer *)
Definition applyThermalErosion (b : Buffer2D V)
  (options : ThermalErosionOptions) : Result (Buffer2D V) :=
  let sediment := replicate (length (buffer b)) zero in
  st ← forEach (λ st _,
                  st ← forEach (thermalMove options) (cells b) st;
                  forEach (thermalSettle options) (cells b) st)
               (seqZ 0 (iterations options)) (b, sediment);
  Ok st.1.

Record HydraulicErosionOptions : Type := mkHydraulicErosionOptions {
  hIterations : Z;
  hSedimentationRate : V;
  hEvaporationRate : V;
  inertiaRate : V;
}.

(** The state of [applyHydraulicErosion]: the buffer, [sediment] and
    [water] *)
Definition Hydraulic : Type := Buffer2D V * list V * list V.

(** The body of the first loop of [applyHydraulicErosion] *)
Definition hydraulicMove (options : HydraulicErosionOptions)
  (st : Hydraulic) (point : Z * Z) : Result Hydraulic :=
  let '(b, sediment, water) := st in
  let '(x, y) := point in
  index ← getIndex b x y true;
  let value := num (TypedArray.read (buffer b) index) in
  let '(minSlope, minNeighbor) := steepest value (getNeighbors b (x, y)) in
  '(b, sediment) ←
    match minNeighbor with
    | Some n =>
      if lt zero minSlope then
        let deposit := min_ minSlope (hSedimentationRate options) in
        neighborIndex ← getIndex b (neighborX n) (neighborY n) false;
        b ← set conv b x y (sub value deposit) false;
        b ← set conv b (neighborX n) (neighborY n)
              (add (num (neighborValue n)) deposit) false;
        let sediment := update sediment index (λ s, add s deposit) in
        let sediment := update sediment neighborIndex (λ s, sub s deposit) in
        Ok (b, sediment)
      else Ok (b, sediment)
    | None => Ok (b, sediment)
    end;
  here ← getIndex b x y false;
  Ok (b, sediment, update water here (λ w, add w one)).

(** The loop over the neighbours in its second loop: the water that flows
    from the cell at [index] *)
Definition flow (options : HydraulicErosionOptions) (b : Buffer2D V)
  (value : V) (index : Z) (water : list V) (ns : list (Neighbor V))
  : Result (list V) :=
  forEach (λ water neighbor,
             neighborIndex ←
               getIndex b (neighborX neighbor) (neighborY neighbor) true;
             let diff := sub value (num (neighborValue neighbor)) in
             let inertia := mul diff (inertiaRate options) in
             if lt zero diff then
               let deposit := min_ (num (TypedArray.read water index)) inertia in
               let water := update water index (λ w, sub w deposit) in
               Ok (update water neighborIndex (λ w, add w deposit))
             else Ok water)
          ns water.

(** The body of its second loop *)
Definition hydraulicSettle (options : HydraulicErosionOptions)
  (st : Hydraulic) (point : Z * Z) : Result Hydraulic :=
  let '(b, sediment, water) := st in
  let '(x, y) := point in
  yielded ← getIndex b x y true;
  let value := num (TypedArray.read (buffer b) yielded) in
  index ← getIndex b x y false;
  let sediment :=
    update sediment index (λ s, mul s (hEvaporationRate options)) in
  let water := update water index (λ w, mul w (hEvaporationRate options)) in
  water ← flow options b value index water (getNeighbors b (x, y));
  b ← set conv b x y (add value (num (TypedArray.read sediment index))) false;
  Ok (b, sediment, water).

(** [applyHydraulicErosion(buffer, options)], [iterations] an integer *)
Definition applyHydraulicErosion (b : Buffer2D V)
  (options : HydraulicErosionOptions) : Result (Buffer2D V) :=
  let sediment := replicate (length (buffer b)) zero in
  let water := replicate (length (buffer b)) zero in
  st ← forEach (λ st _,
                  st ← forEach (hydraulicMove options) (cells b) st;
                  forEach (hydraulicSettle options) (cells b) st)
               (seqZ 0 (hIterations options)) (b, sediment, water);
  Ok st.1.1.

End Erosion.

Arguments ThermalErosionOptions V : clear implicits.
Arguments HydraulicErosionOptions V : clear implicits.
Arguments Hydraulic V : clear implicits.

End Erosion.

(** * Properties *)

(** ** Typed arrays and grid buffers *)

Module TypedArrayFacts.
Import TypedArray.

Lemma length_write {N V} (conv : N → V) (a : list V) i v :
  length (write conv a i v) = length a.
Proof. unfold write. destruct (0 <=? i); [apply length_insert | done]. Qed.

Lemma read_write {N V} (conv : N → V) (a : list V) i v :
  0 ≤ i < Z.of_nat (length a) →
  read (write conv a i v) i = Some (conv v).
Proof.
  intros [Hlo Hhi]. unfold read, write.
  destruct (Z.leb_spec 0 i); [|lia].
  apply list_lookup_insert_eq. lia.
Qed.

Lemma write_outside {N V} (conv : N → V) (a : list V) i v :
  Z.of_nat (length a) ≤ i → write conv a i v = a.
Proof.
  intros Hi. unfold write. destruct (Z.leb_spec 0 i); [|done].
  apply list_insert_ge. lia.
Qed.

End TypedArrayFacts.

Module BufferFacts.
Import Buffer.

Section Facts.
Context {V : Type}.
Variable conv : V → V.
Implicit Types (b : Buffer2D V) (buf : list V).

Lemma wrapBuffer_Ok buf W H b :
  wrapBuffer buf (W, H) = Ok b →
  size b = (W, H) ∧ buffer b = buf ∧ Z.of_nat (length buf) = W * H.
Proof.
  unfold wrapBuffer. cbn [fst snd].
  destruct (Z.eqb_spec (Z.of_nat (length buf)) (W * H)); cbn; [|done].
  intros [= <-]. done.
Qed.

Lemma isInBounds_true b x y :
  isInBounds b x y = true ↔
  0 ≤ x < (size b).1 ∧ 0 ≤ y < (size b).2.
Proof. unfold isInBounds. rewrite !andb_true_iff. lia. Qed.

Lemma isInBounds_false b x y :
  isInBounds b x y = false ↔
  x < 0 ∨ (size b).1 ≤ x ∨ y < 0 ∨ (size b).2 ≤ y.
Proof.
  rewrite <- not_true_iff_false, isInBounds_true. lia.
Qed.

(** A cell inside a W×H grid has its index inside the storage. *)
Lemma index_inside W H x y :
  0 ≤ x < W → 0 ≤ y < H → 0 ≤ x + y * W < W * H.
Proof. nia. Qed.

Lemma getIndex_inside b x y noCheck :
  isInBounds b x y = true →
  getIndex b x y noCheck = Ok (x + y * (size b).1).
Proof.
  intros Hin. unfold getIndex. rewrite Hin.
  by rewrite andb_false_r.
Qed.

Lemma getIndex_outside b x y :
  isInBounds b x y = false →
  getIndex b x y false = Throw (JsError "RangeError" (outOfBounds x y)).
Proof. intros Hout. unfold getIndex. by rewrite Hout. Qed.

End Facts.

(** C8, the round trip as stated fails: a [Uint8Array] of one cell, wrapped
    as a 1×1 grid, reads 44 after 300 was written. *)
Lemma set_get_Uint8Array_300 :
  (b ← wrapBuffer [0] (1, 1);
   b' ← set TypedArray.toUint8 b 0 0 300 false;
   get b' 0 0 false) = Ok (Some 44)
  ∧ ¬ roundTripUnchanged TypedArray.toUint8.
Proof.
  split; [reflexivity|].
  intros Hrt.
  destruct (Hrt [0] 1 1 (mkBuffer2D (1, 1) [0]) 0 0 300) as (b' & Hset & Hget);
    [reflexivity | lia | lia |].
  vm_compute in Hset. injection Hset as <-.
  vm_compute in Hget. discriminate Hget.
Qed.

(** C8 (amended): [wrapBuffer] throws a [RangeError] when the storage's
    length is not W*H.  On a wrapped buffer, every cell inside the grid has
    [getIndex(x, y) = x + y*W], and [get] after [set] reads the written
    value as the element type stores it ([conv v]; the value itself when the
    type holds it unchanged); for every point outside the grid, [getIndex],
    [get] and [set] with the bounds check throw a [RangeError]. *)
Theorem wrapBuffer_contract {V} (conv : V → V) (buf : list V) (W H : Z) :
  (Z.of_nat (length buf) ≠ W * H →
   ∃ msg, wrapBuffer buf (W, H) = Throw (JsError "RangeError" msg)) ∧
  (∀ b, wrapBuffer buf (W, H) = Ok b →
    ∀ x y,
      (0 ≤ x < W → 0 ≤ y < H →
       getIndex b x y false = Ok (x + y * W) ∧
       ∀ v, ∃ b',
         set conv b x y v false = Ok b' ∧
         get b' x y false = Ok (Some (conv v)) ∧
         (conv v = v → get b' x y false = Ok (Some v))) ∧
      (x < 0 ∨ W ≤ x ∨ y < 0 ∨ H ≤ y →
       ∃ msg,
         getIndex b x y false = Throw (JsError "RangeError" msg) ∧
         get b x y false = Throw (JsError "RangeError" msg) ∧
         ∀ v, set conv b x y v false = Throw (JsError "RangeError" msg))).
Proof.
  split.
  - intros Hne. unfold wrapBuffer. cbn [fst snd].
    destruct (Z.eqb_spec (Z.of_nat (length buf)) (W * H)); [done|].
    cbn. eauto.
  - intros b (Hsize & Hbuf & Hlen)%wrapBuffer_Ok x y. split.
    + intros Hx Hy.
      assert (isInBounds b x y = true) as Hin
        by (apply isInBounds_true; rewrite Hsize; done).
      pose proof (getIndex_inside b x y false Hin) as Hidx.
      rewrite Hsize in Hidx. cbn [fst] in Hidx.
      split; [done|]. intros v.
      eexists. unfold set. rewrite Hidx. cbn. split; [reflexivity|].
      assert (get (mkBuffer2D (size b)
                     (TypedArray.write conv (buffer b) (x + y * W) v))
                  x y false = Ok (Some (conv v))) as Hget.
      { unfold get, getIndex, isInBounds. cbn [size buffer].
        rewrite Hsize. cbn [fst snd].
        replace ((x >=? 0) && (x <? W) && (y >=? 0) && (y <? H))
          with true by (symmetry; rewrite !andb_true_iff; lia).
        cbn. f_equal.
        apply TypedArrayFacts.read_write.
        rewrite Hbuf, Hlen. by apply index_inside. }
      split; [done|]. intros Hv. by rewrite Hget, Hv.
    + intros Hout.
      assert (isInBounds b x y = false) as Hoob
        by (apply isInBounds_false; rewrite Hsize; done).
      exists (outOfBounds x y).
      pose proof (getIndex_outside b x y Hoob) as Hidx.
      split; [done|]. unfold get, set. rewrite Hidx. done.
Qed.

(** A 3×2 [Uint8Array] grid: cell (1,1) is at index 4 and reads back the 7
    written to it; the point (3,0) is refused. *)
Lemma wrapBuffer_contract_witness :
  ∃ b, wrapBuffer [0; 0; 0; 0; 0; 0] (3, 2) = Ok b ∧
    getIndex b 1 1 false = Ok 4 ∧
    (∃ b', set TypedArray.toUint8 b 1 1 7 false = Ok b' ∧
           get b' 1 1 false = Ok (Some 7)) ∧
    (∃ msg, getIndex b 3 0 false = Throw (JsError "RangeError" msg)).
Proof.
  pose proof (wrapBuffer_contract TypedArray.toUint8 [0; 0; 0; 0; 0; 0] 3 2)
    as [_ Hok].
  exists (mkBuffer2D (3, 2) [0; 0; 0; 0; 0; 0]).
  split; [reflexivity|].
  specialize (Hok _ eq_refl).
  destruct (Hok 1 1) as [Hin _].
  destruct (Hin ltac:(lia) ltac:(lia)) as [Hidx Hrt].
  split; [exact Hidx|].
  split.
  - destruct (Hrt 7) as (b' & Hset & _ & Hget).
    exists b'. split; [exact Hset | apply Hget; reflexivity].
  - destruct (Hok 3 0) as [_ Hout].
    destruct (Hout ltac:(lia)) as (msg & Hidx' & _).
    exists msg. exact Hidx'.
Defined.

End BufferFacts.

(** ** The type handler's membership test *)

Module HelpersFacts.
Import Helpers.

(** No string starts with itself followed by one more character. *)
Lemma prefix_snoc_self (s suffix : string) :
  suffix ≠ EmptyString → String.prefix (s +:+ suffix) s = false.
Proof.
  intros Hne. induction s as [|c s IH].
  - by destruct suffix.
  - change (String c s +:+ suffix) with (String c (s +:+ suffix)).
    cbn. destruct (ascii_dec c c); [exact IH | done].
Qed.

(** C10: for the handler [makeTypeHandler(t)] returns, [is(s)] is [false]
    for every string [s], also for the strings "t/subtype". *)
Theorem is_never {Value Payload Buf : Type} (t s : string) :
  is_ (makeTypeHandler (Value := Value) (Payload := Payload) (Buf := Buf) t) s
  = false.
Proof. unfold is_. by apply prefix_snoc_self. Qed.

(** The handler "terrain" does not recognise "terrain/generate". *)
Example is_terrain_generate :
  is_ (makeTypeHandler (Value := unit) (Payload := unit) (Buf := unit)
         "terrain") "terrain/generate" = false.
Proof. reflexivity. Qed.

End HelpersFacts.

(** ** The heightmap *)

Module HeightmapFacts.
Import Buffer Heightmap.

Lemma length_pixels (src : list Num) :
  length (src ≫= pixel) = (4 * length src)%nat.
Proof.
  induction src as [|v src IH]; [done|].
  rewrite bind_cons, length_app, IH. cbn. lia.
Qed.

Lemma length_pixelStep src d i : length (pixelStep src d i) = length d.
Proof. unfold pixelStep. by rewrite !TypedArrayFacts.length_write. Qed.

(** Past the last cell the loop's writes fall outside the array. *)
Lemma pixelStep_outside src d i :
  Z.of_nat (length d) ≤ i * 4 → pixelStep src d i = d.
Proof.
  intros Hi. unfold pixelStep.
  rewrite (TypedArrayFacts.write_outside _ d (i * 4)) by lia.
  rewrite (TypedArrayFacts.write_outside _ d (i * 4 + 1)) by lia.
  rewrite (TypedArrayFacts.write_outside _ d (i * 4 + 2)) by lia.
  apply TypedArrayFacts.write_outside. lia.
Qed.

Lemma foldl_pixelStep_outside src d (idxs : list Z) :
  Forall (λ i, Z.of_nat (length d) ≤ i * 4) idxs →
  foldl (pixelStep src) d idxs = d.
Proof.
  induction 1 as [|i idxs Hi _ IH]; [done|].
  cbn. by rewrite pixelStep_outside.
Qed.

(** At the cell after the converted prefix the loop writes that cell's
    pixel. *)
Lemma pixelStep_next (s1 s2 : list Num) v (a b c e : Z) (d2 : list Z) :
  pixelStep (s1 ++ v :: s2) ((s1 ≫= pixel) ++ a :: b :: c :: e :: d2)
    (Z.of_nat (length s1))
  = (((s1 ++ [v]) ≫= pixel) ++ d2).
Proof.
  unfold pixelStep, TypedArray.read, TypedArray.write.
  repeat match goal with
         | |- context [0 <=? ?i] =>
           destruct (Z.leb_spec 0 i); [|lia]
         end.
  rewrite Nat2Z.id, lookup_app_r, Nat.sub_diag by lia. cbn [lookup list_lookup].
  replace (Z.to_nat (Z.of_nat (length s1) * 4))
    with (length (s1 ≫= pixel) + 0)%nat by (rewrite length_pixels; lia).
  replace (Z.to_nat (Z.of_nat (length s1) * 4 + 1))
    with (length (s1 ≫= pixel) + 1)%nat by (rewrite length_pixels; lia).
  replace (Z.to_nat (Z.of_nat (length s1) * 4 + 2))
    with (length (s1 ≫= pixel) + 2)%nat by (rewrite length_pixels; lia).
  replace (Z.to_nat (Z.of_nat (length s1) * 4 + 3))
    with (length (s1 ≫= pixel) + 3)%nat by (rewrite length_pixels; lia).
  rewrite !insert_app_r. cbn [insert list_insert].
  rewrite bind_app, <- app_assoc. reflexivity.
Qed.

(** The loop over the cells [s2], started after the cells [s1] were
    converted. *)
Lemma foldl_pixels (s1 s2 : list Num) (d2 : list Z) :
  length d2 = (4 * length s2)%nat →
  foldl (pixelStep (s1 ++ s2)) ((s1 ≫= pixel) ++ d2)
    (seqZ (Z.of_nat (length s1)) (Z.of_nat (length s2)))
  = (s1 ++ s2) ≫= pixel.
Proof.
  revert s1 d2. induction s2 as [|v s2 IH]; intros s1 d2 Hlen.
  - destruct d2; [|done]. cbn. by rewrite !app_nil_r.
  - destruct d2 as [|a [|b [|c [|e d2]]]]; cbn [length] in Hlen; try lia.
    rewrite seqZ_cons by (cbn [length]; lia).
    cbn [foldl]. rewrite pixelStep_next.
    replace (s1 ++ v :: s2) with ((s1 ++ [v]) ++ s2)
      by (by rewrite <- app_assoc).
    replace (Z.succ (Z.of_nat (length s1)))
      with (Z.of_nat (length (s1 ++ [v])))
      by (rewrite length_app; cbn; lia).
    replace (Z.pred (Z.of_nat (length (v :: s2))))
      with (Z.of_nat (length s2)) by (cbn [length]; lia).
    apply IH. lia.
Qed.

(** [makeHeightmap] on a grid that is not empty: every cell becomes its
    pixel, in the order of the storage. *)
Lemma makeHeightmap_pixels (src : list Num) (W H : Z) :
  0 < W → 0 < H → Z.of_nat (length src) = W * H →
  makeHeightmap (mkBuffer2D (W, H) src)
  = Ok (mkImageData (src ≫= pixel) W H).
Proof.
  intros HW HH Hlen. unfold makeHeightmap, newUint8ClampedArray.
  cbn [size buffer fst snd].
  destruct (Z.ltb_spec (W * H * 4) 0); [nia|]. cbn [mbind Result_bind].
  set (d := replicate (Z.to_nat (W * H * 4)) 0).
  assert (length d = (4 * length src)%nat) as Hd
    by (subst d; rewrite length_replicate; lia).
  replace (Z.of_nat (length d))
    with (Z.of_nat (length src) + 3 * Z.of_nat (length src)) by lia.
  rewrite seqZ_app, foldl_app by lia.
  assert (foldl (pixelStep src) d (seqZ 0 (Z.of_nat (length src)))
          = src ≫= pixel) as -> by exact (foldl_pixels [] src d Hd).
  rewrite foldl_pixelStep_outside.
  2:{ apply Forall_seqZ. intros i Hi. rewrite length_pixels. lia. }
  unfold newImageData. rewrite length_pixels.
  replace (Z.of_nat (4 * length src)) with (W * H * 4) by lia.
  replace (W * H * 4 / 4) with (H * W) by (rewrite Z.div_mul; lia).
  rewrite Z.mod_mul, Z.div_mul by lia.
  destruct (Z.eqb_spec (W * H * 4) 0); [nia|].
  rewrite Z.eqb_refl.
  destruct (Z.leb_spec W 0); [lia|].
  by rewrite Z.mod_mul, !Z.eqb_refl by lia.
Qed.

End HeightmapFacts.

Module HeightmapTaskFacts.
Import Helpers Heightmap Worker.

(** C2 as stated fails in its formula: on a 1×1 grid holding 0.5 the task
    returns the channel value 128, where [floor(clamp(0.5 * 255, 0, 255))]
    is 127.  And on an empty grid it returns no pixel grid: building the
    image throws. *)
Lemma heightmap_half_is_128 :
  (heightmap (mkContext 0 (mkConfig (1, 1) [Fin (1 # 2)] tt) 0)
     = Transfer [Uint8ClampedArray [128; 128; 128; 255]]
         (Return (VImageData (mkImageData [128; 128; 128; 255] 1 1)))
   ∧ floorChannel (Fin (1 # 2)) = 127)
  ∧ (∃ e, heightmap (mkContext 0 (mkConfig (0, 0) [] tt) 0) = Raise e).
Proof. split; [split|eexists]; reflexivity. Qed.

(** C2 (amended): on a grid of width W and height H that is not empty, the
    task "terrain/heightmap" marks the pixel data for transfer and returns
    a W×H image of four bytes per cell, in the order of the cells: R, G and
    B are [clamp(v * 255, 0, 255)] rounded to the nearest integer, a tie to
    the even one (NaN gives 0), and A is 255.  A 1×1 grid holding 1.0 gives
    the pixel (255,255,255,255), one holding 0.0 gives (0,0,0,255). *)
Theorem heightmap_task_pixels {Options : Type}
  (ctx : Context (Config Options)) (W H : Z) :
  0 < W → 0 < H →
  size (config ctx) = (W, H) →
  Z.of_nat (length (buffer (config ctx))) = W * H →
  let d := buffer (config ctx) ≫= pixel in
  (heightmap ctx
   = Transfer [Uint8ClampedArray d] (Return (VImageData (mkImageData d W H))))
  ∧ (∀ v, pixel v =
          [toUint8Clamp (mul255 (Some v)); toUint8Clamp (mul255 (Some v));
           toUint8Clamp (mul255 (Some v)); 255])
  ∧ pixel (Fin 1) = [255; 255; 255; 255]
  ∧ pixel (Fin 0) = [0; 0; 0; 255].
Proof.
  intros HW HH Hsize Hlen d. split; [|done].
  unfold heightmap, Buffer.wrapBuffer. rewrite Hsize. cbn [fst snd].
  rewrite Hlen, Z.eqb_refl. cbn [negb mbind Result_bind].
  by rewrite HeightmapFacts.makeHeightmap_pixels.
Qed.

(** The two grids of the specification's scenario, and a 2×1 grid. *)
Lemma heightmap_task_pixels_witness :
  heightmap (mkContext 0 (mkConfig (1, 1) [Fin 1] tt) 0)
    = Transfer [Uint8ClampedArray [255; 255; 255; 255]]
        (Return (VImageData (mkImageData [255; 255; 255; 255] 1 1)))
  ∧ heightmap (mkContext 0 (mkConfig (1, 1) [Fin 0] tt) 0)
    = Transfer [Uint8ClampedArray [0; 0; 0; 255]]
        (Return (VImageData (mkImageData [0; 0; 0; 255] 1 1)))
  ∧ heightmap (mkContext 0 (mkConfig (2, 1) [Fin (1 # 3); NaN] tt) 0)
    = Transfer [Uint8ClampedArray [85; 85; 85; 255; 0; 0; 0; 255]]
        (Return (VImageData
                   (mkImageData [85; 85; 85; 255; 0; 0; 0; 255] 2 1))).
Proof.
  split; [|split].
  - apply (heightmap_task_pixels
             (mkContext 0 (mkConfig (1, 1) [Fin 1] tt) 0) 1 1);
      [lia | lia | reflexivity | reflexivity].
  - apply (heightmap_task_pixels
             (mkContext 0 (mkConfig (1, 1) [Fin 0] tt) 0) 1 1);
      [lia | lia | reflexivity | reflexivity].
  - apply (heightmap_task_pixels
             (mkContext 0 (mkConfig (2, 1) [Fin (1 # 3); NaN] tt) 0) 2 1);
      [lia | lia | reflexivity | reflexivity].
Defined.

End HeightmapTaskFacts.

(** ** The unit protocol *)

Module WorkerFacts.
Import Helpers Worker Controller.

Section Facts.
Context {Value Payload Buf : Type} `{EqDecision Buf}.
Variable bufferOf : Buf → Buf.
Variable dataCloneError :
  Env Value Buf → Message Value → option (list Buf) → option string.
Variable handlers : gmap string (TypeHandler Value Payload Buf).

Abbreviation State := (Worker.State Value Buf).
Abbreviation IncomingMessage := (Worker.IncomingMessage Payload).
Abbreviation onMessage := (Worker.onMessage bufferOf dataCloneError handlers).
Abbreviation tryBlock := (Worker.tryBlock bufferOf dataCloneError handlers).
Abbreviation dispatch := (Helpers.dispatch bufferOf).
Abbreviation runTask := (Helpers.runTask bufferOf dataCloneError).

Lemma outbox_dispatch m t (e : Env Value Buf) :
  outbox (dispatch m t e) = outbox e ++ [(m, match t with
                                           | Some ((_ :: _) as l) =>
                                             Some (bufferOf <$> l)
                                           | _ => None
                                           end)].
Proof. done. Qed.

(** A task body posts progress messages only. *)
Lemma runTask_outbox script :
  ∀ (ctx : Context Payload) b tr (e : Env Value Buf),
  ∃ ms, outbox (runTask ctx b script tr e).1.1 = outbox e ++ ms ∧
        Forall (λ m, terminal m.1 = false) ms.
Proof.
  induction script as [r|err|detail k IH|bufs k IH|dt k IH];
    intros ctx b tr e; cbn [Helpers.runTask].
  - exists []. by rewrite app_nil_r.
  - exists []. by rewrite app_nil_r.
  - unfold progress.
    destruct (negb (bool_decide (b = Some (id ctx)))).
    { exists []. by rewrite app_nil_r. }
    destruct (refused _ _ _ _).
    + exists []. by rewrite app_nil_r.
    + destruct (IH ctx b tr
                  (dispatch (MProgress detail
                     (if start ctx =? 0 then 0 else now e - start ctx))
                     None e)) as (ms & Hms & Hnt).
      eexists (_ :: ms). rewrite Hms. cbn [outbox Helpers.dispatch].
      rewrite <- app_assoc. split; [reflexivity|].
      by constructor.
  - apply IH.
  - destruct (IH ctx b tr (mkEnv (outbox e) (now e + Z.max 0 dt)))
      as (ms & Hms & Hnt).
    exists ms. by rewrite Hms.
Qed.

(** What [onMessage] does to a request that finds the unit busy: it posts
    the error "Worker is busy", and its [finally] sets [busy] to
    [false]. *)
Lemma onMessage_busy (event : IncomingMessage) (st : State) :
  truthy (busy st) = true →
  onMessage event st
  = mkState None (nextID st)
      (dispatch (MError "Worker is busy" None) None (env st)).
Proof.
  intros Hb. unfold Worker.onMessage, Worker.tryBlock. by rewrite Hb.
Qed.

(** The [try] block posts messages that do not end the exchange, then,
    if it does not throw, the result. *)
Lemma tryBlock_outbox (event : IncomingMessage) (st : State) :
  ∃ ms, Forall (λ m, terminal m.1 = false) ms ∧
    match tryBlock event st with
    | (st1, _, Some _) => outbox (env st1) = outbox (env st) ++ ms
    | (st1, _, None) =>
      ∃ last, outbox (env st1) = outbox (env st) ++ ms ++ [last] ∧
              terminal last.1 = true
    end.
Proof.
  unfold Worker.tryBlock.
  destruct (truthy (busy st)).
  { exists []. by rewrite app_nil_r. }
  destruct (getID (nextID st)) as [i next].
  destruct (getHandler handlers (msgType event)) as [handler|]; cbn [env].
  2:{ exists []. by rewrite app_nil_r. }
  destruct (get handler (split (msgType event) !! 1%nat)) as [task|].
  2:{ exists []. by rewrite app_nil_r. }
  cbn [busy].
  set (env1 := dispatch MStart None (env st)).
  set (ctx := buildContext i (payload event) env1).
  destruct (runTask_outbox (task ctx) ctx (Some i) [] env1)
    as (ms & Hms & Hnt).
  destruct (runTask ctx (Some i) (task ctx) [] env1)
    as [[env2 tr] [result|err]]; cbn [fst] in Hms.
  - exists ((MStart, None) :: ms). split; [by constructor|].
    destruct (refused _ _ _ _).
    + cbn [env]. rewrite Hms. subst env1. cbn [outbox Helpers.dispatch].
      by rewrite <- !app_assoc.
    + eexists. cbn [env]. rewrite outbox_dispatch, Hms.
      subst env1. cbn [outbox Helpers.dispatch].
      rewrite <- !app_assoc. split; [reflexivity|done].
  - exists ((MStart, None) :: ms). split; [by constructor|].
    cbn [env]. rewrite Hms. subst env1. cbn [outbox Helpers.dispatch].
    by rewrite <- !app_assoc.
Qed.

(** C7: whatever the request and whatever state it finds, when
    [onMessage] is done [busy] is [false], and what it posted ends with
    exactly one terminal message, the only one; when the task body the
    request reached raised [e], that message is the error message made
    from [e]. *)
Theorem onMessage_idle_again (event : IncomingMessage) (st : State) :
  busy (onMessage event st) = None
  ∧ (∃ ms last,
       outbox (env (onMessage event st))
         = outbox (env st) ++ ms ++ [last]
       ∧ Forall (λ m, terminal m.1 = false) ms
       ∧ terminal last.1 = true
       ∧ (∀ handler task e,
            truthy (busy st) = false →
            getHandler handlers (msgType event) = Some handler →
            get handler (split (msgType event) !! 1%nat) = Some task →
            let id := (getID (nextID st)).1 in
            let env1 := dispatch MStart None (env st) in
            let ctx := buildContext id (payload event) env1 in
            let run := runTask ctx (Some id) (task ctx) [] env1 in
            run.2 = Throw e →
            last = (MError (if instanceofError e then message e
                            else "An unknown error occurred")
                      (Some (now run.1.1 - start ctx)), None))).
Proof.
  split.
  { unfold Worker.onMessage.
    destruct (tryBlock event st) as [[st1 d] [err|]]; done. }
  destruct (tryBlock_outbox event st) as (ms & Hnt & Hout).
  unfold Worker.onMessage.
  destruct (tryBlock event st) as [[st1 d] [err|]] eqn:Htry.
  - exists ms. eexists. cbn [env Worker.catchBlock].
    rewrite outbox_dispatch, Hout, <- app_assoc.
    split; [reflexivity|]. split; [done|]. split; [done|].
    intros handler task e Hb Hh Ht. cbn zeta. intros Hrun.
    revert Htry. unfold Worker.tryBlock. rewrite Hb, Hh.
    destruct (getID (nextID st)) as [i next]. cbn [fst] in Hrun.
    rewrite Ht. cbn [busy env].
    destruct (runTask _ _ _ _ _) as [[env2 tr] [result|err']];
      cbn [fst snd] in *; [done|].
    intros [= <- <- <-]. by injection Hrun as ->.
  - destruct Hout as (last & Hout & Hlast).
    exists ms, last. cbn [env]. split; [done|]. split; [done|].
    split; [done|].
    intros handler task e Hb Hh Ht. cbn zeta. intros Hrun.
    revert Htry. unfold Worker.tryBlock. rewrite Hb, Hh.
    destruct (getID (nextID st)) as [i next]. cbn [fst] in Hrun.
    rewrite Ht. cbn [busy env].
    destruct (runTask _ _ _ _ _) as [[env2 tr] [result|err']];
      cbn [fst snd] in *; done.
Qed.

(** What [onMessage] posts: messages that do not end the exchange, then
    one that does. *)
Lemma onMessage_outbox (event : IncomingMessage) (st : State) :
  ∃ ms last,
    outbox (env (onMessage event st)) = outbox (env st) ++ ms ++ [last]
    ∧ Forall (λ m, terminal m.1 = false) ms
    ∧ terminal last.1 = true.
Proof.
  destruct (tryBlock_outbox event st) as (ms & Hnt & Hout).
  unfold Worker.onMessage.
  destruct (tryBlock event st) as [[st1 d] [err|]].
  - exists ms. eexists. cbn [env Worker.catchBlock].
    rewrite outbox_dispatch, Hout, <- app_assoc. done.
  - destruct Hout as (last & Hout & Hlast). by exists ms, last.
Qed.

(** A request that passes the busy check takes an id; one that is refused
    as busy takes none. *)
Lemma onMessage_nextID (event : IncomingMessage) (st : State) :
  nextID (onMessage event st)
  = if truthy (busy st) then nextID st else (getID (nextID st)).2.
Proof.
  unfold Worker.onMessage, Worker.tryBlock.
  destruct (truthy (busy st)); [done|].
  destruct (getID (nextID st)) as [i next].
  destruct (getHandler handlers (msgType event)) as [handler|]; [|done].
  destruct (get handler _) as [task|]; [|done].
  destruct (runTask _ _ _ _ _) as [[env2 tr] [result|err]]; [|done].
  by destruct (refused _ _ _ _).
Qed.

Lemma filter_terminal_none (ms : list (Message Value * option (list Buf))) :
  Forall (λ m, terminal m.1 = false) ms →
  filter (λ m, terminal m.1 = true) ms = [].
Proof.
  induction 1 as [|m ms Hm _ IH]; [done|].
  rewrite filter_cons_False; [done|]. by rewrite Hm.
Qed.

(** The id under which the n-th request runs, from the counter the
    requests before it have left. *)
Lemma getID_nth (n : Z) :
  0 ≤ n →
  getID (if n =? 0 then 0 else (n - 1) mod MAX_SAFE_INTEGER + 1)
  = (n mod MAX_SAFE_INTEGER, n mod MAX_SAFE_INTEGER + 1).
Proof.
  intros Hn. assert (0 < MAX_SAFE_INTEGER) as Hpos by done.
  assert (1 < MAX_SAFE_INTEGER) as Hbig by done.
  unfold getID. destruct (Z.eqb_spec n 0) as [->|Hn0]; [done|].
  pose proof (Z.mod_pos_bound (n - 1) MAX_SAFE_INTEGER Hpos) as Hb.
  assert (n mod MAX_SAFE_INTEGER
          = ((n - 1) mod MAX_SAFE_INTEGER + 1) mod MAX_SAFE_INTEGER) as Hmod.
  { replace n with ((n - 1) + 1) at 1 by lia.
    rewrite Z.add_mod by lia. by rewrite (Z.mod_small 1) by lia. }
  destruct (Z.eqb_spec ((n - 1) mod MAX_SAFE_INTEGER + 1) MAX_SAFE_INTEGER)
    as [Heq|Hne].
  - rewrite Hmod, Heq, Z.mod_same by lia. done.
  - rewrite Hmod.
    rewrite (Z.mod_small ((n - 1) mod MAX_SAFE_INTEGER + 1)) by lia. done.
Qed.

(** X27.  The unit serves the messages of its queue one at a time, whenever
    they arrived: at each call of the listener [busy] is false, so no
    request is refused as busy; the n-th request served (from 0) runs under
    the id n modulo [Number.MAX_SAFE_INTEGER]; and after n requests the
    unit has posted, after "ready", n messages that end an exchange, one
    for each request. *)
Theorem served_in_turn (queue : list (Queued Payload)) :
  let st := serve bufferOf dataCloneError handlers queue (init bufferOf) in
  let n := Z.of_nat (length queue) in
  busy st = None
  ∧ getID (nextID st) = (n mod MAX_SAFE_INTEGER, n mod MAX_SAFE_INTEGER + 1)
  ∧ length (filter (λ m, terminal m.1 = true) (drop 1 (outbox (env st))))
    = length queue.
Proof.
  cbn zeta.
  assert (let st :=
            serve bufferOf dataCloneError handlers queue (init bufferOf) in
          let n := Z.of_nat (length queue) in
          busy st = None
          ∧ nextID st = (if n =? 0 then 0 else (n - 1) mod MAX_SAFE_INTEGER + 1)
          ∧ ∃ rest, outbox (env st) = (MReady, None) :: rest
                    ∧ length (filter (λ m, terminal m.1 = true) rest)
                      = length queue) as (Hbusy & Hid & rest & Hout & Hcount).
  { cbn zeta. induction queue as [|q queue IH] using rev_ind.
    - cbn. split; [done|]. split; [done|]. by exists [].
    - unfold serve in *. rewrite foldl_snoc, length_app.
      destruct IH as (Hbusy & Hid & rest & Hout & Hcount).
      remember (foldl (deliver bufferOf dataCloneError handlers)
                  (init bufferOf) queue) as st eqn:Hst.
      clear Hst. unfold deliver.
      set (st' := mkState (busy st) (nextID st) _).
      split; [|split].
      + unfold Worker.onMessage.
        by destruct (tryBlock (request q) st') as [[st1 d] [err|]].
      + rewrite onMessage_nextID. subst st'. cbn [busy nextID].
        rewrite Hbusy. cbn [truthy]. rewrite Hid, getID_nth by lia.
        cbn [snd length].
        destruct (Z.eqb_spec (Z.of_nat (length queue + 1)) 0) as [|_];
          [lia|].
        do 2 f_equal. lia.
      + destruct (onMessage_outbox (request q) st')
          as (ms & last & Hposted & Hnt & Hlast).
        rewrite Hposted. subst st'. cbn [env outbox]. rewrite Hout.
        exists (rest ++ ms ++ [last]). split; [done|].
        rewrite !filter_app, (filter_terminal_none ms Hnt).
        rewrite filter_cons_True, filter_nil by done.
        rewrite !length_app, Hcount. cbn. lia. }
  split; [done|]. split; [|by rewrite Hout].
  rewrite Hid. apply getID_nth. lia.
Qed.

End Facts.

(** A unit fresh from its start serves "erosion/thermal" with a body that
    reports progress and then throws "boom": it ends not busy, and the
    last message it posted is the error "boom". *)
Lemma onMessage_idle_again_witness :
  let thermal : Task Value (Config unit) Buf :=
    λ _, Progress (VString "eroding") (Raise (JsError "Error" "boom")) in
  let other : Task Value (Config unit) Buf := λ _, Return (VString "") in
  let handlers := Worker.handlers other thermal other in
  let request :=
    mkIncoming "erosion/thermal" (mkConfig (1, 1) [Heightmap.Fin 0] tt) in
  let st :=
    Worker.onMessage bufferOf dataCloneError handlers request
      (init bufferOf) in
  busy st = None
  ∧ ∃ ms last,
      outbox (env st) = [(MReady, None)] ++ ms ++ [last]
      ∧ Forall (λ m, terminal m.1 = false) ms
      ∧ last = (MError "boom" (Some 0), None).
Proof.
  cbn zeta.
  set (thermal := (λ _, Progress (VString "eroding")
                          (Raise (JsError "Error" "boom")))
                  : Task Value (Config unit) Buf).
  set (other := (λ _, Return (VString "")) : Task Value (Config unit) Buf).
  set (request := mkIncoming "erosion/thermal"
                    (mkConfig (1, 1) [Heightmap.Fin 0] tt)).
  destruct (onMessage_idle_again bufferOf dataCloneError
              (Worker.handlers other thermal other) request
              (init bufferOf))
    as (Hidle & ms & last & Hout & Hnt & _ & Hraise).
  split; [exact Hidle|].
  exists ms, last. split; [exact Hout|]. split; [exact Hnt|].
  apply (Hraise (erosionHandler thermal other) thermal
           (JsError "Error" "boom")); reflexivity.
Defined.

End WorkerFacts.

Module BusyFacts.
Import Helpers Heightmap Worker.

(** C1, what the code does.  The controller posts two requests: the first,
    "terrain/generate", is in the unit's queue at time 0 and its body takes
    5 ms; the second, "terrain/heightmap", reaches the queue at time 2,
    while the unit serves the first.  The listener runs to its end before
    the event loop calls it again, and its [finally] has set [busy] to
    [false] by then: the second request is not refused.  The unit keeps it
    until the first is answered, at time 5, and then serves it: it posts
    its "start" and its result, and no error "Worker is busy". *)
Theorem queued_request_not_refused
  (thermal hydraulic : Task Value (Config unit) Buf) :
  let generate : Task Value (Config unit) Buf :=
    λ _, Elapse 5 (Return (VFloat32Array [Fin 0])) in
  let handlers := Worker.handlers generate thermal hydraulic in
  let first :=
    mkQueued 0 (mkIncoming "terrain/generate" (mkConfig (1, 1) [Fin 0] tt)) in
  let second :=
    mkQueued 2 (mkIncoming "terrain/heightmap" (mkConfig (1, 1) [Fin 1] tt)) in
  let image := VImageData (mkImageData [255; 255; 255; 255] 1 1) in
  let serve := serve bufferOf dataCloneError handlers in
  postedSince 0 (serve [first] (init bufferOf))
  = [MReady; MStart; MResultDetail (VFloat32Array [Fin 0]) 5]
  ∧ now (env (init bufferOf : State Value Buf)) = 0
  ∧ now (env (serve [first] (init bufferOf))) = 5
  ∧ now (env (init bufferOf : State Value Buf)) < arrival second
    < now (env (serve [first] (init bufferOf)))
  ∧ busy (serve [first] (init bufferOf)) = None
  ∧ postedSince 3 (serve [first; second] (init bufferOf))
    = [MStart; MResultDetail image 0]
  ∧ postedSince 3 (serve [first; second] (init bufferOf))
    ≠ [MError "Worker is busy" None].
Proof.
  cbn zeta. repeat split; try reflexivity. discriminate.
Qed.

End BusyFacts.


(** ** The pool *)

Module PoolFacts.
Import Pool.

(** *** Promises and timers *)

Lemma settle_lookup_ne d d' outcome (ps : list Promise) :
  d ≠ d' → settle d' outcome ps !! d = ps !! d.
Proof.
  intros Hne. unfold settle.
  destruct (ps !! d') as [[| |]|]; try done.
  by apply list_lookup_insert_ne.
Qed.

Lemma settle_lookup_pending d outcome (ps : list Promise) :
  ps !! d = Some Pending → settle d outcome ps !! d = Some outcome.
Proof.
  intros Hd. unfold settle. rewrite Hd.
  apply list_lookup_insert_eq. by eapply lookup_lt_Some.
Qed.

Lemma length_settle d outcome (ps : list Promise) :
  length (settle d outcome ps) = length ps.
Proof.
  unfold settle. destruct (ps !! d) as [[| |]|]; try done.
  apply length_insert.
Qed.

Lemma run_timers (ts rest : list (Deferred * Worker)) (p : State) :
  timers p = ts ++ rest →
  run (replicate (length ts) Timer) p
  = mkState (workers p) (available p) (pending p) (maxPending p)
      (fire ts (promises p)) rest (terminated p) (listeners p) (created p).
Proof.
  revert p. induction ts as [|[d w] ts IH]; intros p Hts.
  - cbn in *. rewrite <- Hts. by destruct p.
  - cbn [length replicate run foldl step]. unfold runTimer. rewrite Hts.
    cbn [app]. fold (run (replicate (length ts) Timer)).
    unfold run in IH |- *. by rewrite IH.
Qed.

Lemma fire_lookup_other (ts : list (Deferred * Worker)) ps d :
  d ∉ ts.*1 → fire ts ps !! d = ps !! d.
Proof.
  revert ps. induction ts as [|[d' w] ts IH]; intros ps Hd; [done|].
  cbn in *. apply not_elem_of_cons in Hd as [Hne Hd].
  unfold fire in IH |- *. cbn. rewrite IH by done.
  by apply settle_lookup_ne.
Qed.

Lemma length_reject_all (ds : list Deferred) (ps : list Promise) :
  length (foldl (λ ps deferred, settle deferred (Rejected poolClosed) ps)
            ps ds) = length ps.
Proof.
  revert ps. induction ds as [|d ds IH]; intros ps; [done|].
  cbn [foldl]. by rewrite IH, length_settle.
Qed.

(** *** Pools made by operations *)

Lemma wellFormed_empty : wellFormed empty.
Proof.
  unfold wellFormed, empty. cbn.
  repeat split; try (intros ? Hin; by apply elem_of_nil in Hin).
  apply NoDup_nil_2.
Qed.

Lemma wellFormed_step (p : State) (op : Op) :
  wellFormed p → wellFormed (step p op).
Proof.
  intros Hwf. pose proof Hwf as (Hw & Hl & Hp & Ht & Hnd & Hun & Hnt).
  destruct op as [b| |w| |w| |v]; cbn [step].
  - unfold wellFormed, createWorker. cbn. repeat split; try done.
    + intros w [Hin| ->%list_elem_of_singleton]%elem_of_app;
        apply elem_of_app; [left; auto | right; by left].
    + intros w [Hin| ->%list_elem_of_singleton]%elem_of_app; [|lia].
      apply Hl in Hin. lia.
  - unfold acquire. destruct (workers p) as [|w0 ws]; [exact Hwf|].
    destruct (available p) as [|next rest];
      [|unfold wellFormed; cbn; repeat split; done].
    destruct (atCapacity p); [exact Hwf|].
    unfold wellFormed. cbn. rewrite length_app. cbn.
    repeat split; try done.
    + intros d [Hin| ->%list_elem_of_singleton]%elem_of_app; [|lia].
      apply Hp in Hin. lia.
    + intros t Hin. apply Ht in Hin. lia.
    + apply NoDup_app. split; [done|]. split; [|apply NoDup_singleton].
      intros d Hin ->%list_elem_of_singleton. apply Hp in Hin. lia.
    + intros d [Hin| ->%list_elem_of_singleton]%elem_of_app.
      * rewrite lookup_app_l by auto. auto.
      * apply list_lookup_middle. done.
    + intros d [Hin| ->%list_elem_of_singleton]%elem_of_app; [auto|].
      intros (t & Heq & Hin)%list_elem_of_fmap. apply Ht in Hin.
      unfold Deferred, Worker in *. lia.
  - unfold release. destruct (bool_decide (w ∈ workers p)); [|exact Hwf].
    cbn [negb]. destruct (pending p) as [|d rest].
    + unfold wellFormed. cbn. repeat split; done.
    + apply NoDup_cons in Hnd as [Hd Hnd].
      unfold wellFormed. cbn. repeat split; try done.
      * intros d' Hin. apply Hp. by right.
      * intros t [Hin| ->%list_elem_of_singleton]%elem_of_app;
          [by apply Ht|].
        apply Hp. by left.
      * intros d' Hin. apply Hun. by right.
      * intros d' Hin. rewrite fmap_app. cbn.
        intros [Hin'| ->%list_elem_of_singleton]%elem_of_app; [|done].
        revert Hin'. apply Hnt. by right.
  - unfold close. destruct (workers p) as [|w0 ws]; [exact Hwf|].
    unfold wellFormed. cbn. rewrite length_reject_all.
    repeat split; try done;
      try (intros ? Hin; by apply elem_of_nil in Hin).
    apply NoDup_nil_2.
  - unfold onWorkerError. destruct (decide (w ∈ listeners p)); [|exact Hwf].
    unfold wellFormed. cbn. repeat split; try done.
    + intros w' [Hne Hin]%list_elem_of_filter.
      apply list_elem_of_filter. auto.
    + intros w' [Hne Hin]%list_elem_of_filter. auto.
  - unfold runTimer. destruct (timers p) as [|[d w] rest]; [exact Hwf|].
    unfold wellFormed. cbn. rewrite length_settle.
    repeat split; try done.
    + intros t Hin. apply Ht. by right.
    + intros d' Hin. rewrite settle_lookup_ne; [auto|].
      intros ->. apply Hnt in Hin. apply Hin. cbn. by left.
    + intros d' Hin Hin'. apply Hnt in Hin. apply Hin. cbn. by right.
  - unfold setMaxPending. by destruct (v <? 0).
Qed.

Lemma wellFormed_run (ops : list Op) (p : State) :
  wellFormed p → wellFormed (run ops p).
Proof.
  revert p. induction ops as [|op ops IH]; intros p Hp; [done|].
  cbn. apply IH. by apply wellFormed_step.
Qed.

(** *** acquire *)

(** C5: [acquire()] throws when the pool has no worker.  Otherwise, when
    there is an idle worker it takes the first off the idle list and
    returns it; when there is none and the queue is as long as [maxPending]
    or longer it throws "Max pending requests reached" and leaves the pool,
    its queue included, as it was; otherwise it puts one new deferred at the
    tail of the queue and returns its promise, not settled. *)
Theorem acquire_cases (p : State) :
  (workers p = [] →
   acquire p = (Throw (JsError "Error" "No workers in pool"), p)) ∧
  (workers p ≠ [] →
   (∀ w rest, available p = w :: rest →
      acquire p
      = (Ok (Now w),
         mkState (workers p) rest (pending p) (maxPending p) (promises p)
           (timers p) (terminated p) (listeners p) (created p))) ∧
   (available p = [] →
    (∃ m, maxPending p = Some m ∧ m ≤ Z.of_nat (length (pending p))) →
    acquire p = (Throw (JsError "Error" "Max pending requests reached"), p)) ∧
   (available p = [] →
    (∀ m, maxPending p = Some m → Z.of_nat (length (pending p)) < m) →
    let d := length (promises p) in
    acquire p
    = (Ok (Later d),
       mkState (workers p) [] (pending p ++ [d]) (maxPending p)
         (promises p ++ [Pending]) (timers p) (terminated p) (listeners p)
         (created p))
    ∧ (promises p ++ [Pending]) !! d = Some Pending)).
Proof.
  split.
  - intros Hw. unfold acquire. by rewrite Hw.
  - intros Hw. unfold acquire, atCapacity.
    destruct (workers p) as [|w0 ws]; [done|]. split; [|split].
    + intros w rest Ha. by rewrite Ha.
    + intros Ha (m & Hm & Hle). rewrite Ha, Hm.
      destruct (Z.geb_spec (Z.of_nat (length (pending p))) m); [done|lia].
    + intros Ha Hlt. rewrite Ha. cbn zeta.
      split; [|by apply list_lookup_middle].
      destruct (maxPending p) as [m|]; [|done].
      specialize (Hlt m eq_refl).
      destruct (Z.geb_spec (Z.of_nat (length (pending p))) m); [lia|done].
Qed.

(** A pool of one worker: the first caller gets the worker, the second is
    queued; with [maxPending = 0] and the worker taken, the next caller is
    refused and the queue stays empty. *)
Lemma acquire_cases_witness :
  acquire empty = (Throw (JsError "Error" "No workers in pool"), empty)
  ∧ (acquire (run [Spawn false] empty)).1 = Ok (Now 0%nat)
  ∧ (acquire (run [Spawn false; Acquire] empty)).1 = Ok (Later 0%nat)
  ∧ acquire (run [Spawn false; Acquire; SetMaxPending 0] empty)
    = (Throw (JsError "Error" "Max pending requests reached"),
       run [Spawn false; Acquire; SetMaxPending 0] empty).
Proof.
  split; [|split; [|split]].
  - apply (acquire_cases empty). reflexivity.
  - destruct (acquire_cases (run [Spawn false] empty)) as [_ Hne].
    destruct (Hne ltac:(discriminate)) as (Hidle & _ & _).
    by rewrite (Hidle 0%nat [] eq_refl).
  - destruct (acquire_cases (run [Spawn false; Acquire] empty)) as [_ Hne].
    destruct (Hne ltac:(discriminate)) as (_ & _ & Hqueue).
    destruct (Hqueue eq_refl) as [Hacq _]; [discriminate|].
    by rewrite Hacq.
  - destruct (acquire_cases
                (run [Spawn false; Acquire; SetMaxPending 0] empty))
      as [_ Hne].
    destruct (Hne ltac:(discriminate)) as (_ & Hfull & _).
    apply Hfull; [reflexivity|]. exists 0. split; [reflexivity|].
    vm_compute. discriminate.
Defined.

(** *** release *)

(** C6: on a pool that operations have made, [release(worker)] throws
    when the worker is not in the pool's list.  Otherwise, when the queue
    is not empty it takes the oldest deferred off its head and hands the
    callback that resolves it with the worker to [setTimeout]: the idle
    list is as it was and the promise is not settled when [release]
    returns, nor while the callbacks handed over before run, and the
    callback, when its turn comes, fulfils the promise with the worker;
    when the queue is empty it puts the worker at the end of the idle
    list. *)
Theorem release_cases (ops : list Op) (worker : Worker) :
  let p := run ops empty in
  (worker ∉ workers p →
   release worker p = Throw (JsError "Error" "Worker is not in pool")) ∧
  (worker ∈ workers p →
   (∀ d rest, pending p = d :: rest →
      let p' := mkState (workers p) (available p) rest (maxPending p)
                  (promises p) (timers p ++ [(d, worker)]) (terminated p)
                  (listeners p) (created p) in
      release worker p = Ok p'
      ∧ promises p' !! d = Some Pending
      ∧ promises (run (replicate (length (timers p)) Timer) p') !! d
        = Some Pending
      ∧ promises (run (replicate (S (length (timers p))) Timer) p') !! d
        = Some (Fulfilled worker)) ∧
   (pending p = [] →
    release worker p
    = Ok (mkState (workers p) (available p ++ [worker]) [] (maxPending p)
            (promises p) (timers p) (terminated p) (listeners p)
            (created p)))).
Proof.
  cbn zeta.
  pose proof (wellFormed_run ops empty wellFormed_empty)
    as (_ & _ & _ & _ & _ & Hun & Hnt).
  generalize dependent (run ops empty). intros p Hun Hnt.
  split.
  - intros Hw. unfold release. by rewrite bool_decide_eq_false_2.
  - intros Hw. split.
    + intros d rest Hp.
      assert (promises p !! d = Some Pending) as Hd
        by (apply Hun; rewrite Hp; by left).
      assert (d ∉ (timers p).*1) as Hfresh
        by (apply Hnt; rewrite Hp; by left).
      split; [|split; [done|]].
      * unfold release. rewrite bool_decide_eq_true_2 by done.
        by rewrite Hp.
      * rewrite (run_timers (timers p) [(d, worker)]) by done.
        cbn [promises]. split.
        { by rewrite fire_lookup_other. }
        replace (S (length (timers p)))
          with (length (timers p ++ [(d, worker)]))
          by (rewrite length_app; cbn; lia).
        rewrite (run_timers (timers p ++ [(d, worker)]) [])
          by (cbn; by rewrite app_nil_r).
        cbn [promises]. unfold fire. rewrite foldl_snoc. cbn [fst snd].
        apply settle_lookup_pending.
        pose proof (fire_lookup_other (timers p) (promises p) d Hfresh)
          as Hsame.
        unfold fire in Hsame. by rewrite Hsame.
    + intros Hp. unfold release. rewrite bool_decide_eq_true_2 by done.
      by rewrite Hp.
Qed.

(** One worker and three queued callers: three releases hand the worker's
    turn to the callers in the order they came, none through the idle
    list; a worker the pool does not hold is refused. *)
Lemma release_cases_witness :
  let queued := run [Spawn false; Acquire; Acquire; Acquire; Acquire] empty in
  pending queued = [0; 1; 2]%nat
  ∧ release 7%nat queued = Throw (JsError "Error" "Worker is not in pool")
  ∧ (∃ p', release 0%nat queued = Ok p' ∧ pending p' = [1; 2]%nat ∧
           available p' = [] ∧ promises p' !! 0%nat = Some Pending ∧
           promises (run [Timer] p') !! 0%nat = Some (Fulfilled 0%nat))
  ∧ promises (run [Release 0; Timer; Release 0; Timer; Release 0; Timer]%nat
                queued)
    = [Fulfilled 0; Fulfilled 0; Fulfilled 0]%nat
  ∧ (∃ p', release 0%nat (run [Spawn false; Acquire] empty) = Ok p' ∧
           available p' = [0%nat]).
Proof.
  cbn zeta. split; [reflexivity|]. split; [|split; [|split]].
  - apply (release_cases
             [Spawn false; Acquire; Acquire; Acquire; Acquire] 7%nat).
    intros Hin%list_elem_of_In. destruct Hin as [Heq|[]]. discriminate Heq.
  - destruct (release_cases
                [Spawn false; Acquire; Acquire; Acquire; Acquire] 0%nat)
      as [_ Hin].
    destruct Hin as [Hq _]; [by apply list_elem_of_In; left|].
    destruct (Hq 0%nat [1; 2]%nat eq_refl) as (Hrel & Hnow & _ & Hdone).
    eexists. split; [exact Hrel|].
    split; [reflexivity|]. split; [reflexivity|].
    split; [exact Hnow | exact Hdone].
  - reflexivity.
  - destruct (release_cases [Spawn false; Acquire] 0%nat) as [_ Hin].
    destruct Hin as [_ Hidle]; [by apply list_elem_of_In; left|].
    eexists. split; [apply Hidle; reflexivity | reflexivity].
Defined.

(** *** close *)

Lemma reject_all_lookup (ds : list Deferred) (ps : list Promise) d :
  d ∈ ds → ps !! d = Some Pending →
  foldl (λ ps deferred, settle deferred (Rejected poolClosed) ps) ps ds !! d
  = Some (Rejected poolClosed).
Proof.
  revert ps. induction ds as [|d' ds IH]; intros ps Hin Hd.
  - by apply elem_of_nil in Hin.
  - cbn [foldl]. destruct (decide (d = d')) as [<-|Hne].
    + assert (∀ ps', ps' !! d = Some (Rejected poolClosed) →
                foldl (λ ps deferred, settle deferred (Rejected poolClosed) ps)
                  ps' ds !! d = Some (Rejected poolClosed)) as Hkeep.
      { clear. induction ds as [|d'' ds IH]; intros ps' Hps'; [done|].
        cbn [foldl]. apply IH. unfold settle.
        destruct (ps' !! d'') as [[| |]|] eqn:Hd''; try done.
        destruct (decide (d = d'')) as [<-|Hne]; [congruence|].
        by rewrite list_lookup_insert_ne. }
      apply Hkeep. by apply settle_lookup_pending.
    + apply IH.
      * apply elem_of_cons in Hin as [?|?]; done.
      * by rewrite settle_lookup_ne.
Qed.

(** On a pool that holds a worker, [close()] terminates every worker,
    rejects the promise of every queued deferred that was not settled, and
    empties the three lists. *)
Lemma close_populated (p : State) :
  workers p ≠ [] →
  workers (close p) = [] ∧ available (close p) = [] ∧ pending (close p) = []
  ∧ terminated (close p) = terminated p ++ workers p
  ∧ ∀ d, d ∈ pending p → promises p !! d = Some Pending →
         promises (close p) !! d = Some (Rejected poolClosed).
Proof.
  intros Hw. unfold close. destruct (workers p) as [|w ws] eqn:Hws; [done|].
  cbn. repeat split. intros d Hin Hd. by apply reject_all_lookup.
Qed.

(** Closing twice is closing once. *)
Lemma close_idempotent (p : State) : close (close p) = close p.
Proof.
  unfold close. destruct (workers p) eqn:Hw; [by rewrite Hw | done].
Qed.

(** C3, what the code does.  A pool of one worker: a first caller takes
    the worker, a second is queued, and the worker reports a fault.  The
    pool now holds no worker and one queued caller, whose promise is not
    settled.  [close()] returns at once: the promise stays as it is, never
    rejected, and the queue keeps its entry. *)
Theorem close_strands_pending :
  let p := run [Spawn false; Acquire; Acquire; Fault 0%nat] empty in
  workers p = [] ∧ pending p = [0%nat] ∧ promises p = [Pending]
  ∧ close p = p
  ∧ pending (close p) ≠ []
  ∧ promises (close p) !! 0%nat ≠ Some (Rejected poolClosed).
Proof. cbn zeta. repeat split; try reflexivity; discriminate. Qed.

(** *** with *)

(** C4, what the code does.  A pool of one worker; the worker reports a
    fault while the task runs, the task throws "boom", and [release] then
    refuses the evicted worker.  The throw of the [finally] block takes the
    place of the pending "Worker task failed": the caller gets the
    aggregate of the release, and the task's error is in no aggregate.
    Where the release succeeds, the same task failure does reach the caller
    as "Worker task failed". *)
Theorem with_hides_task_failure :
  let p := run [Spawn false] empty in
  let await_ := λ (d : Deferred) (q : State), (q, Ok 0%nat) in
  let faulting := λ (w : Worker) (q : State),
                    (onWorkerError w q,
                     Throw (A := unit) (JsError "Error" "boom")) in
  let failing := λ (w : Worker) (q : State),
                   (q, Throw (A := unit) (JsError "Error" "boom")) in
  (with_ await_ faulting p).1.2
  = Throw (JsAggregate [JsError "Error" "Worker is not in pool"]
             "Failed to release worker")
  ∧ (with_ await_ faulting p).1.2
    ≠ Throw (JsAggregate [JsError "Error" "boom"] "Worker task failed")
  ∧ (with_ await_ faulting p).2 = [0%nat]
  ∧ (with_ await_ failing p).1.2
    = Throw (JsAggregate [JsError "Error" "boom"] "Worker task failed").
Proof.
  cbn zeta. split; [reflexivity|]. split; [discriminate|].
  split; reflexivity.
Qed.

(** The phases of [with], for every task.  When the acquire phase gives a
    worker, [release] is called once, on that worker, whether the task
    returns or throws, and otherwise not at all.  A failure of the acquire
    phase reaches the caller as the aggregate "Failed to acquire worker", a
    failure of the release as "Failed to release worker", and a failure of
    the task, when the release succeeds, as "Worker task failed", each with
    the error as its one cause; with no failure the caller gets the task's
    result. *)
Theorem with_phases {Return : Type}
  (await_ : Deferred → State → State * Result Worker)
  (task : Worker → State → State * Result Return) (p : State) :
  let p1 := (acquirePhase await_ p).1 in
  (∀ e, (acquirePhase await_ p).2 = Throw e →
     with_ await_ task p
     = (p1, Throw (JsAggregate [e] "Failed to acquire worker"), [])) ∧
  (∀ w, (acquirePhase await_ p).2 = Ok w →
     let p2 := (task w p1).1 in
     (with_ await_ task p).2 = [w] ∧
     (∀ e, release w p2 = Throw e →
        (with_ await_ task p).1
        = (p2, Throw (JsAggregate [e] "Failed to release worker"))) ∧
     (∀ p3, release w p2 = Ok p3 →
        (∀ e, (task w p1).2 = Throw e →
           (with_ await_ task p).1
           = (p3, Throw (JsAggregate [e] "Worker task failed"))) ∧
        (∀ r, (task w p1).2 = Ok r →
           (with_ await_ task p).1 = (p3, Ok r)))).
Proof.
  cbn zeta. unfold with_.
  destruct (acquirePhase await_ p) as [p1 [w|e]]; cbn [fst snd].
  - split; [done|]. intros ? [= <-].
    destruct (task w p1) as [p2 outcome]; cbn [fst snd].
    destruct (release w p2) as [p3|e']; cbn [fst snd].
    + split; [done|]. split; [done|]. intros ? [= <-].
      split; [intros e ->|intros r ->]; done.
    + split; [done|]. split; [by intros ? [= <-]|done].
  - split; [by intros ? [= <-]|done].
Qed.

(** A pool of one idle worker: a task that returns 5 gives 5, a task that
    throws gives the aggregate of the task, both with one release of
    worker 0; on a pool without workers the acquire phase fails. *)
Lemma with_phases_witness :
  let p := run [Spawn false] empty in
  let await_ := λ (d : Deferred) (q : State), (q, Ok 0%nat) in
  with_ await_ (λ w q, (q, Ok 5)) p = (p, Ok 5, [0%nat])
  ∧ with_ await_ (λ w q, (q, Throw (A := Z) (JsError "Error" "boom"))) p
    = (p, Throw (JsAggregate [JsError "Error" "boom"] "Worker task failed"),
       [0%nat])
  ∧ with_ await_ (λ w q, (q, Ok 5)) empty
    = (empty,
       Throw (JsAggregate [JsError "Error" "No workers in pool"]
                "Failed to acquire worker"), []).
Proof.
  cbn zeta. split; [|split].
  - destruct (with_phases (λ (d : Deferred) (q : State), (q, Ok 0%nat))
                (λ w q, (q, Ok 5)) (run [Spawn false] empty)) as [_ Hok].
    destruct (Hok 0%nat eq_refl) as (Hrel & _ & Hres).
    destruct (Hres (run [Spawn false] empty) eq_refl) as [_ Hret].
    specialize (Hret 5 eq_refl).
    destruct (with_ _ _ _) as [[q r] l]. cbn [fst snd] in *.
    by rewrite Hrel, Hret.
  - destruct (with_phases (λ (d : Deferred) (q : State), (q, Ok 0%nat))
                (λ w q, (q, Throw (A := Z) (JsError "Error" "boom")))
                (run [Spawn false] empty)) as [_ Hok].
    destruct (Hok 0%nat eq_refl) as (Hrel & _ & Hres).
    destruct (Hres (run [Spawn false] empty) eq_refl) as [Hthrow _].
    specialize (Hthrow _ eq_refl).
    destruct (with_ _ _ _) as [[q r] l]. cbn [fst snd] in *.
    by rewrite Hrel, Hthrow.
  - by apply (with_phases (λ (d : Deferred) (q : State), (q, Ok 0%nat))
                (λ w q, (q, Ok 5)) empty).
Defined.

(** *** Eviction of a faulted worker *)

(** The fault of a worker of the pool evicts it. *)
Lemma evicted_fault (p : State) (w : Worker) :
  wellFormed p → w ∈ workers p →
  evicted w (length (promises p)) (onWorkerError w p).
Proof.
  intros (Hw & Hl & Hp & Ht & _) Hin. unfold onWorkerError.
  rewrite decide_True by auto.
  unfold evicted. cbn. repeat split.
  - auto.
  - by intros [? _]%list_elem_of_filter.
  - by intros [? _]%list_elem_of_filter.
  - done.
  - intros d Hd. by apply Ht in Hd.
  - intros d Hd. by apply lookup_lt_Some in Hd.
Qed.

(** No operation brings an evicted worker back. *)
Lemma evicted_step (w : Worker) (n : nat) (p : State) (op : Op) :
  evicted w n p → evicted w n (step p op).
Proof.
  intros Hev. pose proof Hev as (Hc & Hw & Ha & Hn & Ht & Hf).
  destruct op as [b| |w'| |w'| |v]; cbn [step].
  - unfold evicted, createWorker. cbn. repeat split; try done.
    + lia.
    + intros [?| ->%list_elem_of_singleton]%elem_of_app; [done|lia].
    + destruct b; cbn; [done|].
      intros [?| ->%list_elem_of_singleton]%elem_of_app; [done|lia].
  - unfold acquire. destruct (workers p) as [|w0 ws]; [exact Hev|].
    destruct (available p) as [|next rest].
    + destruct (atCapacity p); [exact Hev|].
      unfold evicted. cbn. rewrite length_app. cbn.
      repeat split; try done; [lia|].
      intros d [[_ Hd]|[_ [=]]]%lookup_snoc_Some. auto.
    + unfold evicted. cbn. repeat split; try done.
      intros Hin. apply Ha. by right.
  - unfold release.
    destruct (bool_decide_reflect (w' ∈ workers p)) as [Hin|]; [|exact Hev].
    cbn [negb]. destruct (pending p) as [|d rest].
    + unfold evicted. cbn. repeat split; try done.
      intros [?| ->%list_elem_of_singleton]%elem_of_app; done.
    + unfold evicted. cbn. repeat split; try done.
      intros d' [?|[= _ ->]%list_elem_of_singleton]%elem_of_app;
        [auto|done].
  - unfold close. destruct (workers p) as [|w0 ws]; [exact Hev|].
    unfold evicted. cbn. rewrite length_reject_all.
    repeat split; try done; try (by intros ?%elem_of_nil).
    intros d Hd. apply Hf.
    revert Hd. generalize (promises p). clear.
    induction (pending p) as [|d' ds IH]; intros ps; [done|].
    cbn [foldl]. intros Hd%IH. revert Hd. unfold settle.
    destruct (ps !! d') as [[| |]|] eqn:Hd'; try done.
    destruct (decide (d = d')) as [->|Hne].
    * rewrite list_lookup_insert_eq by (by eapply lookup_lt_Some). done.
    * by rewrite list_lookup_insert_ne.
  - unfold onWorkerError. destruct (decide (w' ∈ listeners p)); [|exact Hev].
    unfold evicted. cbn. repeat split; try done.
    + intros [_ ?]%list_elem_of_filter. done.
    + intros [_ ?]%list_elem_of_filter. done.
  - unfold runTimer.
    destruct (timers p) as [|[d w''] rest]; [exact Hev|].
    unfold evicted. cbn. rewrite length_settle.
    repeat split; try done.
    + intros d' Hin. apply Ht. by right.
    + intros d'. unfold settle.
      destruct (promises p !! d) as [[| |]|] eqn:Hd; auto.
      destruct (decide (d' = d)) as [->|Hne].
      * rewrite list_lookup_insert_eq by (by eapply lookup_lt_Some).
        intros [= ->]. apply Ht. by left.
      * rewrite list_lookup_insert_ne by done. auto.
  - unfold setMaxPending. by destruct (v <? 0).
Qed.

Lemma evicted_run (w : Worker) (n : nat) (ops : list Op) (p : State) :
  evicted w n p → evicted w n (run ops p).
Proof.
  revert p. induction ops as [|op ops IH]; intros p Hp; [done|].
  cbn. apply IH. by apply evicted_step.
Qed.

(** C9: when a worker of the pool reports a fault, then after any
    operations that follow it is in neither the pool's list of workers nor
    its idle list, [acquire()] does not return it, and no deferred created
    after the fault is ever fulfilled with it. *)
Theorem faulted_worker_gone (before after : list Op) (w : Worker) :
  let p := run before empty in
  w ∈ workers p →
  let p' := run after (onWorkerError w p) in
  (w ∉ workers p') ∧ (w ∉ available p')
  ∧ (acquire p').1 ≠ Ok (Now w)
  ∧ ∀ d, (length (promises p) ≤ d)%nat →
         promises p' !! d ≠ Some (Fulfilled w).
Proof.
  cbn zeta. intros Hin.
  pose proof (wellFormed_run before empty wellFormed_empty) as Hwf.
  pose proof (evicted_run w _ after _ (evicted_fault _ w Hwf Hin))
    as (Hc & Hw & Ha & Hn & Ht & Hf).
  split; [done|]. split; [done|]. split.
  - generalize dependent (run after (onWorkerError w (run before empty))).
    intros p' _ _ Ha _ _ _. unfold acquire.
    destruct (workers p'); [cbn; discriminate|].
    destruct (available p') as [|next rest].
    + destruct (atCapacity p'); cbn; discriminate.
    + cbn. intros [= ->]. apply Ha. by left.
  - intros d Hd Hful. apply Hf in Hful. lia.
Qed.

(** The deferreds created before the fault are outside the statement: a
    caller queued before the fault, whose turn was handed to a timer by a
    release of the worker, still gets the worker when the timer runs. *)
Example timer_set_before_fault :
  promises (run [Spawn false; Acquire; Acquire; Release 0%nat;
                 Fault 0%nat; Timer] empty)
  = [Fulfilled 0%nat].
Proof. reflexivity. Qed.

(** Two workers, worker 0 idle when it faults: the callers that come
    after get worker 1, then wait. *)
Lemma faulted_worker_gone_witness :
  let p' := run [Acquire; Acquire; Release 0%nat; Timer]
              (onWorkerError 0%nat (run [Spawn false; Spawn false] empty)) in
  (0%nat ∉ workers p') ∧ (0%nat ∉ available p')
  ∧ (acquire p').1 ≠ Ok (Now 0%nat)
  ∧ ∀ d, (0 ≤ d)%nat → promises p' !! d ≠ Some (Fulfilled 0%nat).
Proof.
  apply (faulted_worker_gone [Spawn false; Spawn false]
           [Acquire; Acquire; Release 0%nat; Timer] 0%nat).
  apply list_elem_of_In. left. reflexivity.
Defined.

End PoolFacts.

(** ** The grid: iteration, fill and neighbours *)

Module GridFacts.
Import Buffer Grid.

Lemma length_bind_const {A B} (f : A → list B) (n : nat) (l : list A) :
  (∀ x, x ∈ l → length (f x) = n) → length (l ≫= f) = (length l * n)%nat.
Proof.
  induction l as [|a l IH]; intros Hf; [done|].
  rewrite bind_cons, length_app, Hf, IH; [cbn; lia| |by left].
  intros x Hx. apply Hf. by right.
Qed.

Lemma foldl_bind {A B C} (g : A → B → A) (h : C → list B) (a : A)
  (l : list C) :
  foldl g a (l ≫= h) = foldl (λ a x, foldl g a (h x)) a l.
Proof.
  revert a. induction l as [|c l IH]; intros a; [done|].
  by rewrite bind_cons, foldl_app, IH.
Qed.

(** Two cells of a row-major grid with the same index are the same cell. *)
Lemma index_injective (W x y x' y' : Z) :
  0 ≤ x < W → 0 ≤ x' < W → x + y * W = x' + y' * W → x = x' ∧ y = y'.
Proof. intros Hx Hx' Heq. assert (y = y') by nia. subst. lia. Qed.

Section Facts.
Context {V : Type}.
Variable conv : V → V.
Implicit Types (b : Buffer2D V) (buf : list V).

Lemma getIndex_noCheck b x y : getIndex b x y true = Ok (x + y * (size b).1).
Proof. done. Qed.

Lemma read_inside buf i :
  0 ≤ i < Z.of_nat (length buf) → is_Some (TypedArray.read buf i).
Proof.
  intros [Hlo Hhi]. unfold TypedArray.read.
  destruct (Z.leb_spec 0 i); [|lia]. apply lookup_lt_is_Some. lia.
Qed.


Lemma read_write_ne buf (i j : Z) (v : V) :
  i ≠ j → TypedArray.read (TypedArray.write conv buf i v) j
          = TypedArray.read buf j.
Proof.
  intros Hne. unfold TypedArray.read, TypedArray.write.
  destruct (Z.leb_spec 0 j); [|done].
  destruct (Z.leb_spec 0 i); [|done].
  apply list_lookup_insert_ne. lia.
Qed.

(** X2.  On a wrapped buffer a write at a cell inside the grid succeeds,
    keeps the size and the length of the storage, and leaves what [get]
    returns at every other coordinate as it was. *)
Theorem set_frame buf (W H : Z) b (x y : Z) (v : V) :
  wrapBuffer buf (W, H) = Ok b →
  0 ≤ x < W → 0 ≤ y < H →
  ∃ b', set conv b x y v false = Ok b'
        ∧ size b' = size b
        ∧ length (buffer b') = length (buffer b)
        ∧ ∀ x' y', (x', y') ≠ (x, y) →
                   get b' x' y' false = get b x' y' false.
Proof.
  intros (Hsize & Hbuf & Hlen)%BufferFacts.wrapBuffer_Ok Hx Hy.
  assert (isInBounds b x y = true) as Hin
    by (apply BufferFacts.isInBounds_true; by rewrite Hsize).
  eexists. unfold set. rewrite (BufferFacts.getIndex_inside b x y false Hin).
  cbn [mbind Result_bind]. split; [reflexivity|]. cbn [size buffer].
  split; [done|]. split; [apply TypedArrayFacts.length_write|].
  intros x' y' Hne. unfold get, getIndex, isInBounds. cbn [size buffer].
  destruct (negb false && negb _) eqn:Hout; [done|].
  cbn [mbind Result_bind]. f_equal. apply read_write_ne.
  rewrite Hsize in *. cbn [fst snd] in *.
  apply andb_false_iff in Hout as [[=]|Hout%negb_false_iff].
  rewrite !andb_true_iff in Hout.
  intros Heq. apply Hne.
  destruct (index_injective W x y x' y') as [-> ->]; [lia|lia|done|done].
Qed.

(** The writes of the two loops of [fillBuffer2D], as one pass over the
    cells. *)
Lemma fillBuffer2D_writes b (noiseFn : Z → Z → V) :
  fillBuffer2D conv b noiseFn
  = Ok (mkBuffer2D (size b)
          (foldl (λ a p, TypedArray.write conv a (p.1 + p.2 * (size b).1)
                           (noiseFn p.1 p.2))
                 (buffer b)
                 (x ← seqZ 0 (size b).1; y ← seqZ 0 (size b).2; [(x, y)]))).
Proof.
  unfold fillBuffer2D. rewrite foldl_bind.
  set (W := (size b).1). set (H := (size b).2).
  assert (∀ xs a,
    Forall (λ x, 0 ≤ x < W) xs →
    foldl (λ r x, foldl (λ r y, b0 ← r; set conv b0 x y (noiseFn x y) false)
                    r (seqZ 0 H))
      (Ok (mkBuffer2D (size b) a)) xs
    = Ok (mkBuffer2D (size b)
            (foldl (λ a x, foldl (λ a p, TypedArray.write conv a
                                           (p.1 + p.2 * W) (noiseFn p.1 p.2))
                             a (y ← seqZ 0 H; [(x, y)])) a xs))) as Houter.
  { induction xs as [|x xs IH]; intros a Hxs; [done|].
    apply Forall_cons in Hxs as [Hx Hxs]. cbn [foldl].
    assert (∀ ys a,
      Forall (λ y, 0 ≤ y < H) ys →
      foldl (λ r y, b0 ← r; set conv b0 x y (noiseFn x y) false)
        (Ok (mkBuffer2D (size b) a)) ys
      = Ok (mkBuffer2D (size b)
              (foldl (λ a p, TypedArray.write conv a (p.1 + p.2 * W)
                               (noiseFn p.1 p.2))
                 a (y ← ys; [(x, y)])))) as Hinner.
    { clear IH. induction ys as [|y ys IH]; intros a' Hys; [done|].
      apply Forall_cons in Hys as [Hy Hys]. cbn [foldl mbind Result_bind].
      rewrite bind_cons. cbn [app foldl fst snd].
      unfold set at 2. unfold getIndex, isInBounds. cbn [size buffer].
      fold W H.
      replace ((x >=? 0) && (x <? W) && (y >=? 0) && (y <? H)) with true
        by (symmetry; rewrite !andb_true_iff; lia).
      cbn [negb andb mbind Result_bind]. by rewrite IH. }
    rewrite Hinner by (apply Forall_seqZ; lia).
    by rewrite IH. }
  destruct b as [sz a]. cbn [size buffer] in *.
  apply Houter. apply Forall_seqZ. lia.
Qed.

Lemma foldl_writes_length (W : Z) (f : Z → Z → V) (cells : list (Z * Z)) buf :
  length (foldl (λ a p, TypedArray.write conv a (p.1 + p.2 * W) (f p.1 p.2))
            buf cells) = length buf.
Proof.
  revert buf. induction cells as [|c cells IH]; intros buf; [done|].
  cbn [foldl]. by rewrite IH, TypedArrayFacts.length_write.
Qed.

Lemma foldl_writes_other (W : Z) (f : Z → Z → V) (cells : list (Z * Z)) buf i :
  i ∉ (λ p, p.1 + p.2 * W) <$> cells →
  TypedArray.read
    (foldl (λ a p, TypedArray.write conv a (p.1 + p.2 * W) (f p.1 p.2))
       buf cells) i
  = TypedArray.read buf i.
Proof.
  revert buf. induction cells as [|c cells IH]; intros buf Hi; [done|].
  cbn in Hi. apply not_elem_of_cons in Hi as [Hne Hi].
  cbn [foldl]. rewrite IH by done. by apply read_write_ne.
Qed.

Lemma foldl_writes_read (W : Z) (f : Z → Z → V) (cells : list (Z * Z)) buf
  (x y : Z) :
  NoDup ((λ p, p.1 + p.2 * W) <$> cells) → (x, y) ∈ cells →
  0 ≤ x + y * W < Z.of_nat (length buf) →
  TypedArray.read
    (foldl (λ a p, TypedArray.write conv a (p.1 + p.2 * W) (f p.1 p.2))
       buf cells) (x + y * W)
  = Some (conv (f x y)).
Proof.
  revert buf. induction cells as [|c cells IH]; intros buf Hnd Hin Hi.
  - by apply elem_of_nil in Hin.
  - cbn in Hnd. apply NoDup_cons in Hnd as [Hc Hnd]. cbn [foldl].
    apply elem_of_cons in Hin as [<-|Hin].
    + cbn [fst snd] in *. rewrite foldl_writes_other by done.
      by apply TypedArrayFacts.read_write.
    + apply IH; [done|done|]. by rewrite TypedArrayFacts.length_write.
Qed.

(** X3.  [fillBuffer2D] does not throw on a wrapped buffer; it keeps the
    size and the length of the storage, and afterwards every cell (x, y) of
    the grid holds [noiseFn(x, y)] as converted by the element type. *)
Theorem fillBuffer2D_cells buf (W H : Z) b (noiseFn : Z → Z → V) :
  wrapBuffer buf (W, H) = Ok b →
  ∃ b', fillBuffer2D conv b noiseFn = Ok b'
        ∧ size b' = (W, H)
        ∧ length (buffer b') = length buf
        ∧ ∀ x y, 0 ≤ x < W → 0 ≤ y < H →
                 get b' x y false = Ok (Some (conv (noiseFn x y))).
Proof.
  intros (Hsize & Hbuf & Hlen)%BufferFacts.wrapBuffer_Ok.
  destruct b as [sz a]. cbn [size buffer] in Hsize, Hbuf. subst sz a.
  eexists. rewrite fillBuffer2D_writes.
  split; [reflexivity|]. cbn [size buffer fst snd]. split; [done|].
  split; [apply foldl_writes_length|].
  intros x y Hx Hy. unfold get, getIndex, isInBounds.
  cbn [size buffer fst snd].
  replace ((x >=? 0) && (x <? W) && (y >=? 0) && (y <? H)) with true
    by (symmetry; rewrite !andb_true_iff; lia).
  cbn [negb andb mbind Result_bind]. f_equal.
  apply foldl_writes_read.
  - apply NoDup_fmap_2_strong.
    + intros [x1 y1] [x2 y2].
      intros (x1' & (y1' & [= -> ->]%list_elem_of_singleton
                      & Hy1%elem_of_seqZ)%list_elem_of_bind
                  & Hx1%elem_of_seqZ)%list_elem_of_bind.
      intros (x2' & (y2' & [= -> ->]%list_elem_of_singleton
                      & Hy2%elem_of_seqZ)%list_elem_of_bind
                  & Hx2%elem_of_seqZ)%list_elem_of_bind.
      cbn [fst snd]. intros Heq.
      destruct (index_injective W x1' y1' x2' y2') as [-> ->];
        [lia|lia|done|done].
    + apply NoDup_bind.
      * intros x1 x2 p _ _.
        intros (y1 & ->%list_elem_of_singleton & _)%list_elem_of_bind
               (y2 & [= -> _]%list_elem_of_singleton & _)%list_elem_of_bind.
        done.
      * intros x' _. apply NoDup_bind.
        -- intros y1 y2 p _ _.
           intros ->%list_elem_of_singleton [= ->]%list_elem_of_singleton.
           done.
        -- intros. apply NoDup_singleton.
        -- apply NoDup_seqZ.
      * apply NoDup_seqZ.
  - apply list_elem_of_bind. exists x. split; [|apply elem_of_seqZ; lia].
    apply list_elem_of_bind. exists y. split; [|apply elem_of_seqZ; lia].
    by apply list_elem_of_singleton.
  - pose proof (BufferFacts.index_inside W H x y Hx Hy). lia.
Qed.

(** On a wrapped buffer the shared loop body yields the cell when it is in
    bounds, with the value the storage holds there. *)
Lemma yieldInBounds_valid buf (W H : Z) b (nx ny : Z) :
  wrapBuffer buf (W, H) = Ok b →
  yieldInBounds b nx ny
  = if bool_decide (0 ≤ nx < W ∧ 0 ≤ ny < H)
    then [mkNeighbor nx ny (TypedArray.read buf (nx + ny * W))]
    else [].
Proof.
  intros (Hsize & Hbuf & Hlen)%BufferFacts.wrapBuffer_Ok.
  unfold yieldInBounds, get. rewrite getIndex_noCheck, Hsize, Hbuf.
  cbn [fst snd mbind Result_bind].
  destruct (isInBounds b nx ny) eqn:Hin.
  - apply BufferFacts.isInBounds_true in Hin. rewrite Hsize in Hin.
    by rewrite bool_decide_eq_true_2.
  - apply BufferFacts.isInBounds_false in Hin. rewrite Hsize in Hin.
    cbn [fst snd] in Hin. rewrite bool_decide_eq_false_2; [done|lia].
Qed.

(** X4.  On a wrapped buffer every cell [getNeighbors] yields is inside the
    grid, at distance one from the point along one axis, and carries the
    element stored at it; for a point inside the grid it yields one cell for
    each side on which the point is not on the border. *)
Theorem getNeighbors_cells buf (W H : Z) b (x y : Z) :
  wrapBuffer buf (W, H) = Ok b →
  (∀ n, n ∈ getNeighbors b (x, y) →
        0 ≤ neighborX n < W ∧ 0 ≤ neighborY n < H
        ∧ Z.abs (neighborX n - x) + Z.abs (neighborY n - y) = 1
        ∧ neighborValue n
          = TypedArray.read buf (neighborX n + neighborY n * W)
        ∧ is_Some (neighborValue n))
  ∧ (0 ≤ x < W → 0 ≤ y < H →
     length (getNeighbors b (x, y))
     = (Nat.b2n (0 <? x)%Z + Nat.b2n (x <? W - 1)%Z
        + Nat.b2n (0 <? y)%Z + Nat.b2n (y <? H - 1)%Z)%nat).
Proof.
  intros Hb. pose proof Hb as (Hsize & Hbuf & Hlen)%BufferFacts.wrapBuffer_Ok.
  unfold getNeighbors, neighbors. cbn [mbind list_bind app fst snd].
  rewrite !(yieldInBounds_valid buf W H b) by done. rewrite app_nil_r.
  split.
  - intros n Hn.
    assert (∃ dx dy, Z.abs dx + Z.abs dy = 1
                     ∧ 0 ≤ x + dx < W ∧ 0 ≤ y + dy < H
                     ∧ n = mkNeighbor (x + dx) (y + dy)
                             (TypedArray.read buf (x + dx + (y + dy) * W)))
      as (dx & dy & Hd & Hx & Hy & ->).
    { repeat (apply elem_of_app in Hn as [Hn|Hn]);
        case_bool_decide as Hin; try (by apply elem_of_nil in Hn);
        apply list_elem_of_singleton in Hn;
        [exists (-1), 0 | exists 1, 0 | exists 0, (-1) | exists 0, 1];
        (split; [done|]); (split; [tauto|]); (split; [tauto|]); done. }
    cbn [neighborX neighborY neighborValue].
    split; [done|]. split; [done|]. split; [lia|]. split; [done|].
    apply read_inside.
    pose proof (BufferFacts.index_inside W H _ _ Hx Hy). lia.
  - intros Hx Hy. rewrite !length_app.
    repeat case_bool_decide; cbn [length];
      destruct (Z.ltb_spec 0 x); destruct (Z.ltb_spec x (W - 1));
      destruct (Z.ltb_spec 0 y); destruct (Z.ltb_spec y (H - 1));
      cbn [Nat.b2n]; lia.
Qed.

(** X5.  On a wrapped buffer [getNeighborsInRange] yields exactly the cells
    inside the grid whose x and y both differ from the point's by at most
    [range], the point itself left out, each with the element stored at it,
    and yields none of them twice. *)
Theorem getNeighborsInRange_cells buf (W H : Z) b (x y range : Z) :
  wrapBuffer buf (W, H) = Ok b →
  (∀ n, n ∈ getNeighborsInRange b (x, y) range ↔
        0 ≤ neighborX n < W ∧ 0 ≤ neighborY n < H
        ∧ Z.abs (neighborX n - x) ≤ range ∧ Z.abs (neighborY n - y) ≤ range
        ∧ (neighborX n, neighborY n) ≠ (x, y)
        ∧ neighborValue n
          = TypedArray.read buf (neighborX n + neighborY n * W))
  ∧ NoDup (getNeighborsInRange b (x, y) range).
Proof.
  intros Hb. unfold getNeighborsInRange. cbn [fst snd]. split.
  - intros n. split.
    + intros (dx & (dy & Hn & Hdy%elem_of_seqZ)%list_elem_of_bind
                 & Hdx%elem_of_seqZ)%list_elem_of_bind.
      destruct ((dx =? 0) && (dy =? 0)) eqn:Hz;
        [by apply elem_of_nil in Hn|].
      rewrite (yieldInBounds_valid buf W H b) in Hn by done.
      case_bool_decide as Hin; [|by apply elem_of_nil in Hn].
      apply list_elem_of_singleton in Hn. subst n.
      cbn [neighborX neighborY neighborValue].
      apply andb_false_iff in Hz.
      repeat split; try lia.
      intros [= ? ?]. destruct Hz as [Hz|Hz]; apply Z.eqb_neq in Hz; lia.
    + destruct n as [nx ny v]. cbn [neighborX neighborY neighborValue].
      intros (Hx & Hy & Hdx & Hdy & Hne & ->).
      apply list_elem_of_bind. exists (nx - x).
      split; [|apply elem_of_seqZ; lia].
      apply list_elem_of_bind. exists (ny - y).
      split; [|apply elem_of_seqZ; lia].
      destruct ((nx - x =? 0) && (ny - y =? 0)) eqn:Hz.
      { apply andb_true_iff in Hz as [Hzx%Z.eqb_eq Hzy%Z.eqb_eq].
        exfalso. apply Hne. f_equal; lia. }
      rewrite (yieldInBounds_valid buf W H b) by done.
      replace (x + (nx - x)) with nx by lia.
      replace (y + (ny - y)) with ny by lia.
      rewrite bool_decide_eq_true_2 by done.
      by apply list_elem_of_singleton.
  - apply NoDup_bind; [| |apply NoDup_seqZ].
    + intros dx1 dx2 n _ _.
      intros (dy1 & Hn1 & _)%list_elem_of_bind
             (dy2 & Hn2 & _)%list_elem_of_bind.
      destruct ((dx1 =? 0) && (dy1 =? 0)); [by apply elem_of_nil in Hn1|].
      destruct ((dx2 =? 0) && (dy2 =? 0)); [by apply elem_of_nil in Hn2|].
      rewrite (yieldInBounds_valid buf W H b) in Hn1, Hn2 by done.
      repeat case_bool_decide;
        try (by apply elem_of_nil in Hn1); try (by apply elem_of_nil in Hn2).
      apply list_elem_of_singleton in Hn1, Hn2. subst n.
      injection Hn2 as Hx' _ _. lia.
    + intros dx _. apply NoDup_bind; [| |apply NoDup_seqZ].
      * intros dy1 dy2 n _ _ Hn1 Hn2.
        destruct ((dx =? 0) && (dy1 =? 0)); [by apply elem_of_nil in Hn1|].
        destruct ((dx =? 0) && (dy2 =? 0)); [by apply elem_of_nil in Hn2|].
        rewrite (yieldInBounds_valid buf W H b) in Hn1, Hn2 by done.
        repeat case_bool_decide;
          try (by apply elem_of_nil in Hn1);
          try (by apply elem_of_nil in Hn2).
        apply list_elem_of_singleton in Hn1, Hn2. subst n.
        injection Hn2 as Hy' _. lia.
      * intros dy _. destruct ((dx =? 0) && (dy =? 0)); [apply NoDup_nil_2|].
        rewrite (yieldInBounds_valid buf W H b) by done.
        case_bool_decide; [apply NoDup_singleton | apply NoDup_nil_2].
Qed.

End Facts.


Lemma set_frame_witness :
  ∃ b', set TypedArray.toUint8 (mkBuffer2D (2, 2) [5; 6; 7; 8]) 1 0 9 false
        = Ok b'
        ∧ get b' 0 1 false = Ok (Some 7)
        ∧ get b' 1 1 false = Ok (Some 8).
Proof.
  destruct (set_frame TypedArray.toUint8 [5; 6; 7; 8] 2 2
              (mkBuffer2D (2, 2) [5; 6; 7; 8]) 1 0 9 eq_refl
              ltac:(lia) ltac:(lia)) as (b' & Hset & _ & _ & Hget).
  exists b'. split; [exact Hset|].
  split; (rewrite Hget; [reflexivity | discriminate]).
Defined.

Lemma fillBuffer2D_cells_witness :
  ∃ b', fillBuffer2D TypedArray.toUint8
          (mkBuffer2D (3, 2) [0; 0; 0; 0; 0; 0]) (λ x y, x + 10 * y) = Ok b'
        ∧ get b' 2 1 false = Ok (Some 12)
        ∧ get b' 0 0 false = Ok (Some 0).
Proof.
  destruct (fillBuffer2D_cells TypedArray.toUint8 [0; 0; 0; 0; 0; 0] 3 2
              (mkBuffer2D (3, 2) [0; 0; 0; 0; 0; 0]) (λ x y, x + 10 * y)
              eq_refl) as (b' & Hfill & _ & _ & Hget).
  exists b'. split; [exact Hfill|].
  split; (rewrite Hget by lia; reflexivity).
Defined.

Lemma getNeighbors_cells_witness :
  length (getNeighbors (mkBuffer2D (2, 2) [5; 6; 7; 8]) (0, 0)) = 2%nat
  ∧ length (getNeighbors (mkBuffer2D (3, 3) [1; 2; 3; 4; 5; 6; 7; 8; 9])
              (1, 1)) = 4%nat.
Proof.
  split.
  - destruct (getNeighbors_cells [5; 6; 7; 8] 2 2
                (mkBuffer2D (2, 2) [5; 6; 7; 8]) 0 0 eq_refl) as [_ Hlen].
    exact (Hlen ltac:(lia) ltac:(lia)).
  - destruct (getNeighbors_cells [1; 2; 3; 4; 5; 6; 7; 8; 9] 3 3
                (mkBuffer2D (3, 3) [1; 2; 3; 4; 5; 6; 7; 8; 9]) 1 1 eq_refl)
      as [_ Hlen].
    exact (Hlen ltac:(lia) ltac:(lia)).
Defined.

Lemma getNeighborsInRange_cells_witness :
  NoDup (getNeighborsInRange (mkBuffer2D (2, 2) [5; 6; 7; 8]) (0, 0) 1)
  ∧ mkNeighbor 1 1 (Some 8)
    ∈ getNeighborsInRange (mkBuffer2D (2, 2) [5; 6; 7; 8]) (0, 0) 1
  ∧ mkNeighbor 0 0 (Some 5)
    ∉ getNeighborsInRange (mkBuffer2D (2, 2) [5; 6; 7; 8]) (0, 0) 1.
Proof.
  destruct (getNeighborsInRange_cells [5; 6; 7; 8] 2 2
              (mkBuffer2D (2, 2) [5; 6; 7; 8]) 0 0 1 eq_refl) as [Hmem Hnd].
  split; [exact Hnd|]. split.
  - apply Hmem. cbn. repeat split; try lia; try done.
  - intros (_ & _ & _ & _ & Hne & _)%Hmem. by apply Hne.
Defined.

End GridFacts.

(** ** Ids, task lookup and the run of a task body *)

Module ProtocolFacts.
Import Helpers Worker Protocol.

(** X6.  The k-th call (from 0) of the function [idGen()] returns gives
    k modulo [Number.MAX_SAFE_INTEGER]: ids count up from 0 and start again
    at 0 after MAX_SAFE_INTEGER - 1. *)
Theorem callIDs_wrap (n : nat) :
  callIDs idGen n
  = (λ k : nat, Z.of_nat k mod MAX_SAFE_INTEGER) <$> seq 0 n.
Proof.
  assert (0 < MAX_SAFE_INTEGER) as Hpos by done.
  assert (∀ n (k : nat) id,
            0 ≤ id ≤ MAX_SAFE_INTEGER →
            id mod MAX_SAFE_INTEGER = Z.of_nat k mod MAX_SAFE_INTEGER →
            callIDs id n
            = (λ k : nat, Z.of_nat k mod MAX_SAFE_INTEGER) <$> seq k n)
    as Hgen.
  { clear n. induction n as [|n IH]; intros k id Hid Hmod; [done|].
    cbn [callIDs seq fmap list_fmap]. unfold getID.
    assert ((if id =? MAX_SAFE_INTEGER then 0 else id)
            = Z.of_nat k mod MAX_SAFE_INTEGER) as ->.
    { destruct (Z.eqb_spec id MAX_SAFE_INTEGER) as [->|Hne].
      - by rewrite <- Hmod, Z.mod_same by lia.
      - rewrite <- Hmod. symmetry. apply Z.mod_small. lia. }
    f_equal. apply IH.
    - pose proof (Z.mod_pos_bound (Z.of_nat k) MAX_SAFE_INTEGER Hpos). lia.
    - rewrite Nat2Z.inj_succ, <- Z.add_1_r.
      rewrite (Z.add_mod (Z.of_nat k) 1 MAX_SAFE_INTEGER) by lia.
      rewrite (Z.add_mod (Z.of_nat k mod MAX_SAFE_INTEGER) 1
                 MAX_SAFE_INTEGER) by lia.
      by rewrite Z.mod_mod by lia. }
  apply Hgen; [unfold idGen; lia | done].
Qed.

Section Facts.
Context {Value Payload Buf : Type} `{EqDecision Buf}.

Lemma transfer_app (b1 b2 tr : list Buf) :
  transfer (b1 ++ b2) tr = transfer b2 (transfer b1 tr).
Proof. unfold transfer. by rewrite foldl_app. Qed.

(** X7.  [context.transfer(...buffers)] keeps the set of transferables free
    of duplicates: what was there stays in front in its order, a buffer is
    in the set afterwards exactly when it was there or is passed, and
    passing the same buffers again changes nothing. *)
Theorem transfer_set (buffers transferables : list Buf) :
  NoDup transferables →
  NoDup (transfer buffers transferables)
  ∧ (∀ b, b ∈ transfer buffers transferables ↔
          b ∈ transferables ∨ b ∈ buffers)
  ∧ transferables `prefix_of` transfer buffers transferables
  ∧ transfer buffers (transfer buffers transferables)
    = transfer buffers transferables.
Proof.
  revert transferables.
  induction buffers as [|b bs IH]; intros tr Hnd.
  - cbn. repeat split; try done.
    + by left.
    + by intros [?|?%elem_of_nil].
  - change (b :: bs) with ([b] ++ bs). rewrite !transfer_app.
    set (tr1 := transfer [b] tr).
    assert (NoDup tr1 ∧ (∀ x, x ∈ tr1 ↔ x ∈ tr ∨ x = b)
            ∧ tr `prefix_of` tr1) as (Hnd1 & Hmem1 & Hpre1).
    { subst tr1. unfold transfer. cbn [foldl].
      destruct (decide (b ∈ tr)) as [Hin|Hnin].
      - split; [done|]. split; [|done]. intros x. split; [by left|].
        by intros [?| ->].
      - split; [|split].
        + apply NoDup_app. split; [done|]. split; [|apply NoDup_singleton].
          intros x Hx ->%list_elem_of_singleton. done.
        + intros x. rewrite elem_of_app, list_elem_of_singleton. done.
        + by apply prefix_app_r. }
    destruct (IH tr1 Hnd1) as (Hnd2 & Hmem2 & Hpre2 & _).
    split; [done|]. split; [|split].
    + intros x. rewrite Hmem2, Hmem1, elem_of_app, list_elem_of_singleton.
      tauto.
    + by etrans.
    + assert (∀ l t : list Buf,
                (∀ x, x ∈ l → x ∈ t) → transfer l t = t) as Hid.
      { clear. induction l as [|x l IHl]; intros t Hsub; [done|].
        unfold transfer. cbn [foldl].
        rewrite decide_True by (apply Hsub; by left).
        apply IHl. intros y Hy. apply Hsub. by right. }
      rewrite (Hid [b]).
      * apply Hid. intros x Hx. apply Hmem2. by right.
      * intros x ->%list_elem_of_singleton. apply Hmem2. left.
        apply Hmem1. by right.
Qed.

Lemma split_noSlash (c : string) : hasSlash c = false → split c = [c].
Proof.
  induction c as [|a c IH]; [done|]. cbn [hasSlash split].
  intros [Ha Hc]%orb_false_iff. by rewrite Ha, IH.
Qed.

Lemma split_app_slash (c r : string) :
  hasSlash c = false → split (c +:+ ("/" +:+ r)) = c :: split r.
Proof.
  induction c as [|a c IH]; [done|]. cbn [hasSlash].
  intros [Ha Hc]%orb_false_iff.
  change (String a c +:+ ("/" +:+ r)) with (String a (c +:+ ("/" +:+ r))).
  cbn [split]. by rewrite Ha, IH.
Qed.

(** X8.  The task [onMessage] finds for a request type: for "c/s" it is the
    task registered as [s] under the handler [c]; whatever follows a second
    slash is ignored; a type without a slash finds no task. *)
Theorem taskFor_pieces
  (handlers : gmap string (TypeHandler Value Payload Buf))
  (c s rest : string) :
  hasSlash c = false → hasSlash s = false →
  taskFor handlers (c +:+ ("/" +:+ s)) = (h ← handlers !! c; tasks h !! s)
  ∧ taskFor handlers (c +:+ ("/" +:+ (s +:+ ("/" +:+ rest))))
    = (h ← handlers !! c; tasks h !! s)
  ∧ taskFor handlers c = (h ← handlers !! c; None).
Proof.
  intros Hc Hs. unfold taskFor, getHandler, get.
  rewrite !split_app_slash, (split_noSlash s), (split_noSlash c) by done.
  cbn. repeat split; by destruct (handlers !! c).
Qed.

Lemma taskFor_Some
  (handlers : gmap string (TypeHandler Value Payload Buf)) t task :
  taskFor handlers t = Some task ↔
  ∃ handler, getHandler handlers t = Some handler
             ∧ get handler (split t !! 1%nat) = Some task.
Proof.
  unfold taskFor. destruct (getHandler handlers t) as [h|]; cbn.
  - split; [eauto|]. by intros (h' & [= <-] & ?).
  - split; [done|]. by intros (h' & [=] & _).
Qed.

Variable bufferOf : Buf → Buf.
Variable dataCloneError :
  Env Value Buf → Message Value → option (list Buf) → option string.
Variable handlers : gmap string (TypeHandler Value Payload Buf).

(** X9.  A unit that passes the busy check ([busy] is false, or the id 0)
    and receives a request for which no task is found
    posts a single error message and nothing else (no "start"), naming the
    missing handler or the missing task and carrying no duration; it takes
    one id and is idle afterwards. *)
Theorem onMessage_unknown_type (event : IncomingMessage Payload)
  (st : State Value Buf) :
  truthy (busy st) = false →
  taskFor handlers (msgType event) = None →
  onMessage bufferOf dataCloneError handlers event st
  = mkState None (getID (nextID st)).2
      (dispatch bufferOf
         (MError (match getHandler handlers (msgType event) with
                  | Some _ => "Missing task for type: "
                  | None => "Missing handler for type: "
                  end +:+ msgType event)
            None)
         None (env st)).
Proof.
  intros Hb Hnone. unfold onMessage, tryBlock. rewrite Hb.
  destruct (getID (nextID st)) as [i next]. cbn [snd].
  unfold taskFor in Hnone.
  destruct (getHandler handlers (msgType event)) as [h|]; [|done].
  cbn in Hnone. by rewrite Hnone.
Qed.

(** Within the request whose id is [busy], when the platform takes the
    progress messages, every [progress] call posts its message and the body
    runs to its end. *)
Lemma runTask_own_request (script : TaskScript Value Buf) :
  progressTaken dataCloneError script →
  ∀ (ctx : Context Payload) tr (e : Env Value Buf),
  ∃ ms t,
    runTask bufferOf dataCloneError ctx (Some (id ctx)) script tr e
    = (mkEnv (outbox e ++ ms) t, transfer (transferred script) tr,
       scriptEnd script)
    ∧ now e ≤ t
    ∧ (λ m, (progressOf m.1, m.2)) <$> ms
      = (λ d, (Some d, None)) <$> progressDetails script.
Proof.
  unfold progressTaken.
  induction script as [r|err|detail k IH|bufs k IH|dt k IH];
    intros Htaken ctx tr e;
    cbn [runTask scriptEnd progressDetails transferred] in *.
  - exists [], (now e). rewrite app_nil_r. by destruct e.
  - exists [], (now e). rewrite app_nil_r. by destruct e.
  - unfold progress. rewrite bool_decide_eq_true_2 by done. cbn [negb].
    unfold refused. cbn [transferOptions].
    rewrite Htaken by (by left). cbn [fmap option_fmap option_map].
    destruct (IH (λ env duration d Hd,
                    Htaken env duration d (list_elem_of_further _ _ _ Hd))
                ctx tr
                (dispatch bufferOf
                   (MProgress detail
                      (if start ctx =? 0 then 0 else now e - start ctx))
                   None e)) as (ms & t & -> & Ht & Hms).
    eexists (_ :: ms), t. cbn [outbox now dispatch] in *.
    rewrite <- app_assoc. split; [reflexivity|]. split; [done|].
    cbn. by rewrite Hms.
  - destruct (IH Htaken ctx (transfer bufs tr) e)
      as (ms & t & -> & Ht & Hms).
    exists ms, t. by rewrite transfer_app.
  - destruct (IH Htaken ctx tr (mkEnv (outbox e) (now e + Z.max 0 dt)))
      as (ms & t & -> & Ht & Hms).
    exists ms, t. cbn [outbox now] in *. split; [done|]. split; [lia|done].
Qed.

(** What a unit posts for a request whose task is found, when the platform
    takes the progress messages. *)
Lemma onMessage_posts (event : IncomingMessage Payload)
  (st : State Value Buf) (task : Task Value Payload Buf) :
  truthy (busy st) = false →
  taskFor handlers (msgType event) = Some task →
  let ctx := buildContext (getID (nextID st)).1 (payload event)
               (dispatch bufferOf MStart None (env st)) in
  progressTaken dataCloneError (task ctx) →
  let st' := onMessage bufferOf dataCloneError handlers event st in
  busy st' = None ∧ nextID st' = (getID (nextID st)).2
  ∧ ∃ ms last duration,
      outbox (env st') = outbox (env st) ++ [(MStart, None)] ++ ms ++ [last]
      ∧ (λ m, (progressOf m.1, m.2)) <$> ms
        = (λ d, (Some d, None)) <$> progressDetails (task ctx)
      ∧ 0 ≤ duration
      ∧ last = match scriptEnd (task ctx) with
               | Ok r =>
                 let options :=
                   transferOptions bufferOf
                     (Some (transfer (transferred (task ctx)) [])) in
                 match dataCloneError
                         (mkEnv (outbox (env st) ++ [(MStart, None)] ++ ms)
                            (start ctx + duration))
                         (MResultDetail r duration) options with
                 | None => (MResultDetail r duration, options)
                 | Some text => (MError text (Some duration), None)
                 end
               | Throw e =>
                 (MError (if instanceofError e then message e
                          else "An unknown error occurred")
                    (Some duration), None)
               end.
Proof.
  intros Hb (handler & Hh & Ht)%taskFor_Some. cbn zeta. intros Htaken.
  unfold onMessage, tryBlock. rewrite Hb, Hh.
  destruct (getID (nextID st)) as [i next]. cbn [fst snd] in *. rewrite Ht.
  cbn [busy env].
  set (env1 := dispatch bufferOf MStart None (env st)) in *.
  set (ctx := buildContext i (payload event) env1) in *.
  destruct (runTask_own_request (task ctx) Htaken ctx [] env1)
    as (ms & t & Hrun & Hle & Hms).
  change (id ctx) with i in Hrun. rewrite Hrun. cbn [now start].
  assert (outbox env1 ++ ms = outbox (env st) ++ [(MStart, None)] ++ ms)
    as Hout by (subst env1; cbn [dispatch outbox]; by rewrite <- app_assoc).
  assert (0 ≤ t - start ctx ∧ start ctx + (t - start ctx) = t)
    as [Hd Ht'] by (subst ctx env1; cbn in Hle |- *; lia).
  destruct (scriptEnd (task ctx)) as [r|e].
  - unfold refused, createResult. rewrite Hout.
    destruct (dataCloneError _ _ _) as [text|] eqn:Hverdict;
      cbn [fmap option_fmap option_map env busy nextID catchBlock
           instanceofError message];
      (split; [done|]); (split; [done|]);
      exists ms; eexists; exists (t - start ctx);
      (split; [|split; [done|split; [done|]]]).
    + cbn [dispatch outbox transferOptions createError].
      by rewrite <- !app_assoc.
    + cbn zeta. by rewrite Ht', Hverdict.
    + cbn [dispatch outbox]. by rewrite <- !app_assoc.
    + cbn zeta. by rewrite Ht', Hverdict.
  - cbn [env busy nextID catchBlock]. split; [done|]. split; [done|].
    exists ms. eexists. exists (t - start ctx).
    split; [|split; [done|split; [done|reflexivity]]].
    cbn [dispatch outbox]. rewrite Hout. by rewrite <- !app_assoc.
Qed.

(** X10.  A unit that passes the busy check ([busy] is false, or the id 0)
    and receives a request whose task is found posts "start" and then,
    when the platform takes them, one progress message for each
    [context.progress] call of the task body, in order and with no transfer
    list.  Its last message, when the body returned, is the result detail
    with the [ArrayBuffer]s of the buffers the body marked as the transfer
    list, if the platform takes that message, and the error message with
    the text of the platform's [DataCloneError] if it does not; when the
    body threw, it is the error message made from what was thrown.  The
    duration is not negative and the unit is idle afterwards. *)
Theorem onMessage_known_type (event : IncomingMessage Payload)
  (st : State Value Buf) (task : Task Value Payload Buf) :
  truthy (busy st) = false →
  taskFor handlers (msgType event) = Some task →
  let ctx := buildContext (getID (nextID st)).1 (payload event)
               (dispatch bufferOf MStart None (env st)) in
  progressTaken dataCloneError (task ctx) →
  let st' := onMessage bufferOf dataCloneError handlers event st in
  busy st' = None ∧ nextID st' = (getID (nextID st)).2
  ∧ ∃ ms last duration,
      outbox (env st') = outbox (env st) ++ [(MStart, None)] ++ ms ++ [last]
      ∧ (λ m, (progressOf m.1, m.2)) <$> ms
        = (λ d, (Some d, None)) <$> progressDetails (task ctx)
      ∧ 0 ≤ duration
      ∧ last = match scriptEnd (task ctx) with
               | Ok r =>
                 let options :=
                   transferOptions bufferOf
                     (Some (transfer (transferred (task ctx)) [])) in
                 match dataCloneError
                         (mkEnv (outbox (env st) ++ [(MStart, None)] ++ ms)
                            (start ctx + duration))
                         (MResultDetail r duration) options with
                 | None => (MResultDetail r duration, options)
                 | Some text => (MError text (Some duration), None)
                 end
               | Throw e =>
                 (MError (if instanceofError e then message e
                          else "An unknown error occurred")
                    (Some duration), None)
               end.
Proof. apply onMessage_posts. Qed.

End Facts.

Lemma transfer_set_witness :
  transfer [1; 2; 1] [2; 3] = [2; 3; 1]
  ∧ NoDup (transfer [1; 2; 1] [2; 3])
  ∧ transfer [1; 2; 1] (transfer [1; 2; 1] [2; 3]) = transfer [1; 2; 1] [2; 3].
Proof.
  split; [reflexivity|].
  assert (NoDup [2; 3]) as Hnd.
  { apply NoDup_cons. split; [|apply NoDup_singleton].
    intros Hin%list_elem_of_singleton. discriminate Hin. }
  destruct (transfer_set [1; 2; 1] [2; 3] Hnd) as (Hnd' & _ & _ & Hidem).
  split; [exact Hnd' | exact Hidem].
Defined.

Lemma taskFor_pieces_witness :
  let task : Task Value (Config unit) Buf := λ _, Return (VString "") in
  let handlers := Worker.handlers task task task in
  taskFor handlers "terrain/heightmap"
  = (h ← handlers !! "terrain"; tasks h !! "heightmap")
  ∧ taskFor handlers "terrain/heightmap/again"
    = (h ← handlers !! "terrain"; tasks h !! "heightmap")
  ∧ taskFor handlers "terrain" = (h ← handlers !! "terrain"; None).
Proof.
  cbn zeta.
  exact (taskFor_pieces
           (Worker.handlers (λ _, Return (VString "")) (λ _, Return (VString ""))
              (λ _, Return (VString "")))
           "terrain" "heightmap" "again" eq_refl eq_refl).
Defined.

Lemma onMessage_unknown_type_witness :
  let task : Task Value (Config unit) Buf := λ _, Return (VString "") in
  let handlers := Worker.handlers task task task in
  let request cmd := mkIncoming cmd (mkConfig (1, 1) [Heightmap.Fin 0] tt) in
  outbox (env (onMessage bufferOf Worker.dataCloneError handlers
                 (request "terrain/nope") (init bufferOf)))
  = [(MReady, None);
     (MError "Missing task for type: terrain/nope" None, None)]
  ∧ outbox (env (onMessage bufferOf Worker.dataCloneError handlers
                   (request "nope/heightmap") (init bufferOf)))
    = [(MReady, None);
       (MError "Missing handler for type: nope/heightmap" None, None)].
Proof.
  cbn zeta. split.
  - rewrite onMessage_unknown_type; [|reflexivity|reflexivity]. reflexivity.
  - rewrite onMessage_unknown_type; [|reflexivity|reflexivity]. reflexivity.
Defined.

(** "terrain/generate" with a body that reports progress and returns a
    string, "erosion/thermal" with a body that marks its buffer and returns
    the object [wrapBuffer] built, and "erosion/hydraulic" with a body that
    marks a typed array and the [ArrayBuffer] under it: the first is
    answered with the result detail, the other two with the error of the
    refused message. *)
Lemma onMessage_known_type_witness :
  let generate : Task Value (Config unit) Buf :=
    λ _, Progress (VString "half") (Return (VString "done")) in
  let thermal : Task Value (Config unit) Buf :=
    λ ctx, Transfer [Float32Array (buffer (config ctx))]
             (Return (VBuffer2D (Buffer.mkBuffer2D (size (config ctx))
                                   (buffer (config ctx))))) in
  let hydraulic : Task Value (Config unit) Buf :=
    λ ctx, Transfer [Float32Array (buffer (config ctx));
                     ArrayBuffer (Float32Array (buffer (config ctx)))]
             (Return (VFloat32Array (buffer (config ctx)))) in
  let handlers := Worker.handlers generate thermal hydraulic in
  let request type :=
    mkIncoming type (mkConfig (1, 1) [Heightmap.Fin 0] tt) in
  let served type :=
    onMessage bufferOf Worker.dataCloneError handlers (request type)
      (init bufferOf) in
  (busy (served "terrain/generate") = None
   ∧ ∃ ms duration,
       outbox (env (served "terrain/generate"))
       = [(MReady, None); (MStart, None)] ++ ms
         ++ [(MResultDetail (VString "done") duration, None)]
       ∧ (λ m, (progressOf m.1, m.2)) <$> ms
         = [(Some (VString "half"), None)])
  ∧ (∃ duration,
       outbox (env (served "erosion/thermal"))
       = [(MReady, None); (MStart, None);
          (MError "DataCloneError" (Some duration), None)])
  ∧ ∃ duration,
      outbox (env (served "erosion/hydraulic"))
      = [(MReady, None); (MStart, None);
         (MError "DataCloneError" (Some duration), None)].
Proof.
  cbn zeta.
  set (generate := (λ _, Progress (VString "half") (Return (VString "done")))
                   : Task Value (Config unit) Buf).
  set (thermal :=
         (λ ctx, Transfer [Float32Array (buffer (config ctx))]
                   (Return (VBuffer2D (Buffer.mkBuffer2D (size (config ctx))
                                         (buffer (config ctx))))))
         : Task Value (Config unit) Buf).
  set (hydraulic :=
         (λ ctx, Transfer [Float32Array (buffer (config ctx));
                           ArrayBuffer (Float32Array (buffer (config ctx)))]
                   (Return (VFloat32Array (buffer (config ctx)))))
         : Task Value (Config unit) Buf).
  split; [|split].
  - destruct (onMessage_known_type bufferOf Worker.dataCloneError
                (Worker.handlers generate thermal hydraulic)
                (mkIncoming "terrain/generate"
                   (mkConfig (1, 1) [Heightmap.Fin 0] tt))
                (init bufferOf) generate eq_refl eq_refl)
      as (Hbusy & _ & ms & last & duration & Hout & Hms & _ & Hlast).
    { intros env duration detail Hin.
      apply list_elem_of_singleton in Hin. subst detail. reflexivity. }
    split; [exact Hbusy|]. exists ms, duration.
    split; [|exact Hms]. rewrite Hout, Hlast. reflexivity.
  - destruct (onMessage_known_type bufferOf Worker.dataCloneError
                (Worker.handlers generate thermal hydraulic)
                (mkIncoming "erosion/thermal"
                   (mkConfig (1, 1) [Heightmap.Fin 0] tt))
                (init bufferOf) thermal eq_refl eq_refl)
      as (_ & _ & ms & last & duration & Hout & Hms & _ & Hlast).
    { intros env duration detail Hin. by apply elem_of_nil in Hin. }
    exists duration. destruct ms; [|discriminate Hms].
    rewrite Hout, Hlast. reflexivity.
  - destruct (onMessage_known_type bufferOf Worker.dataCloneError
                (Worker.handlers generate thermal hydraulic)
                (mkIncoming "erosion/hydraulic"
                   (mkConfig (1, 1) [Heightmap.Fin 0] tt))
                (init bufferOf) hydraulic eq_refl eq_refl)
      as (_ & _ & ms & last & duration & Hout & Hms & _ & Hlast).
    { intros env duration detail Hin. by apply elem_of_nil in Hin. }
    exists duration. destruct ms; [|discriminate Hms].
    rewrite Hout, Hlast. reflexivity.
Defined.

End ProtocolFacts.

(** ** The controller's side of a request *)

Module TargetFacts.
Import Helpers Worker Controller Protocol Target.

Section Facts.
Context {Value : Type}.
Implicit Types (st : Target.State Value) (evs : list (WorkerEvent Value)).

Lemma run_not_listening evs st : listening st = false → run evs st = st.
Proof.
  intros Hl. induction evs as [|ev evs IH]; [done|].
  cbn [run foldl]. unfold deliver at 2. rewrite Hl. exact IH.
Qed.

(** While the listeners are on the worker no terminal event has been
    dispatched and nothing is recorded; once they are off, exactly one has
    been, the last. *)
Lemma run_events evs :
  let st := run evs init in
  (listening st = true →
   Forall (λ d, isTerminal d = false) (events st)
   ∧ finished st = false ∧ error st = None)
  ∧ (listening st = false →
     ∃ pre t, events st = pre ++ [t]
              ∧ Forall (λ d, isTerminal d = false) pre
              ∧ isTerminal t = true).
Proof.
  cbn zeta. induction evs as [|ev evs IH] using rev_ind.
  - cbn. split; [done|discriminate].
  - unfold run in *. rewrite foldl_snoc.
    set (st := foldl deliver init evs) in *.
    destruct (listening st) eqn:Hl.
    + destruct IH as [(Hnt & Hfin & Herr) _]; [done|].
      unfold deliver. rewrite Hl.
      destruct ev as [[| |detail d|msg d|r d]|e];
        cbn [onMessage typeOf payloadOf onError listening events finished
             error].
      * split; [discriminate|]. intros _. by eexists _, _.
      * split; [|by rewrite Hl]. intros _. split; [|done].
        apply Forall_app. split; [done|]. by constructor.
      * split; [|by rewrite Hl]. intros _. split; [|done].
        apply Forall_app. split; [done|]. by constructor.
      * split; [discriminate|]. intros _. by eexists _, _.
      * split; [discriminate|]. intros _. by eexists _, _.
      * split; [discriminate|]. intros _. by eexists _, _.
    + unfold deliver. rewrite !Hl. exact IH.
Qed.

(** The properties of the returned object are what [Object.assign] copied,
    whatever reaches the listeners. *)
Lemma run_returned evs :
  returned (run evs init) = mkReturned false None None.
Proof.
  induction evs as [|ev evs IH] using rev_ind; [done|].
  unfold run in *. rewrite foldl_snoc.
  set (st := foldl deliver init evs) in *.
  unfold deliver. destruct (listening st); [|done].
  destruct ev as [[| |detail d|msg d|r d]|e];
    cbn [onMessage typeOf payloadOf onError returned]; done.
Qed.

(** No message of the unit reaches the branch "result". *)
Lemma run_no_result evs :
  let st := run evs init in
  result st = None ∧ Forall (λ d, ∀ p, d ≠ DResult p) (events st).
Proof.
  cbn zeta. induction evs as [|ev evs IH] using rev_ind; [done|].
  unfold run in *. rewrite foldl_snoc.
  set (st := foldl deliver init evs) in *. destruct IH as [Hres Hev].
  unfold deliver. destruct (listening st); [|done].
  destruct ev as [[| |detail d|msg d|r d]|e];
    cbn [onMessage typeOf payloadOf onError result events];
    (split; [done|]); apply Forall_app; (split; [done|]);
    by constructor.
Qed.

(** X11.  Whatever messages of a unit and error events reach [executeTask],
    it never dispatches a "result" event and never sets [result]; while its
    listeners are on the worker no terminal event has been dispatched; once
    they are off exactly one has been, the last event, and nothing that
    reaches the worker later changes the target. *)
Theorem target_one_terminal evs later :
  let st := run evs init in
  result st = None
  ∧ Forall (λ d, ∀ p, d ≠ DResult p) (events st)
  ∧ (listening st = true → Forall (λ d, isTerminal d = false) (events st))
  ∧ (listening st = false →
     (∃ pre t, events st = pre ++ [t]
               ∧ Forall (λ d, isTerminal d = false) pre
               ∧ isTerminal t = true)
     ∧ run later st = st).
Proof.
  cbn zeta. destruct (run_events evs) as [Hon Hoff].
  destruct (run_no_result evs) as [Hres Hev].
  split; [done|]. split; [done|]. split.
  - intros Hl. by apply Hon.
  - intros Hl. split; [by apply Hoff | by apply run_not_listening].
Qed.

(** X12.  When the worker's "error" event reaches [executeTask] while it
    listens, the error is dispatched on the target and the listeners are
    removed, but [finished] stays false and [error] stays undefined. *)
Theorem target_fault_not_finished evs (e : Thrown) :
  listening (run evs init) = true →
  let st := run (evs ++ [OnError e]) init in
  events st = events (run evs init) ++ [DErrorEvent e]
  ∧ listening st = false
  ∧ finished st = false ∧ error st = None ∧ result st = None.
Proof.
  intros Hl. cbn zeta.
  destruct (run_events evs) as [Hon _].
  destruct Hon as (_ & Hfin & Herr); [done|].
  destruct (run_no_result evs) as [Hres _].
  unfold run in *. rewrite foldl_snoc.
  set (st := foldl deliver init evs) in *.
  unfold deliver. rewrite Hl.
  cbn [onError events listening finished error result]. done.
Qed.

End Facts.

Section Composition.
Context {Value Payload Buf : Type} `{EqDecision Buf}.
Variable bufferOf : Buf → Buf.
Variable dataCloneError :
  Env Value Buf → Message Value → option (list Buf) → option string.
Variable handlers : gmap string (TypeHandler Value Payload Buf).

Lemma run_progress (ms : list (Message Value * option (list Buf)))
  (details : list Value) (st : Target.State Value) :
  (λ m, (progressOf m.1, m.2)) <$> ms = (λ d, (Some d, None)) <$> details →
  listening st = true →
  ∃ ds, run (OnMessage <$> ms.*1) st
        = Target.mkState true (finished st) (result st) (error st)
            (events st ++ ds) (returned st)
        ∧ Forall (λ d, isTerminal d = false) ds
        ∧ length ds = length details.
Proof.
  revert details st. induction ms as [|[m o] ms IH]; intros details st Hms Hl.
  - destruct details; [|done]. exists []. rewrite app_nil_r.
    destruct st. cbn in *. by subst.
  - destruct details as [|d details]; [done|].
    cbn in Hms. injection Hms as Hm Ho Hms.
    destruct m as [| |detail dur| |]; try done.
    cbn [fmap list_fmap fst run foldl]. unfold deliver at 2. rewrite Hl.
    cbn [onMessage typeOf payloadOf].
    destruct (IH details
                (Target.mkState (listening st) (finished st) (result st)
                   (error st)
                   (events st ++ [DProgress (Some (PProgress detail dur))])
                   (returned st))
                Hms Hl)
      as (ds & Hrun & Hnt & Hlen).
    exists (DProgress (Some (PProgress detail dur)) :: ds).
    unfold run in Hrun. rewrite Hrun.
    cbn [finished result error events returned].
    rewrite <- app_assoc. split; [done|]. split; [by constructor|].
    cbn. by rewrite Hlen.
Qed.

(** X13.  The unit's [onMessage] and the controller's [executeTask] put
    together, for a unit that passes the busy check, a request whose task
    is found, and a platform that takes the body's progress messages and
    gives [verdict] on its result message.  Of what the unit posts, the
    controller dispatches "start", one "progress" event for each progress
    call, and then an "error" event, also when the task body returned: the
    answer the platform took is read as the error "Invalid message
    received", and the one it refused comes as the error with the text of
    the platform's exception.  The closure's [finished] is then true and
    its [result] undefined; the properties [finished], [error] and [result]
    of the object [executeTask] returned stay [false], undefined and
    undefined. *)
Theorem unit_answer_read_as_error (event : IncomingMessage Payload)
  (st : Worker.State Value Buf) (task : Task Value Payload Buf)
  (verdict : option string) :
  truthy (busy st) = false →
  taskFor handlers (msgType event) = Some task →
  let ctx := buildContext (getID (nextID st)).1 (payload event)
               (dispatch bufferOf MStart None (env st)) in
  progressTaken dataCloneError (task ctx) →
  (∀ r env duration,
     scriptEnd (task ctx) = Ok r →
     dataCloneError env (MResultDetail r duration)
       (transferOptions bufferOf
          (Some (transfer (transferred (task ctx)) [])))
     = verdict) →
  let posted :=
    postedSince (length (outbox (env st)))
      (Worker.onMessage bufferOf dataCloneError handlers event st) in
  let failure :=
    JsError "Error"
      match scriptEnd (task ctx) with
      | Ok _ => default "Invalid message received" verdict
      | Throw e => if instanceofError e then message e
                   else "An unknown error occurred"
      end in
  ∃ ds,
    run (OnMessage <$> posted) init
    = Target.mkState false true None (Some failure)
        ([DStart] ++ ds ++ [DErrorEvent failure])
        (mkReturned false None None)
    ∧ Forall (λ d, isTerminal d = false) ds
    ∧ length ds = length (progressDetails (task ctx)).
Proof.
  intros Hb Ht. cbn zeta. intros Htaken Hverdict.
  destruct (ProtocolFacts.onMessage_posts bufferOf dataCloneError handlers
              event st task Hb Ht Htaken)
    as (_ & _ & ms & last & duration & Hout & Hms & _ & Hlast).
  unfold postedSince. rewrite Hout, drop_app_length.
  assert (OnMessage <$> (fst <$> [(MStart, None)] ++ ms ++ [last])
          = OnMessage MStart :: (OnMessage <$> ms.*1)
              ++ [OnMessage (Value := Value) last.1]) as ->
    by (cbn; by rewrite !fmap_app).
  destruct (run_progress ms (progressDetails _)
              (Target.mkState true false None None [DStart]
                 (mkReturned false None None)) Hms eq_refl)
    as (ds & Hrun & Hnt & Hlen).
  exists ds. split; [|done].
  unfold run in *. cbn [foldl]. rewrite foldl_app.
  change (deliver Target.init (OnMessage MStart))
    with (Target.mkState (Value := Value) true false None None [DStart]
            (mkReturned false None None)).
  rewrite Hrun. cbn [foldl finished result error events returned].
  unfold deliver. cbn [listening]. rewrite Hlast.
  destruct (scriptEnd _) as [r|e].
  - cbn zeta. rewrite (Hverdict r _ _ eq_refl).
    destruct verdict; cbn [fst Target.onMessage typeOf payloadOf default];
      done.
  - cbn [fst Target.onMessage typeOf payloadOf]. done.
Qed.

End Composition.

Lemma target_one_terminal_witness :
  let st := Target.run [OnMessage MStart; OnMessage (MError "boom" None)]
              (Target.init (Value := Z)) in
  Target.run [OnMessage MStart; OnError (JsError "Error" "late")] st = st
  ∧ Forall (λ d, isTerminal d = false)
      (events (Target.run [OnMessage MStart; OnMessage (MProgress 1 0)]
                 (Target.init (Value := Z)))).
Proof.
  cbn zeta. split.
  - destruct (target_one_terminal
                [OnMessage MStart; OnMessage (MError "boom" None)]
                [OnMessage (Value := Z) MStart;
                 OnError (JsError "Error" "late")])
      as (_ & _ & _ & Hoff).
    exact (proj2 (Hoff eq_refl)).
  - destruct (target_one_terminal
                [OnMessage MStart; OnMessage (Value := Z) (MProgress 1 0)] [])
      as (_ & _ & Hon & _).
    exact (Hon eq_refl).
Defined.

Lemma target_fault_not_finished_witness :
  let st := Target.run [OnMessage MStart; OnError (JsError "Error" "crash")]
              (Target.init (Value := Z)) in
  events st = [DStart; DErrorEvent (JsError "Error" "crash")]
  ∧ listening st = false
  ∧ finished st = false ∧ error st = None ∧ result st = None.
Proof.
  exact (target_fault_not_finished [OnMessage (Value := Z) MStart]
           (JsError "Error" "crash") eq_refl).
Defined.

(** "terrain/generate" with a body that reports progress and returns a
    string, which the platform takes, and "erosion/thermal" with a body
    that returns the object [wrapBuffer] built, which it refuses. *)
Lemma unit_answer_read_as_error_witness :
  let generate : Task Value (Config unit) Buf :=
    λ _, Progress (VString "half") (Return (VString "done")) in
  let thermal : Task Value (Config unit) Buf :=
    λ ctx, Transfer [Float32Array (buffer (config ctx))]
             (Return (VBuffer2D (Buffer.mkBuffer2D (size (config ctx))
                                   (buffer (config ctx))))) in
  let handlers := Worker.handlers generate thermal generate in
  let posted type :=
    postedSince 1
      (Worker.onMessage bufferOf Worker.dataCloneError handlers
         (mkIncoming type (mkConfig (1, 1) [Heightmap.Fin 0] tt))
         (Worker.init bufferOf)) in
  let read text ds :=
    Target.mkState false true None (Some (JsError "Error" text))
      ([DStart] ++ ds ++ [DErrorEvent (JsError "Error" text)])
      (mkReturned false None None) in
  (∃ ds, Target.run (OnMessage <$> posted "terrain/generate") Target.init
         = read "Invalid message received" ds
         ∧ length ds = 1%nat)
  ∧ (∃ ds, Target.run (OnMessage <$> posted "erosion/thermal") Target.init
           = read "DataCloneError" ds
           ∧ length ds = 0%nat).
Proof.
  cbn zeta.
  set (generate := (λ _, Progress (VString "half") (Return (VString "done")))
                   : Task Value (Config unit) Buf).
  set (thermal :=
         (λ ctx, Transfer [Float32Array (buffer (config ctx))]
                   (Return (VBuffer2D (Buffer.mkBuffer2D (size (config ctx))
                                         (buffer (config ctx))))))
         : Task Value (Config unit) Buf).
  split.
  - destruct (unit_answer_read_as_error bufferOf Worker.dataCloneError
                (Worker.handlers generate thermal generate)
                (mkIncoming "terrain/generate"
                   (mkConfig (1, 1) [Heightmap.Fin 0] tt))
                (Worker.init bufferOf) generate None eq_refl eq_refl)
      as (ds & Hrun & _ & Hlen).
    { intros env duration detail Hin.
      apply list_elem_of_singleton in Hin. subst detail. reflexivity. }
    { intros r env duration [= <-]. reflexivity. }
    exists ds. split; [exact Hrun | exact Hlen].
  - destruct (unit_answer_read_as_error bufferOf Worker.dataCloneError
                (Worker.handlers generate thermal generate)
                (mkIncoming "erosion/thermal"
                   (mkConfig (1, 1) [Heightmap.Fin 0] tt))
                (Worker.init bufferOf) thermal (Some "DataCloneError")
                eq_refl eq_refl)
      as (ds & Hrun & _ & Hlen).
    { intros env duration detail Hin. by apply elem_of_nil in Hin. }
    { intros r env duration [= <-]. reflexivity. }
    exists ds. split; [exact Hrun | exact Hlen].
Defined.

End TargetFacts.

(** ** Waiting for a worker to be ready *)

Module ReadyFacts.
Import Ready.

Lemma run_settled (evs : list Event) (st : State) :
  listening st = false → timer st = false → run evs st = st.
Proof.
  intros Hl Ht. induction evs as [|ev evs IH]; [done|].
  cbn [run foldl]. unfold step at 2. rewrite Hl, Ht.
  destruct ev; exact IH.
Qed.

Lemma run_fresh (evs : list Event) (armed : bool) :
  settled (run evs (mkState None true armed))
  = head (omap (decides armed) evs).
Proof.
  induction evs as [|ev evs IH]; [done|].
  cbn [run foldl omap list_omap]. unfold step at 2, decides at 1.
  cbn [listening timer].
  destruct ev as [type|e|].
  - destruct (isReady type); [|exact IH].
    fold (run evs (settle (Ok tt) (mkState None true armed))).
    by rewrite run_settled.
  - fold (run evs (settle (Throw e) (mkState None true armed))).
    by rewrite run_settled.
  - destruct armed; [|exact IH].
    fold (run evs (settle (Throw (JsError "Error" "Worker timed out"))
                     (mkState None true true))).
    by rewrite run_settled.
Qed.

(** X14.  The promise of [waitForReady] settles with the first event that
    can settle it and is not changed by later ones: a message of type
    "ready" resolves it, the worker's "error" event rejects it with the
    event's error, and the timer, set only for a timeout above 0, rejects
    it with "Worker timed out"; any other message is ignored. *)
Theorem waitForReady_first (timeout : option Z) (evs : list Event) :
  let armed := match timeout with
               | Some t => bool_decide (0 < t)
               | None => false
               end in
  settled (run evs (waitForReady timeout))
  = head (omap (decides armed) evs).
Proof.
  cbn zeta. rewrite <- run_fresh. do 2 f_equal. unfold waitForReady.
  f_equal. destruct timeout as [t|]; [|done].
  case_bool_decide; destruct (Z.eqb_spec t 0);
    destruct (Z.gtb_spec t 0); cbn; try done; lia.
Qed.

End ReadyFacts.

(** ** More of the pool *)

Module PoolMoreFacts.
Import Pool.

Lemma run_snoc (ops : list Op) (op : Op) (p : State) :
  run (ops ++ [op]) p = step (run ops p) op.
Proof. unfold run. apply foldl_snoc. Qed.

(** The pool once [n] workers have reported ready. *)
Lemma spawned_state (n : nat) :
  run (replicate n (Spawn false)) empty
  = mkState (seq 0 n) (seq 0 n) [] None [] [] [] (seq 0 n) n.
Proof.
  induction n as [|n IH]; [done|].
  by rewrite replicate_S_end, run_snoc, IH, !seq_S.
Qed.

Lemma acquired_state (n k : nat) :
  (k ≤ n)%nat →
  run (replicate k Acquire) (run (replicate n (Spawn false)) empty)
  = mkState (seq 0 n) (seq k (n - k)) [] None [] [] [] (seq 0 n) n.
Proof.
  intros Hk. induction k as [|k IH].
  - rewrite spawned_state. cbn. by rewrite Nat.sub_0_r.
  - rewrite replicate_S_end, run_snoc, IH by lia.
    cbn [step]. unfold acquire. cbn [workers available].
    destruct n as [|n]; [lia|]. cbn [seq].
    replace (S n - k)%nat with (S (n - k)) by lia. cbn [seq snd].
    by replace (S n - S k)%nat with (n - k)%nat by lia.
Qed.

(** X15.  A pool that n ≥ 1 workers have joined, all idle, hands them out
    in the order in which they joined (the order in which they reported
    ready), one to each of the first n [acquire] calls; the next call is
    queued as the first pending deferred. *)
Theorem ready_pool_acquires (n : nat) :
  (0 < n)%nat →
  let ready := run (replicate n (Spawn false)) empty in
  (∀ k, (k < n)%nat →
        (acquire (run (replicate k Acquire) ready)).1 = Ok (Now k))
  ∧ (acquire (run (replicate n Acquire) ready)).1 = Ok (Later 0%nat)
  ∧ pending (run (replicate (S n) Acquire) ready) = [0%nat].
Proof.
  intros Hn. cbn zeta. split; [|split].
  - intros k Hk. rewrite acquired_state by lia. unfold acquire.
    cbn [workers available]. destruct n as [|n]; [lia|]. cbn [seq].
    by replace (S n - k)%nat with (S (n - k)) by lia.
  - rewrite acquired_state by lia. unfold acquire.
    cbn [workers available]. destruct n as [|n]; [lia|].
    by rewrite Nat.sub_diag.
  - rewrite replicate_S_end, run_snoc, acquired_state by lia.
    cbn [step]. unfold acquire. cbn [workers available].
    destruct n as [|n]; [lia|]. by rewrite Nat.sub_diag.
Qed.

Lemma release_to_idle (p : State) (w : Worker) :
  w ∈ workers p → pending p = [] →
  release w p
  = Ok (mkState (workers p) (available p ++ [w]) [] (maxPending p)
          (promises p) (timers p) (terminated p) (listeners p) (created p)).
Proof.
  intros Hw Hp. unfold release. rewrite bool_decide_eq_true_2 by done.
  by rewrite Hp.
Qed.

(** X16.  [release] does not check whether the worker is already idle:
    with no caller queued, releasing a worker of the pool twice puts it in
    the idle list twice, and on a pool with no other idle worker the next
    two [acquire] calls both return it. *)
Theorem release_twice (p : State) (w : Worker) :
  w ∈ workers p → pending p = [] →
  let p2 := run [Release w; Release w] p in
  available p2 = available p ++ [w; w]
  ∧ (available p = [] →
     (acquire p2).1 = Ok (Now w)
     ∧ (acquire (acquire p2).2).1 = Ok (Now w)).
Proof.
  intros Hw Hp. cbn zeta. cbn [run foldl step].
  rewrite (release_to_idle p w Hw Hp).
  rewrite release_to_idle by done.
  cbn [available workers maxPending promises timers terminated listeners
       created].
  rewrite <- app_assoc. split; [done|].
  intros Ha. rewrite Ha. unfold acquire. cbn [workers available app].
  destruct (workers p) as [|w0 ws] eqn:Hws; [by apply elem_of_nil in Hw|].
  cbn [fst snd workers available]. done.
Qed.

(** X17.  In every pool that operations have made, every idle worker is a
    worker of the pool, no worker is in the pool twice, the pool holds at
    most as many workers as were created, and a worker that [acquire]
    returns at once is a worker of the pool. *)
Theorem idle_are_workers (ops : list Op) :
  let p := run ops empty in
  (∀ w, w ∈ available p → w ∈ workers p)
  ∧ NoDup (workers p)
  ∧ (length (workers p) ≤ created p)%nat
  ∧ (∀ w, (acquire p).1 = Ok (Now w) → w ∈ workers p).
Proof.
  cbn zeta.
  assert (let p := run ops empty in
          (∀ w, w ∈ available p → w ∈ workers p)
          ∧ NoDup (workers p)
          ∧ (length (workers p) ≤ created p)%nat) as (Hidle & Hnd & Hlen).
  { cbn zeta. induction ops as [|op ops IH] using rev_ind.
    - cbn. split; [|split; [apply NoDup_nil_2|lia]].
      intros w Hw. by apply elem_of_nil in Hw.
    - unfold run in *. rewrite foldl_snoc.
      pose proof (PoolFacts.wellFormed_run ops empty
                    PoolFacts.wellFormed_empty) as (Hlist & Hcreated & _).
      unfold run in *.
      set (p := foldl step empty ops) in *. clearbody p.
      destruct IH as (Hidle & Hnd & Hlen).
      destruct p as [ws av pe mp pr ti te li cr].
      cbn [workers available listeners created] in *.
      destruct op as [b| |w| |w| |v]; cbn [step].
      + unfold createWorker. cbn. split; [|split].
        * destruct b; cbn; intros w Hw.
          -- apply elem_of_app. left. auto.
          -- apply elem_of_app in Hw as [Hw|Hw]; apply elem_of_app; auto.
        * apply NoDup_app. split; [done|]. split; [|apply NoDup_singleton].
          intros w Hw ->%list_elem_of_singleton.
          apply Hlist, Hcreated in Hw. lia.
        * rewrite length_app. cbn. lia.
      + unfold acquire. cbn [workers available].
        destruct ws as [|w0 ws]; [done|].
        destruct av as [|next rest].
        * by destruct (atCapacity _).
        * cbn. split; [|done]. intros w Hw. apply Hidle. by right.
      + unfold release. cbn [workers pending].
        destruct (bool_decide_reflect (w ∈ ws)); [|done].
        cbn [negb]. destruct pe as [|d rest]; cbn; [|done].
        split; [|done]. intros w' [?| ->%list_elem_of_singleton]%elem_of_app;
          auto.
      + unfold close. cbn [workers]. destruct ws; [done|].
        cbn. split; [|split; [apply NoDup_nil_2|lia]].
        intros w' Hw. by apply elem_of_nil in Hw.
      + unfold onWorkerError. cbn [listeners].
        destruct (decide (w ∈ li)); [|done].
        cbn. split; [|split].
        * intros w' [Hne Hw']%list_elem_of_filter.
          apply list_elem_of_filter. auto.
        * by apply NoDup_filter.
        * pose proof (length_filter (λ w0, w0 ≠ w) ws). lia.
      + unfold runTimer. cbn [timers]. by destruct ti as [|[d w'] rest].
      + unfold setMaxPending. by destruct (v <? 0). }
  split; [done|]. split; [done|]. split; [done|].
  generalize dependent (run ops empty). intros p Hidle _ _ w.
  unfold acquire. destruct (workers p); [done|].
  destruct (available p) as [|next rest].
  - by destruct (atCapacity p).
  - cbn. intros [= ->]. apply Hidle. by left.
Qed.

(** X18.  [close()] on a pool that operations have made and that still has
    a worker: the three lists are empty, every worker of the pool is
    terminated, the promise of every queued deferred is rejected with
    "Worker pool closed"; afterwards [acquire] throws "No workers in pool",
    [release] throws "Worker is not in pool" for every worker, and a second
    [close()] changes nothing. *)
Theorem close_live_pool (ops : list Op) :
  let p := run ops empty in
  workers p ≠ [] →
  let c := close p in
  workers c = [] ∧ available c = [] ∧ pending c = []
  ∧ (∀ w, w ∈ workers p → w ∈ terminated c)
  ∧ (∀ d, d ∈ pending p → promises c !! d = Some (Rejected poolClosed))
  ∧ acquire c = (Throw (JsError "Error" "No workers in pool"), c)
  ∧ (∀ w, release w c = Throw (JsError "Error" "Worker is not in pool"))
  ∧ close c = c.
Proof.
  cbn zeta. intros Hw.
  pose proof (PoolFacts.wellFormed_run ops empty PoolFacts.wellFormed_empty)
    as (_ & _ & _ & _ & _ & Hun & _).
  destruct (PoolFacts.close_populated _ Hw) as (Hws & Hav & Hpe & Hte & Hrej).
  split; [done|]. split; [done|]. split; [done|].
  split; [|split; [|split; [|split]]].
  - intros w Hin. rewrite Hte. apply elem_of_app. by right.
  - intros d Hd. apply Hrej; [done|]. by apply Hun.
  - unfold acquire. by rewrite Hws.
  - intros w. unfold release. rewrite Hws.
    rewrite bool_decide_eq_false_2; [done|]. by intros ?%elem_of_nil.
  - unfold close at 1. by rewrite Hws.
Qed.

(** X19.  [with(task)] on a pool with an idle worker and nobody queued,
    when the task leaves the pool as it finds it: the task is called with
    the first idle worker, on the pool without that worker in its idle
    list; the worker then goes to the end of the idle list; the caller gets
    the value that call returned, or the aggregate "Worker task failed"
    holding the error that call threw; [release] is called once, on that
    worker. *)
Theorem with_idle_worker {Return : Type}
  (await_ : Deferred → State → State * Result Worker)
  (task : Worker → State → State * Result Return)
  (p : State) (w : Worker) (rest : list Worker) :
  w ∈ workers p → available p = w :: rest → pending p = [] →
  let taken := mkState (workers p) rest [] (maxPending p) (promises p)
                 (timers p) (terminated p) (listeners p) (created p) in
  (task w taken).1 = taken →
  with_ await_ task p
  = (mkState (workers p) (rest ++ [w]) [] (maxPending p) (promises p)
       (timers p) (terminated p) (listeners p) (created p),
     match (task w taken).2 with
     | Ok r => Ok r
     | Throw e => Throw (JsAggregate [e] "Worker task failed")
     end,
     [w]).
Proof.
  intros Hw Ha Hp. destruct p as [ws av pe mp pr ti te li cr].
  cbn [workers available pending maxPending promises timers terminated
       listeners created] in *. subst av pe. cbn zeta. intros Htask.
  unfold with_, acquirePhase, acquire. cbn [workers available].
  destruct ws as [|w0 ws']; [by apply elem_of_nil in Hw|].
  cbn [pending maxPending promises timers terminated listeners created].
  destruct (task w _) as [q outcome]. cbn [fst snd] in *. subst q.
  unfold release. cbn [workers pending].
  by rewrite bool_decide_eq_true_2 by done.
Qed.


Lemma idle_are_workers_witness :
  let p := run [Spawn false; Spawn true; Acquire; Release 0%nat; Fault 1%nat]
             empty in
  NoDup (workers p) ∧ (length (workers p) ≤ created p)%nat.
Proof.
  cbn zeta.
  destruct (idle_are_workers
              [Spawn false; Spawn true; Acquire; Release 0%nat; Fault 1%nat])
    as (_ & Hnd & Hlen & _).
  split; [exact Hnd | exact Hlen].
Defined.

Lemma ready_pool_acquires_witness :
  let ready := run [Spawn false; Spawn false] empty in
  (acquire ready).1 = Ok (Now 0%nat)
  ∧ (acquire (run [Acquire] ready)).1 = Ok (Now 1%nat)
  ∧ (acquire (run [Acquire; Acquire] ready)).1 = Ok (Later 0%nat)
  ∧ pending (run [Acquire; Acquire; Acquire] ready) = [0%nat].
Proof.
  cbn zeta.
  destruct (ready_pool_acquires 2 ltac:(lia)) as (Hnow & Hlater & Hpending).
  split; [exact (Hnow 0%nat ltac:(lia))|].
  split; [exact (Hnow 1%nat ltac:(lia))|].
  split; [exact Hlater | exact Hpending].
Defined.

Lemma release_twice_witness :
  let p := run [Spawn false; Acquire] empty in
  let p2 := run [Release 0%nat; Release 0%nat] p in
  available p2 = [0%nat; 0%nat]
  ∧ (acquire p2).1 = Ok (Now 0%nat)
  ∧ (acquire (acquire p2).2).1 = Ok (Now 0%nat).
Proof.
  cbn zeta.
  destruct (release_twice (run [Spawn false; Acquire] empty) 0%nat) as [Ha Hb].
  - apply list_elem_of_In. left. reflexivity.
  - reflexivity.
  - split; [exact Ha | exact (Hb eq_refl)].
Defined.

Lemma close_live_pool_witness :
  let c := close (run [Spawn false; Acquire; Acquire; Acquire] empty) in
  workers c = [] ∧ pending c = []
  ∧ promises c = [Rejected poolClosed; Rejected poolClosed]
  ∧ acquire c = (Throw (JsError "Error" "No workers in pool"), c)
  ∧ release 0%nat c = Throw (JsError "Error" "Worker is not in pool")
  ∧ close c = c.
Proof.
  cbn zeta.
  destruct (close_live_pool [Spawn false; Acquire; Acquire; Acquire])
    as (Hws & _ & Hpe & _ & _ & Hacq & Hrel & Hclose); [discriminate|].
  split; [exact Hws|]. split; [exact Hpe|]. split; [reflexivity|].
  split; [exact Hacq|]. split; [exact (Hrel 0%nat) | exact Hclose].
Defined.

(** Two idle workers: the task gets worker 0, and worker 1 when worker 0
    is out. *)
Lemma with_idle_worker_witness :
  let p := run [Spawn false; Spawn false] empty in
  let await_ := λ (d : Deferred) (q : State), (q, Ok 0%nat) in
  let task := λ (w : Worker) (q : State), (q, Ok (Z.of_nat w + 5)) in
  let failing := λ (w : Worker) (q : State),
                   (q, Throw (A := Z) (JsError "Error" "boom")) in
  (with_ await_ task p).1.2 = Ok 5
  ∧ available (with_ await_ task p).1.1 = [1; 0]%nat
  ∧ (with_ await_ task (run [Acquire] p)).1.2 = Ok 6
  ∧ (with_ await_ failing p).1.2
    = Throw (JsAggregate [JsError "Error" "boom"] "Worker task failed").
Proof.
  cbn zeta.
  assert (0%nat ∈ workers (run [Spawn false; Spawn false] empty)) as Hw0
    by (apply list_elem_of_In; left; reflexivity).
  assert (1%nat ∈ workers (run [Acquire] (run [Spawn false; Spawn false] empty)))
    as Hw1 by (apply list_elem_of_In; right; left; reflexivity).
  split; [|split; [|split]].
  - by rewrite (with_idle_worker (λ (d : Deferred) (q : State), (q, Ok 0%nat))
                  (λ (w : Worker) (q : State), (q, Ok (Z.of_nat w + 5)))
                  (run [Spawn false; Spawn false] empty) 0%nat [1%nat]
                  Hw0 eq_refl eq_refl eq_refl).
  - by rewrite (with_idle_worker (λ (d : Deferred) (q : State), (q, Ok 0%nat))
                  (λ (w : Worker) (q : State), (q, Ok (Z.of_nat w + 5)))
                  (run [Spawn false; Spawn false] empty) 0%nat [1%nat]
                  Hw0 eq_refl eq_refl eq_refl).
  - by rewrite (with_idle_worker (λ (d : Deferred) (q : State), (q, Ok 0%nat))
                  (λ (w : Worker) (q : State), (q, Ok (Z.of_nat w + 5)))
                  (run [Acquire] (run [Spawn false; Spawn false] empty)) 1%nat []
                  Hw1 eq_refl eq_refl eq_refl).
  - by rewrite (with_idle_worker (λ (d : Deferred) (q : State), (q, Ok 0%nat))
                  (λ (w : Worker) (q : State),
                     (q, Throw (A := Z) (JsError "Error" "boom")))
                  (run [Spawn false; Spawn false] empty) 0%nat [1%nat]
                  Hw0 eq_refl eq_refl eq_refl).
Defined.

(** X22.  While [maxPending] is m and is not set again, the queue of
    pending deferreds does not grow beyond a bound that is at least m and
    at least its current length, whatever else happens to the pool. *)
Theorem pending_bounded (ops : list Op) (p : State) (m bound : Z) :
  maxPending p = Some m → m ≤ bound →
  Z.of_nat (length (pending p)) ≤ bound →
  Forall (λ op, ∀ v, op ≠ SetMaxPending v) ops →
  maxPending (run ops p) = Some m
  ∧ Z.of_nat (length (pending (run ops p))) ≤ bound.
Proof.
  intros Hm Hmb Hlen Hops. revert p Hm Hlen.
  induction Hops as [|op ops Hop _ IH]; intros p Hm Hlen; [done|].
  cbn [run foldl]. apply IH.
  - destruct op as [b| |w| |w| |v]; cbn [step]; try done;
      [| | | | |by destruct (Hop v)].
    + unfold acquire. destruct (workers p); [done|].
      destruct (available p); [|done]. by destruct (atCapacity p).
    + unfold release. destruct (negb _); [done|]. by destruct (pending p).
    + unfold close. by destruct (workers p).
    + unfold onWorkerError. by destruct (decide _).
    + unfold runTimer. by destruct (timers p) as [|[d w] rest].
  - destruct op as [b| |w| |w| |v]; cbn [step]; try done;
      [| | | | |by destruct (Hop v)].
    + unfold acquire. destruct (workers p); [done|].
      destruct (available p); [|done].
      unfold atCapacity. rewrite Hm.
      destruct (Z.geb_spec (Z.of_nat (length (pending p))) m); [done|].
      cbn [snd pending]. rewrite length_app. cbn. lia.
    + unfold release. destruct (negb _); [done|].
      destruct (pending p) eqn:Hp; cbn in *; lia.
    + unfold close. destruct (workers p); [done|]. cbn. lia.
    + unfold onWorkerError. by destruct (decide _).
    + unfold runTimer. by destruct (timers p) as [|[d w] rest].
Qed.

Lemma pending_bounded_witness :
  let p := run [Spawn false; Acquire; SetMaxPending 1] empty in
  Z.of_nat (length (pending (run [Acquire; Acquire; Acquire; Release 0%nat;
                                  Acquire; Acquire] p))) ≤ 1.
Proof.
  cbn zeta.
  apply (pending_bounded
           [Acquire; Acquire; Acquire; Release 0%nat; Acquire; Acquire]
           (run [Spawn false; Acquire; SetMaxPending 1] empty) 1 1);
    [reflexivity | lia | cbn; lia | by repeat constructor].
Defined.

Lemma reject_all_lookup_other (ds : list Deferred) (ps : list Promise) d :
  d ∉ ds →
  foldl (λ ps deferred, settle deferred (Rejected poolClosed) ps) ps ds !! d
  = ps !! d.
Proof.
  revert ps. induction ds as [|d' ds IH]; intros ps Hd; [done|].
  apply not_elem_of_cons in Hd as [Hne Hd]. cbn [foldl].
  rewrite IH by done. by apply PoolFacts.settle_lookup_ne.
Qed.

(** The timers of a pool that operations have made: no deferred has two,
    the promise of each is not settled, and none is still in the queue. *)
Lemma timers_run (ops : list Op) :
  let p := run ops empty in
  NoDup (timers p).*1
  ∧ (∀ d, d ∈ (timers p).*1 → promises p !! d = Some Pending)
  ∧ (∀ d, d ∈ (timers p).*1 → d ∉ pending p).
Proof.
  cbn zeta. induction ops as [|op ops IH] using rev_ind.
  - cbn. split; [apply NoDup_nil_2|].
    split; intros d Hd; by apply elem_of_nil in Hd.
  - unfold run in *. rewrite foldl_snoc.
    pose proof (PoolFacts.wellFormed_run ops empty PoolFacts.wellFormed_empty)
      as (_ & _ & Hpl & Htl & Hnd & Hun & Hnt).
    unfold run in *. set (p := foldl step empty ops) in *. clearbody p.
    destruct IH as (Hndt & Htp & Htn).
    destruct p as [ws av pe mp pr ti te li cr].
    cbn [workers available listeners created pending timers promises] in *.
    destruct op as [b| |w| |w| |v]; cbn [step].
    + done.
    + unfold acquire. cbn [workers available].
      destruct ws as [|w0 ws]; [done|].
      destruct av as [|next rest]; [|done].
      destruct (atCapacity _); [done|]. cbn.
      split; [done|]. split.
      * intros d Hd. rewrite lookup_app_l; [by apply Htp|].
        apply list_elem_of_fmap in Hd as (t & -> & Ht). by apply Htl.
      * intros d Hd [Hin| ->%list_elem_of_singleton]%elem_of_app.
        -- by apply (Htn d).
        -- apply list_elem_of_fmap in Hd as (t & Heq & Ht).
           apply Htl in Ht. unfold Deferred in *. lia.
    + unfold release. cbn [workers pending].
      destruct (negb _); [done|].
      destruct pe as [|d rest]; cbn; [done|].
      apply NoDup_cons in Hnd as [Hd Hnd].
      rewrite fmap_app. cbn. split; [|split].
      * apply NoDup_app. split; [done|]. split; [|apply NoDup_singleton].
        intros d' Hd' Heq%list_elem_of_singleton. subst d'.
        apply (Hnt d); [by left|done].
      * intros d' [Hd'|Heq%list_elem_of_singleton]%elem_of_app.
        -- by apply Htp.
        -- subst d'. apply Hun. by left.
      * intros d' [Hd'|Heq%list_elem_of_singleton]%elem_of_app Hin.
        -- apply (Htn d' Hd'). by right.
        -- by subst d'.
    + unfold close. cbn [workers]. destruct ws; [done|]. cbn.
      split; [done|]. split.
      * intros d Hd. rewrite reject_all_lookup_other; [by apply Htp|].
        by apply Htn.
      * intros d Hd Hin. by apply elem_of_nil in Hin.
    + unfold onWorkerError. cbn [listeners]. by destruct (decide _).
    + unfold runTimer. cbn [timers]. destruct ti as [|[d w'] rest]; [done|].
      cbn in *. apply NoDup_cons in Hndt as [Hd Hndt].
      split; [done|]. split.
      * intros d' Hd'. rewrite PoolFacts.settle_lookup_ne.
        -- apply Htp. by right.
        -- intros Heq. by subst d'.
      * intros d' Hd'. apply Htn. by right.
    + unfold setMaxPending. by destruct (v <? 0).
Qed.

Lemma fire_delivers (ts : list (Deferred * Worker)) (ps : list Promise) d w :
  NoDup ts.*1 → (∀ d', d' ∈ ts.*1 → ps !! d' = Some Pending) →
  (d, w) ∈ ts → fire ts ps !! d = Some (Fulfilled w).
Proof.
  revert ps. induction ts as [|[d' w'] ts IH]; intros ps Hnd Hps Hin.
  - by apply elem_of_nil in Hin.
  - cbn in Hnd. apply NoDup_cons in Hnd as [Hd' Hnd].
    change (fire ((d', w') :: ts) ps)
      with (fire ts (settle d' (Fulfilled w') ps)).
    apply elem_of_cons in Hin as [[= -> ->]|Hin].
    + rewrite PoolFacts.fire_lookup_other by done.
      apply PoolFacts.settle_lookup_pending. apply Hps. by left.
    + apply IH; [done| |done].
      intros d'' Hd''. rewrite PoolFacts.settle_lookup_ne.
      * apply Hps. by right.
      * intros Heq. by subst d''.
Qed.

(** X23.  In every pool that operations have made, no deferred has two
    timers set for it and none with a timer is still in the queue; once the
    timers have had their turn none is left, and the promise of every
    deferred that had one is fulfilled with the worker released to it. *)
Theorem timers_deliver (ops : list Op) :
  let p := run ops empty in
  let q := run (replicate (length (timers p)) Timer) p in
  NoDup (timers p).*1
  ∧ (∀ d, d ∈ (timers p).*1 → d ∉ pending p)
  ∧ timers q = []
  ∧ ∀ d w, (d, w) ∈ timers p → promises q !! d = Some (Fulfilled w).
Proof.
  cbn zeta. destruct (timers_run ops) as (Hnd & Hpending & Hqueue).
  split; [done|]. split; [done|].
  rewrite (PoolFacts.run_timers (timers (run ops empty)) [])
    by (by rewrite app_nil_r).
  cbn [timers promises]. split; [done|].
  intros d w Hin. by apply fire_delivers.
Qed.

Lemma timers_deliver_witness :
  let p := run [Spawn false; Acquire; Acquire; Acquire; Release 0%nat;
                Release 0%nat] empty in
  (timers p).*1 = [0; 1]%nat
  ∧ NoDup (timers p).*1
  ∧ promises (run [Timer; Timer] p) !! 1%nat = Some (Fulfilled 0%nat).
Proof.
  cbn zeta. split; [reflexivity|].
  destruct (timers_deliver
              [Spawn false; Acquire; Acquire; Acquire; Release 0%nat;
               Release 0%nat]) as (Hnd & _ & _ & Hful).
  split; [exact Hnd|].
  apply (Hful 1%nat 0%nat). apply list_elem_of_In. right. left. reflexivity.
Defined.

(** X24.  [close()] does not clear the timers [release] has set: when the
    oldest timer hands the worker w, still in the pool, to the deferred d,
    then after [close()] and the timer's turn the pool has no worker, w is
    terminated, and the promise of d is fulfilled with w. *)
Theorem timer_survives_close (ops : list Op) (d : Deferred) (w : Worker)
  (rest : list (Deferred * Worker)) :
  let p := run ops empty in
  timers p = (d, w) :: rest → w ∈ workers p →
  let c := run [Close; Timer] p in
  workers c = []
  ∧ w ∈ terminated c
  ∧ promises c !! d = Some (Fulfilled w).
Proof.
  cbn zeta. intros Ht Hw.
  destruct (timers_run ops) as (_ & Htp & Htn).
  generalize dependent (run ops empty). intros p Ht Hw Htp Htn.
  rewrite Ht in Htp, Htn. cbn in Htp, Htn.
  cbn [run foldl step]. unfold close.
  destruct (workers p) as [|w0 ws] eqn:Hws; [by apply elem_of_nil in Hw|].
  unfold runTimer. cbn [timers]. rewrite Ht.
  cbn [workers terminated promises].
  split; [done|]. split; [apply elem_of_app; by right|].
  apply PoolFacts.settle_lookup_pending.
  rewrite reject_all_lookup_other.
  - apply Htp. by left.
  - apply Htn. by left.
Qed.

Lemma timer_survives_close_witness :
  let p := run [Spawn false; Acquire; Acquire; Release 0%nat] empty in
  let c := run [Close; Timer] p in
  workers c = [] ∧ 0%nat ∈ terminated c
  ∧ promises c !! 0%nat = Some (Fulfilled 0%nat).
Proof.
  cbn zeta.
  apply (timer_survives_close [Spawn false; Acquire; Acquire; Release 0%nat]
           0%nat 0%nat []); [reflexivity|].
  apply list_elem_of_In. left. reflexivity.
Defined.

End PoolMoreFacts.

(** ** The bytes of a heightmap *)

Module HeightmapMoreFacts.
Import Buffer Heightmap.

Lemma Qle_bool_false (a b : Q) : Qle_bool a b = false → (b < a)%Q.
Proof.
  intros Hf. apply Qnot_le_lt. intros Hle.
  apply Qle_bool_iff in Hle. congruence.
Qed.

Lemma clamp_range (n : Num) : (0 <= clamp n)%Q ∧ (clamp n <= 255)%Q.
Proof.
  destruct n as [|[]|q]; cbn; try (split; discriminate).
  destruct (Qle_bool q 0) eqn:H0; [split; discriminate|].
  destruct (Qle_bool 255 q) eqn:H255; [split; discriminate|].
  apply Qle_bool_false in H0, H255. split; by apply Qlt_le_weak.
Qed.

Lemma toUint8Clamp_range (n : Num) : 0 ≤ toUint8Clamp n ≤ 255.
Proof.
  destruct (clamp_range n) as [Hlo Hhi].
  assert (0 ≤ Qfloor (clamp n) ≤ 255) as Hf.
  { split.
    - change 0 with (Qfloor 0). by apply Qfloor_resp_le.
    - change 255 with (Qfloor 255). by apply Qfloor_resp_le. }
  assert (Qlt_bool (clamp n) (inject_Z (Qfloor (clamp n)) + (1 # 2)) = false
          → Qfloor (clamp n) ≤ 254) as Hhalf.
  { unfold Qlt_bool. intros Hb%negb_false_iff%Qle_bool_iff.
    pose proof (Qle_trans _ _ _ Hb Hhi) as Hle.
    unfold Qle in Hle. cbn in Hle. lia. }
  unfold toUint8Clamp.
  destruct n as [|s|q]; [lia| |];
    (destruct (Qlt_bool (clamp _) _); [lia|]);
    specialize (Hhalf eq_refl);
    (destruct (Qlt_bool _ (clamp _)); [lia|]);
    destruct (Z.even _); lia.
Qed.

(** X20.  On a non-empty W×H grid [makeHeightmap] returns an image of
    width W and height H whose data has 4·W·H bytes, each between 0 and
    255, whatever the numbers in the grid are (NaN and the infinities
    too). *)
Theorem heightmap_bytes (src : list Num) (W H : Z) :
  0 < W → 0 < H → Z.of_nat (length src) = W * H →
  ∃ img, makeHeightmap (mkBuffer2D (W, H) src) = Ok img
         ∧ width img = W ∧ height img = H
         ∧ Z.of_nat (length (data img)) = 4 * W * H
         ∧ Forall (λ byte, 0 ≤ byte ≤ 255) (data img).
Proof.
  intros HW HH Hlen. eexists.
  rewrite HeightmapFacts.makeHeightmap_pixels by done.
  split; [reflexivity|]. cbn [width height data].
  split; [done|]. split; [done|]. split.
  - rewrite HeightmapFacts.length_pixels. lia.
  - apply Forall_forall. intros byte (v & Hb & _)%list_elem_of_bind.
    unfold pixel in Hb. cbn zeta in Hb.
    pose proof (toUint8Clamp_range (mul255 (Some v))).
    repeat (apply elem_of_cons in Hb as [->|Hb]); try lia.
    by apply elem_of_nil in Hb.
Qed.


Lemma heightmap_bytes_witness :
  ∃ img, makeHeightmap (mkBuffer2D (2, 1) [Fin (1 # 2); NaN]) = Ok img
         ∧ data img = [128; 128; 128; 255; 0; 0; 0; 255]
         ∧ Forall (λ byte, 0 ≤ byte ≤ 255) (data img).
Proof.
  destruct (heightmap_bytes [Fin (1 # 2); NaN] 2 1
              ltac:(lia) ltac:(lia) eq_refl)
    as (img & Hmake & _ & _ & _ & Hbytes).
  exists img. split; [exact Hmake|]. split; [|exact Hbytes].
  rewrite HeightmapFacts.makeHeightmap_pixels in Hmake by (lia || reflexivity).
  by injection Hmake as <-.
Defined.

Lemma Qlt_bool_true (a b : Q) : Qlt_bool a b = true → (a < b)%Q.
Proof. unfold Qlt_bool. intros Hb%negb_true_iff. by apply Qle_bool_false. Qed.

Lemma Qlt_bool_false (a b : Q) : Qlt_bool a b = false → (b <= a)%Q.
Proof. unfold Qlt_bool. by intros Hb%negb_false_iff%Qle_bool_iff. Qed.

Lemma clamp_mono (a b : Q) :
  (a <= b)%Q → (clamp (Fin a) <= clamp (Fin b))%Q.
Proof.
  intros Hab. cbn.
  destruct (Qle_bool a 0) eqn:Ha0; destruct (Qle_bool b 0) eqn:Hb0;
    destruct (Qle_bool 255 a) eqn:Ha; destruct (Qle_bool 255 b) eqn:Hb;
    repeat match goal with
           | H : Qle_bool _ _ = true |- _ => apply Qle_bool_iff in H
           | H : Qle_bool _ _ = false |- _ => apply Qle_bool_false in H
           end; lra.
Qed.

(** X21.  The byte [makeHeightmap] stores for a finite value does not
    decrease when the value increases. *)
Theorem brighter_not_darker (a b : Q) :
  (a <= b)%Q →
  toUint8Clamp (mul255 (Some (Fin a))) ≤ toUint8Clamp (mul255 (Some (Fin b))).
Proof.
  intros Hab. cbn [mul255].
  assert (clamp (Fin (a * 255)) <= clamp (Fin (b * 255)))%Q as Hc
    by (apply clamp_mono; lra).
  unfold toUint8Clamp.
  set (c := clamp (Fin (a * 255))) in *.
  set (c' := clamp (Fin (b * 255))) in *.
  pose proof (Qfloor_resp_le _ _ Hc) as Hf.
  remember (Qfloor c) as f eqn:Ef. remember (Qfloor c') as f' eqn:Ef'.
  clear Ef Ef'. clearbody c c'.
  destruct (Z.eq_dec f f') as [<-|Hne].
  - repeat match goal with
           | |- context [Qlt_bool ?u ?v] => destruct (Qlt_bool u v) eqn:?
           end;
      destruct (Z.even f); try lia;
      repeat match goal with
             | H : Qlt_bool _ _ = true |- _ => apply Qlt_bool_true in H
             | H : Qlt_bool _ _ = false |- _ => apply Qlt_bool_false in H
             end; lra.
  - repeat match goal with
           | |- context [Qlt_bool ?u ?v] => destruct (Qlt_bool u v)
           end;
      destruct (Z.even f); destruct (Z.even f'); lia.
Qed.

Lemma brighter_not_darker_witness :
  toUint8Clamp (mul255 (Some (Fin (1 # 4))))
  ≤ toUint8Clamp (mul255 (Some (Fin (1 # 2))))
  ∧ toUint8Clamp (mul255 (Some (Fin (1 # 4)))) = 64
  ∧ toUint8Clamp (mul255 (Some (Fin (1 # 2)))) = 128.
Proof.
  split; [|split; reflexivity].
  apply (brighter_not_darker (1 # 4) (1 # 2)). discriminate.
Defined.

End HeightmapMoreFacts.

(** ** Erosion: the shape of the grid *)

Module ErosionFacts.
Import Buffer Grid Erosion.

Lemma forEach_cons {S A} (body : S → A → Result S) a l s s' :
  body s a = Ok s' → forEach body (a :: l) s = forEach body l s'.
Proof. intros Hb. unfold forEach. cbn [foldl mbind Result_bind]. by rewrite Hb. Qed.

(** A loop whose body keeps an invariant and does not throw. *)
Lemma forEach_inv {S A} (Inv : S → Prop) (P : A → Prop)
  (body : S → A → Result S) (l : list A) :
  Forall P l →
  (∀ s a, Inv s → P a → ∃ s', body s a = Ok s' ∧ Inv s') →
  ∀ s, Inv s → ∃ s', forEach body l s = Ok s' ∧ Inv s'.
Proof.
  intros Hl Hbody. induction Hl as [|a l Ha _ IH]; intros s Hs.
  - by exists s.
  - destruct (Hbody s a Hs Ha) as (s1 & Hb & Hs1).
    rewrite (forEach_cons body a l s s1 Hb). by apply IH.
Qed.

Lemma forEach_id {S A} (body : S → A → Result S) (l : list A) (s : S) :
  (∀ a, body s a = Ok s) → forEach body l s = Ok s.
Proof.
  intros Hb. induction l as [|a l IH]; [done|].
  by rewrite (forEach_cons body a l s s (Hb a)).
Qed.

Section Facts.
Context {V : Type}.
Variable conv : V → V.
Variable fround : V → V.
Variables sub add mul min_ : V → V → V.
Variable neg : V → V.
Variable lt : V → V → bool.
Variables zero one infinity nan : V.
Implicit Types (b : Buffer2D V) (p : Z * Z).

Lemma cells_inside b :
  Forall (λ p, isInBounds b p.1 p.2 = true) (cells b).
Proof.
  apply Forall_forall. intros [x y].
  intros (x' & (y' & [= -> ->]%list_elem_of_singleton
                   & Hy%elem_of_seqZ)%list_elem_of_bind
               & Hx%elem_of_seqZ)%list_elem_of_bind.
  apply BufferFacts.isInBounds_true. cbn. lia.
Qed.

Lemma set_inside b x y (v : V) :
  isInBounds b x y = true →
  set conv b x y v false
  = Ok (mkBuffer2D (size b)
          (TypedArray.write conv (buffer b) (x + y * (size b).1) v)).
Proof.
  intros Hin. unfold set.
  by rewrite (BufferFacts.getIndex_inside b x y false Hin).
Qed.

Lemma getNeighbors_inside b p (n : Neighbor V) :
  n ∈ getNeighbors b p → isInBounds b (neighborX n) (neighborY n) = true.
Proof.
  unfold getNeighbors.
  intros (d & Hn & _)%list_elem_of_bind. unfold yieldInBounds in Hn.
  destruct (isInBounds b _ _) eqn:Hin; [|by apply elem_of_nil in Hn].
  destruct (get b _ _ true); [|by apply elem_of_nil in Hn].
  apply list_elem_of_singleton in Hn. by subst n.
Qed.

Lemma steepest_elem (value : V) (ns : list (Neighbor V)) slope n :
  steepest sub lt infinity nan value ns = (slope, Some n) → n ∈ ns.
Proof.
  unfold steepest.
  assert (∀ acc, (foldl (λ acc neighbor,
                     let slope := sub value (num nan (neighborValue neighbor)) in
                     if lt slope acc.1 then (slope, Some neighbor) else acc)
                    acc ns).2 = Some n →
                 acc.2 = Some n ∨ n ∈ ns) as Hgen.
  { induction ns as [|m ns IH]; intros acc Hacc; [by left|].
    cbn [foldl] in Hacc. apply IH in Hacc as [Hacc|Hin].
    - cbn zeta in Hacc. destruct (lt _ _).
      + injection Hacc as ->. right. by left.
      + by left.
    - right. by right. }
  intros Heq.
  destruct (Hgen (infinity, None) (f_equal snd Heq)) as [[=]|Hin]. done.
Qed.

Lemma thermalMove_shape options sz len (st : Buffer2D V * list V) p :
  shape sz len st.1 → isInBounds st.1 p.1 p.2 = true →
  ∃ st', thermalMove conv fround sub add min_ neg lt zero infinity nan
           options st p = Ok st'
         ∧ shape sz len st'.1.
Proof.
  destruct st as [b sediment], p as [x y]. cbn [fst snd].
  intros [Hsz Hlen] Hin. unfold thermalMove.
  rewrite GridFacts.getIndex_noCheck. cbn [mbind Result_bind].
  destruct (steepest _ _ _ _ _ _) as [minSlope [n|]] eqn:Hs;
    [|by eexists].
  destruct (lt minSlope zero); [|by eexists].
  apply steepest_elem, getNeighbors_inside in Hs.
  rewrite (BufferFacts.getIndex_inside b _ _ false Hs).
  cbn [mbind Result_bind]. rewrite (set_inside b x y) by done.
  cbn [mbind Result_bind]. rewrite set_inside by done.
  cbn [mbind Result_bind size buffer]. eexists. split; [reflexivity|].
  split; [done|]. cbn. by rewrite !TypedArrayFacts.length_write.
Qed.

Lemma thermalSettle_shape options sz len (st : Buffer2D V * list V) p :
  shape sz len st.1 → isInBounds st.1 p.1 p.2 = true →
  ∃ st', thermalSettle conv fround add mul nan options st p = Ok st'
         ∧ shape sz len st'.1.
Proof.
  destruct st as [b sediment], p as [x y]. cbn [fst snd].
  intros [Hsz Hlen] Hin. unfold thermalSettle.
  rewrite (BufferFacts.getIndex_inside b x y false Hin).
  cbn [mbind Result_bind]. unfold get.
  rewrite GridFacts.getIndex_noCheck. cbn [mbind Result_bind].
  rewrite set_inside by done. cbn [mbind Result_bind].
  eexists. split; [reflexivity|].
  split; [done|]. cbn. by rewrite TypedArrayFacts.length_write.
Qed.

Lemma flow_total options b (value : V) index (ns : list (Neighbor V)) :
  ∀ water, ∃ water',
    flow fround sub add mul min_ lt zero nan options b value index water ns
    = Ok water'.
Proof.
  intros water. unfold flow.
  match goal with
  | |- ∃ _, forEach ?body _ _ = _ =>
    destruct (forEach_inv (λ _, True) (λ _, True) body ns) with water
      as (water' & Hflow & _)
  end.
  - by apply Forall_forall.
  - intros w n _ _. rewrite GridFacts.getIndex_noCheck.
    cbn [mbind Result_bind]. destruct (lt zero _); by eexists.
  - done.
  - by exists water'.
Qed.

Lemma hydraulicMove_shape options sz len (st : Hydraulic V) p :
  shape sz len st.1.1 → isInBounds st.1.1 p.1 p.2 = true →
  ∃ st', hydraulicMove conv fround sub add min_ lt zero one infinity nan
           options st p = Ok st'
         ∧ shape sz len st'.1.1.
Proof.
  destruct st as [[b sediment] water], p as [x y]. cbn [fst snd].
  intros [Hsz Hlen] Hin. unfold hydraulicMove.
  rewrite GridFacts.getIndex_noCheck. cbn [mbind Result_bind].
  destruct (steepest _ _ _ _ _ _) as [minSlope [n|]] eqn:Hs.
  - destruct (lt zero minSlope).
    + apply steepest_elem, getNeighbors_inside in Hs.
      rewrite (BufferFacts.getIndex_inside b _ _ false Hs).
      cbn [mbind Result_bind]. rewrite (set_inside b x y) by done.
      cbn [mbind Result_bind]. rewrite set_inside by done.
      cbn [mbind Result_bind size buffer].
      rewrite BufferFacts.getIndex_inside by done.
      cbn [mbind Result_bind size]. eexists. split; [reflexivity|].
      split; [done|]. cbn. by rewrite !TypedArrayFacts.length_write.
    + cbn [mbind Result_bind].
      rewrite BufferFacts.getIndex_inside by done.
      cbn [mbind Result_bind]. by eexists.
  - cbn [mbind Result_bind].
    rewrite BufferFacts.getIndex_inside by done.
    cbn [mbind Result_bind]. by eexists.
Qed.

Lemma hydraulicSettle_shape options sz len (st : Hydraulic V) p :
  shape sz len st.1.1 → isInBounds st.1.1 p.1 p.2 = true →
  ∃ st', hydraulicSettle conv fround sub add mul min_ lt zero nan
           options st p = Ok st'
         ∧ shape sz len st'.1.1.
Proof.
  destruct st as [[b sediment] water], p as [x y]. cbn [fst snd].
  intros [Hsz Hlen] Hin. unfold hydraulicSettle.
  rewrite GridFacts.getIndex_noCheck. cbn [mbind Result_bind].
  rewrite (BufferFacts.getIndex_inside b x y false Hin).
  cbn [mbind Result_bind].
  match goal with
  | |- context [flow _ _ _ _ _ _ _ _ ?o ?b0 ?v ?i ?w ?ns] =>
    destruct (flow_total o b0 v i ns w) as (water' & ->)
  end.
  cbn [mbind Result_bind]. rewrite set_inside by done.
  cbn [mbind Result_bind]. eexists. split; [reflexivity|].
  split; [done|]. cbn. by rewrite TypedArrayFacts.length_write.
Qed.

(** The two loops of an iteration, repeated: when neither body throws on a
    cell of the grid and both keep the grid's shape, so do the
    iterations; with no iteration or no cell nothing changes. *)
Lemma iterations_shape {S} (grid : S → Buffer2D V)
  (move settle : S → Z * Z → Result S) (start : S) (n : Z) :
  (∀ sz len st p,
     shape sz len (grid st) → isInBounds (grid st) p.1 p.2 = true →
     ∃ st', move st p = Ok st' ∧ shape sz len (grid st')) →
  (∀ sz len st p,
     shape sz len (grid st) → isInBounds (grid st) p.1 p.2 = true →
     ∃ st', settle st p = Ok st' ∧ shape sz len (grid st')) →
  ∃ st', forEach (λ st (_ : Z),
                    st ← forEach move (cells (grid start)) st;
                    forEach settle (cells (grid start)) st)
                 (seqZ 0 n) start = Ok st'
         ∧ size (grid st') = size (grid start)
         ∧ length (buffer (grid st')) = length (buffer (grid start))
         ∧ (n ≤ 0 ∨ (size (grid start)).1 ≤ 0 ∨ (size (grid start)).2 ≤ 0 →
            st' = start).
Proof.
  intros Hmove Hsettle.
  set (b := grid start).
  set (pass := λ (st : S) (_ : Z), _).
  set (Inv := λ st : S, shape (size b) (length (buffer b)) (grid st)).
  set (P := λ p : Z * Z, ∀ st, Inv st → isInBounds (grid st) p.1 p.2 = true).
  assert (Forall P (cells b)) as Hcells.
  { eapply Forall_impl; [apply cells_inside|].
    intros p Hp st0 [Hsz _]. unfold isInBounds in *. by rewrite Hsz. }
  assert (∀ st i, Inv st → ∃ st', pass st i = Ok st' ∧ Inv st') as Hpass.
  { intros st i Hst. unfold pass.
    destruct (forEach_inv Inv P move (cells b) Hcells) with st
      as (st1 & -> & Hst1); [|done|].
    { intros s p Hs Hp. apply Hmove; [done|by apply Hp]. }
    cbn [mbind Result_bind].
    apply (forEach_inv Inv P); [done| |done].
    intros s p Hs Hp. apply Hsettle; [done|by apply Hp]. }
  destruct (forEach_inv Inv (λ _, True) pass (seqZ 0 n)) with start
    as (st' & Hrun & Hsz & Hlen).
  { by apply Forall_forall. }
  { intros s a Hs _. by apply Hpass. }
  { done. }
  exists st'. split; [done|]. split; [done|]. split; [done|].
  intros Hnone.
  assert (forEach pass (seqZ 0 n) start = Ok start) as Hid.
  { destruct Hnone as [Hit|Hempty].
    - unfold seqZ. by replace (Z.to_nat n) with 0%nat by lia.
    - apply forEach_id. intros i. unfold pass.
      assert (cells b = []) as ->; [|done].
      unfold cells, seqZ. destruct Hempty as [Hw|Hh].
      + by replace (Z.to_nat (size b).1) with 0%nat by lia.
      + replace (Z.to_nat (size b).2) with 0%nat by lia. cbn.
        by induction (seq 0 (Z.to_nat (size b).1)). }
  rewrite Hid in Hrun. injection Hrun as Heq. by rewrite <- Heq.
Qed.

(** X25.  Whatever the arithmetic of numbers is, [applyThermalErosion] does
    not throw on any buffer, keeps the size of the grid and the length of
    its storage, and leaves the buffer as it was when [iterations] is not
    positive or the grid has no cell. *)
Theorem applyThermalErosion_shape b options :
  ∃ b', applyThermalErosion conv fround sub add mul min_ neg lt zero infinity
          nan b options = Ok b'
        ∧ size b' = size b
        ∧ length (buffer b') = length (buffer b)
        ∧ (iterations options ≤ 0 ∨ (size b).1 ≤ 0 ∨ (size b).2 ≤ 0 →
           b' = b).
Proof.
  unfold applyThermalErosion.
  destruct (iterations_shape fst
              (thermalMove conv fround sub add min_ neg lt zero infinity nan
                 options)
              (thermalSettle conv fround add mul nan options)
              (b, replicate (length (buffer b)) zero) (iterations options))
    as (st' & Hrun & Hsz & Hlen & Hid).
  { intros sz len st p. apply thermalMove_shape. }
  { intros sz len st p. apply thermalSettle_shape. }
  cbn [fst] in Hrun. rewrite Hrun. cbn [mbind Result_bind].
  exists st'.1. split; [done|]. split; [done|]. split; [done|].
  intros Hnone. by rewrite (Hid Hnone).
Qed.

(** X26.  Whatever the arithmetic of numbers is, [applyHydraulicErosion]
    does not throw on any buffer, keeps the size of the grid and the length
    of its storage, and leaves the buffer as it was when [iterations] is
    not positive or the grid has no cell. *)
Theorem applyHydraulicErosion_shape b options :
  ∃ b', applyHydraulicErosion conv fround sub add mul min_ lt zero one
          infinity nan b options = Ok b'
        ∧ size b' = size b
        ∧ length (buffer b') = length (buffer b)
        ∧ (hIterations options ≤ 0 ∨ (size b).1 ≤ 0 ∨ (size b).2 ≤ 0 →
           b' = b).
Proof.
  unfold applyHydraulicErosion.
  destruct (iterations_shape (λ st : Hydraulic V, st.1.1)
              (hydraulicMove conv fround sub add min_ lt zero one infinity
                 nan options)
              (hydraulicSettle conv fround sub add mul min_ lt zero nan
                 options)
              (b, replicate (length (buffer b)) zero,
               replicate (length (buffer b)) zero) (hIterations options))
    as (st' & Hrun & Hsz & Hlen & Hid).
  { intros sz len st p. apply hydraulicMove_shape. }
  { intros sz len st p. apply hydraulicSettle_shape. }
  cbn [fst] in Hrun. rewrite Hrun. cbn [mbind Result_bind].
  exists st'.1.1. split; [done|]. split; [done|]. split; [done|].
  intros Hnone. by rewrite (Hid Hnone).
Qed.

End Facts.

Lemma applyThermalErosion_shape_witness :
  ∃ b', applyThermalErosion id id Z.sub Z.add Z.mul Z.min Z.opp Z.ltb 0 1000 0
          (mkBuffer2D (2, 1) [3; 1]) (mkThermalErosionOptions 1 1 1) = Ok b'
        ∧ size b' = (2, 1) ∧ length (buffer b') = 2%nat.
Proof.
  destruct (applyThermalErosion_shape id id Z.sub Z.add Z.mul Z.min Z.opp
              Z.ltb 0 1000 0 (mkBuffer2D (2, 1) [3; 1])
              (mkThermalErosionOptions 1 1 1))
    as (b' & Hrun & Hsz & Hlen & _).
  exists b'. split; [exact Hrun|]. split; [exact Hsz | exact Hlen].
Defined.

Lemma applyHydraulicErosion_shape_witness :
  ∃ b', applyHydraulicErosion id id Z.sub Z.add Z.mul Z.min Z.ltb 0 1 1000 0
          (mkBuffer2D (2, 1) [3; 1]) (mkHydraulicErosionOptions 1 1 1 1)
        = Ok b'
        ∧ size b' = (2, 1) ∧ length (buffer b') = 2%nat.
Proof.
  destruct (applyHydraulicErosion_shape id id Z.sub Z.add Z.mul Z.min Z.ltb
              0 1 1000 0 (mkBuffer2D (2, 1) [3; 1])
              (mkHydraulicErosionOptions 1 1 1 1))
    as (b' & Hrun & Hsz & Hlen & _).
  exists b'. split; [exact Hrun|]. split; [exact Hsz | exact Hlen].
Defined.

End ErosionFacts.
